(** * Smart Task Analyzer: the scoring engine of [tasks/scoring.py]

    A shallow embedding of the scoring engine and the properties its
    specification states about it.

    Conventions of the embedding.
    - Python [float] values are idealised as exact rationals ([Q]); every
      arithmetic operation is the exact one, and [round(x, n)] is rounding
      to [n] decimals with ties going to the even digit.  The results of
      the program can differ from these by the rounding of binary
      floating point, which moves a value that lies at a tie to the other
      neighbour; the properties that speak of rounded values are stated
      with a tolerance that covers both.  Not-a-number and the infinities
      are outside the model: the hours of a task are finite numbers.  An
      [int] that is too large for a [float] raises [OverflowError] where
      the program converts it.
    - Python [int] is [Z]; a [date] is its proleptic ordinal (a [Z]), so that
      [(a - b).days] is a subtraction.
    - A [dict] keeps its keys in insertion order: it is an association list
      with unique keys.  A [set] of ids is a [gset Z].
    - An exception is a value of [exn]; code that may raise lives in the
      [result] monad.
    - [date.today()] is the explicit argument [clock] of the functions
      that call it.
    - The recursion limit of the interpreter is the explicit argument
      [depth] of [find_cycles] and of the functions that call it: the
      number of nested calls of the inner function [dfs] that the
      interpreter still allows when [find_cycles] runs.  A call beyond it
      raises [RecursionError]. *)

From Stdlib Require Import ZArith QArith Qround Qabs Qminmax String DecimalString List Lia Lqa Relations Permutation Sorted.
From stdpp Require Import base decidable option list gmap fin_sets.

Set Warnings "-clear-no-such-hyp".

Local Open Scope string_scope.
Local Open Scope list_scope.
Local Open Scope Z_scope.

(** ** Exceptions and the [result] monad *)

Inductive exn : Type :=
| KeyError (key : string)
| ValueError (msg : string)
| TypeError
| ZeroDivisionError
| RecursionError
| OverflowError.

Inductive result (A : Type) : Type :=
| Ok (a : A)
| Raise (e : exn).
Arguments Ok {A} a.
Arguments Raise {A} e.

#[global] Instance result_ret : MRet result := fun A a => Ok a.
#[global] Instance result_bind : MBind result := fun A B k r =>
  match r with
  | Ok a => k a
  | Raise e => Raise e
  end.

(** A [for] loop that builds a list with [append], one element per
    iteration, and stops at the first exception. *)
Fixpoint for_each {A B : Type} (body : A -> result B) (l : list A) : result (list B) :=
  match l with
  | [] => Ok []
  | a :: l' =>
      b ← body a;
      bs ← for_each body l';
      Ok (b :: bs)
  end.

(** ** Numbers *)

(** [a / b] with a divisor that is not a literal. *)
Definition py_div (a b : Q) : result Q :=
  if Qeq_bool b 0 then Raise ZeroDivisionError else Ok (a / b)%Q.

(** The conversion of an [int] to a [float], as [float(n)] and [n / 10.0]
    make it.  The integer is rounded to the nearest [float], and the
    conversion raises [OverflowError] when that would be [2 ^ 1024] or
    more, which is the case from [2 ^ 1024 - 2 ^ 970] on, halfway between
    the largest [float] and [2 ^ 1024]. *)
Definition FLOAT_OVERFLOW : Z := 2 ^ 1024 - 2 ^ 970.

Definition float_of_int (n : Z) : result Q :=
  if Z.abs n <? FLOAT_OVERFLOW then Ok (inject_Z n) else Raise OverflowError.

(** [max(a, b)] and [min(a, b)]: the first argument wins a tie. *)
Definition py_max (a b : Q) : Q := if Qlt_le_dec a b then b else a.
Definition py_min (a b : Q) : Q := if Qlt_le_dec b a then b else a.

(** Nearest integer, ties to even. *)
Definition round_half_even (x : Q) : Z :=
  let f := Qfloor x in
  let r := (x - inject_Z f)%Q in
  match (r ?= 1 # 2)%Q with
  | Lt => f
  | Gt => f + 1
  | Eq => if Z.even f then f else f + 1
  end.

(** [round(x, ndigits)] on the exact value: the nearest number of
    [ndigits] decimals, ties to the even digit.  (The program rounds the
    binary [float]; where the decimal value lies at a tie, its result can
    be either neighbour.) *)
Definition py_round (x : Q) (ndigits : nat) : Q :=
  let scale := inject_Z (10 ^ Z.of_nat ndigits) in
  (inject_Z (round_half_even (x * scale)) / scale)%Q.

(** ** Values of the raw payload *)

(** The Python values a task dictionary holds under ["due_date"],
    ["estimated_hours"] and ["importance"].  A [datetime] is a [date] with
    a time of day. *)
Inductive pyobj : Type :=
| PyNone
| PyStr (s : string)
| PyInt (n : Z)
| PyFloat (x : Q)
| PyDate (ordinal : Z)
| PyDateTime (ordinal : Z) (time_of_day : Z).

(** An instance of [date]: a plain date, or an instance of its subclass
    [datetime]. *)
Inductive pydate : Type :=
| Date (ordinal : Z)
| DateTime (ordinal : Z) (time_of_day : Z).

(** One raw task dictionary.  A field is [None] when the key is absent;
    ["id"] and ["dependencies"] hold integers, as [TaskData] declares them
    (for ["id"], [None] is also the value [None] of Python, which [or]
    treats like an absent key). *)
Record raw_task : Type := {
  raw_id : option Z;
  raw_title : option string;
  raw_due_date : option pyobj;
  raw_estimated_hours : option pyobj;
  raw_importance : option pyobj;
  raw_dependencies : option (list Z)
}.

Record TaskData : Type := {
  id : Z;
  title : string;
  due_date : option pydate;
  estimated_hours : Q;
  importance : Z;
  dependencies : list Z
}.

Definition DEFAULT_STRATEGY : string := "smart_balance".
Definition STRATEGY_CHOICES : list string :=
  ["fastest_wins"; "high_impact"; "deadline_driven"; "smart_balance"].
Definition MAX_URGENCY_DAYS : Z := 30.

(** [raw.get(key)]. *)
Definition py_get (field : option pyobj) : pyobj :=
  match field with
  | Some v => v
  | None => PyNone
  end.

(** [raw[key]]. *)
Definition subscript {A : Type} (key : string) (field : option A) : result A :=
  match field with
  | Some v => Ok v
  | None => Raise (KeyError key)
  end.

(** [enumerate(l, start)]. *)
Fixpoint enumerate {A : Type} (start : Z) (l : list A) : list (Z * A) :=
  match l with
  | [] => []
  | a :: l' => (start, a) :: enumerate (start + 1) l'
  end.

(** ** Dictionaries keyed by task id, in insertion order *)

Fixpoint dict_get {V : Type} (d : list (Z * V)) (k : Z) : option V :=
  match d with
  | [] => None
  | (k', v) :: d' => if Z.eqb k' k then Some v else dict_get d' k
  end.

(** [d[k] = v]: an existing key keeps its place, a new one goes last. *)
Fixpoint dict_set {V : Type} (d : list (Z * V)) (k : Z) (v : V) : list (Z * V) :=
  match d with
  | [] => [(k, v)]
  | (k', v') :: d' =>
      if Z.eqb k' k then (k', v) :: d' else (k', v') :: dict_set d' k v
  end.

(** [d.get(k, dflt)]. *)
Definition dict_get_default {V : Type} (d : list (Z * V)) (k : Z) (dflt : V) : V :=
  match dict_get d k with
  | Some v => v
  | None => dflt
  end.

Definition dict_keys {V : Type} (d : list (Z * V)) : list Z := map fst d.
Definition dict_values {V : Type} (d : list (Z * V)) : list V := map snd d.

(** ** Component scores *)

(** [compute_urgency(due, today)]; [clock] is what [date.today()] returns.
    Subtracting a [date] from a [datetime] is a [TypeError]. *)
Definition compute_urgency (clock : Z) (due : option pydate) (today : option Z)
  : result (Q * option Z) :=
  let today := match today with Some t => t | None => clock end in
  match due with
  | None => Ok ((1 # 10)%Q, None)
  | Some (DateTime _ _) => Raise TypeError
  | Some (Date d) =>
      let days_left := d - today in
      if days_left <? 0 then Ok (1%Q, Some days_left)
      else
        let urgency :=
          py_max 0%Q (1 - inject_Z (Z.min days_left MAX_URGENCY_DAYS)
                        / inject_Z MAX_URGENCY_DAYS)%Q in
        Ok (urgency, Some days_left)
  end.

Definition compute_importance (value : Z) : result Q :=
  value ← float_of_int value;
  Ok (py_min (py_max (value / 10)%Q 0%Q) 1%Q).

Definition compute_quick_win (hours : Q) : Q :=
  let capped := py_min (py_max hours 0%Q) 8%Q in
  let penalty := (capped / 8)%Q in
  (1 - penalty)%Q.

(** ** The dependency graph *)

Definition build_dependency_graph (tasks : list TaskData)
  : list (Z * list Z) * list (Z * Z) :=
  let adjacency := fold_left (fun d task => dict_set d (id task) []) tasks [] in
  let dependent_counts := fold_left (fun d task => dict_set d (id task) 0) tasks [] in
  fold_left
    (fun gd task =>
       fold_left
         (fun '(adjacency, dependent_counts) dependency =>
            (dict_set adjacency dependency
               (dict_get_default adjacency dependency [] ++ [id task]),
             dict_set dependent_counts dependency
               (dict_get_default dependent_counts dependency 0 + 1)))
         (dependencies task) gd)
    tasks (adjacency, dependent_counts).

(** ** Cycle detection *)

(** The three sets the traversal shares. *)
Record dfs_state : Type := {
  visited : gset Z;
  stack : gset Z;
  cycle_nodes : gset Z
}.

(** The loop over the neighbours of a node; [dfs] is the recursive call. *)
Fixpoint visit_neighbors (dfs : Z -> dfs_state -> result dfs_state)
    (neighbors : list Z) (st : dfs_state) : result dfs_state :=
  match neighbors with
  | [] => Ok st
  | neighbor :: rest =>
      st' ← (if decide (neighbor ∉ visited st) then dfs neighbor st
             else if decide (neighbor ∈ stack st) then
               Ok {| visited := visited st; stack := stack st;
                     cycle_nodes := cycle_nodes st ∪ stack st |}
             else Ok st);
      visit_neighbors dfs rest st'
  end.

(** The inner function [dfs]; [depth] is the number of nested calls the
    interpreter allows, this one included. *)
Fixpoint dfs (depth : nat) (graph : list (Z * list Z)) (node : Z) (st : dfs_state)
  : result dfs_state :=
  match depth with
  | O => Raise RecursionError
  | S depth' =>
      let st1 := {| visited := {[node]} ∪ visited st;
                    stack := {[node]} ∪ stack st;
                    cycle_nodes := cycle_nodes st |} in
      st2 ← visit_neighbors (dfs depth' graph) (dict_get_default graph node []) st1;
      Ok {| visited := visited st2;
            stack := stack st2 ∖ {[node]};
            cycle_nodes := cycle_nodes st2 |}
  end.

(** Every id the graph mentions, as a key or as a neighbour. *)
Definition graph_nodes (graph : list (Z * list Z)) : gset Z :=
  list_to_set (dict_keys graph ++ concat (dict_values graph)).

(** The loop over [graph.keys()]. *)
Fixpoint visit_roots (depth : nat) (graph : list (Z * list Z)) (roots : list Z)
    (st : dfs_state) : result dfs_state :=
  match roots with
  | [] => Ok st
  | node :: rest =>
      st' ← (if decide (node ∉ visited st) then dfs depth graph node st else Ok st);
      visit_roots depth graph rest st'
  end.

(** [find_cycles(graph)], when the interpreter allows [depth] nested calls
    of [dfs]. *)
Definition find_cycles (depth : nat) (graph : list (Z * list Z)) : result (gset Z) :=
  let st0 := {| visited := ∅; stack := ∅; cycle_nodes := ∅ |} in
  st ← visit_roots depth graph (dict_keys graph) st0;
  Ok (cycle_nodes st).

(** ** Scored tasks *)

Record components : Type := {
  urgency : Q;
  importance_norm : Q;
  quick_win : Q;
  dep_score : Q;
  num_dependents : Z;
  days_left : option Z
}.

(** The dictionary [score_tasks] builds for one task.  ["rank"] is absent
    until the ranking loop sets it. *)
Module Scored.
Record t : Type := mk {
  id : Z;
  title : string;
  due_date : option pydate;
  estimated_hours : Q;
  importance : Z;
  dependencies : list Z;
  score : Q;
  explanation : string;
  cycle_issue : bool;
  components : components;
  rank : option Z
}.

(** [item["rank"] = idx]. *)
Definition set_rank (idx : Z) (item : t) : t :=
  mk (id item) (title item) (due_date item) (estimated_hours item)
     (importance item) (dependencies item) (score item) (explanation item)
     (cycle_issue item) (components item) (Some idx).
End Scored.

Module Summary.
Record t : Type := mk {
  strategy : string;
  total_tasks : Z;
  average_score : Q;
  top_titles : list string
}.
End Summary.

Module Analysis.
Record t : Type := mk {
  strategy : string;
  tasks : list Scored.t;
  summary : Summary.t
}.
End Analysis.

(** ** Strategies *)

Definition score_fastest (c : components) : Q :=
  (0.6 * quick_win c + 0.2 * importance_norm c + 0.2 * urgency c)%Q.

Definition score_high_impact (c : components) : Q :=
  (0.7 * importance_norm c + 0.2 * urgency c + 0.1 * dep_score c)%Q.

Definition score_deadline (c : components) : Q :=
  (0.7 * urgency c + 0.2 * importance_norm c + 0.1 * quick_win c)%Q.

Definition score_smart (c : components) : Q :=
  (0.35 * urgency c + 0.35 * importance_norm c
   + 0.15 * quick_win c + 0.15 * dep_score c)%Q.

Definition STRATEGY_FUNCTIONS : list (string * (components -> Q)) :=
  [("fastest_wins", score_fastest);
   ("high_impact", score_high_impact);
   ("deadline_driven", score_deadline);
   ("smart_balance", score_smart)].

(** [STRATEGY_FUNCTIONS[strategy]]. *)
Fixpoint strategy_function (table : list (string * (components -> Q)))
    (strategy : string) : result (components -> Q) :=
  match table with
  | [] => Raise (KeyError strategy)
  | (name, f) :: table' =>
      if String.eqb name strategy then Ok f else strategy_function table' strategy
  end.

(** [strategy in STRATEGY_CHOICES]. *)
Definition known_strategy (strategy : string) : bool :=
  existsb (String.eqb strategy) STRATEGY_CHOICES.

(** ** Sorting and ranking *)

(** [l.sort(key=key, reverse=True)]: the sort of Python is stable, also
    when reversed; it is modelled by the stable insertion sort.  An element
    is put in front of the first one whose key is not greater than its
    own, and the elements are inserted from the last to the first. *)
Fixpoint insert_desc {A : Type} (key : A -> Q) (x : A) (l : list A) : list A :=
  match l with
  | [] => [x]
  | y :: l' =>
      if Qlt_le_dec (key x) (key y) then y :: insert_desc key x l' else x :: y :: l'
  end.

Fixpoint sort_desc {A : Type} (key : A -> Q) (l : list A) : list A :=
  match l with
  | [] => []
  | x :: l' => insert_desc key x (sort_desc key l')
  end.

(** [for idx, item in enumerate(l, start): item["rank"] = idx]. *)
Definition assign_ranks (start : Z) (l : list Scored.t) : list Scored.t :=
  map (fun '(idx, item) => Scored.set_rank idx item) (enumerate start l).

(** [sum(...)], from the left, starting at 0. *)
Definition py_sum (l : list Q) : Q := fold_left Qplus l 0%Q.

(** [max(l)] on a list of integers. *)
Definition py_max_list (l : list Z) : result Z :=
  match l with
  | [] => Raise (ValueError "max() arg is an empty sequence")
  | x :: l' => Ok (fold_left Z.max l' x)
  end.

(** ** Summary *)

Definition build_summary (tasks : list Scored.t) (strategy : string) : result Summary.t :=
  average_score ←
    (match tasks with
     | [] => Ok 0%Q
     | _ :: _ =>
         mean ← py_div (py_sum (map Scored.score tasks))
                       (inject_Z (Z.of_nat (length tasks)));
         Ok (py_round mean 2)
     end);
  Ok (Summary.mk strategy (Z.of_nat (length tasks)) average_score
        (map Scored.title (take 3 tasks))).

(** ** The engine, over the built-in conversions of Python

    The parsers and formatters of the Python library are parameters: the
    text of an ISO date, of a float and of an integer, and the two ways a
    float is printed. *)
Section Engine.

Variable date_fromisoformat : string -> result Z.
Variable float_of_str : string -> result Q.
Variable int_of_str : string -> result Z.
Variable repr_float : Q -> string.
Variable format_g : Q -> string.

(** [str(n)] and [f"{n}"] for an integer. *)
Definition format_int (n : Z) : string := NilZero.string_of_int (Z.to_int n).

(** [str(value)], where [_coerce_date] can reach it. *)
Definition py_str (value : pyobj) : string :=
  match value with
  | PyStr s => s
  | PyInt n => format_int n
  | PyFloat x => repr_float x
  | PyNone => "None"
  | PyDate _ | PyDateTime _ _ => ""
  end.

(** [float(value)].  [float_of_str] gives the value of a text that
    denotes a finite number; the texts for not-a-number and the
    infinities, which [float] accepts as well, are outside the model. *)
Definition py_float (value : pyobj) : result Q :=
  match value with
  | PyStr s => float_of_str s
  | PyInt n => float_of_int n
  | PyFloat x => Ok x
  | PyNone | PyDate _ | PyDateTime _ _ => Raise TypeError
  end.

(** [int(value)]; a float is truncated towards zero. *)
Definition py_int (value : pyobj) : result Z :=
  match value with
  | PyStr s => int_of_str s
  | PyInt n => Ok n
  | PyFloat x => Ok (Z.quot (Qnum x) (Z.pos (Qden x)))
  | PyNone | PyDate _ | PyDateTime _ _ => Raise TypeError
  end.

(** [_coerce_date].  A [datetime] is an instance of [date], so the first
    [isinstance] test returns it as it is, and the branch that would cut
    it to its date is never reached. *)
Definition _coerce_date (value : pyobj) : result (option pydate) :=
  match value with
  | PyNone => Ok None
  | PyStr "" => Ok None
  | PyDate d => Ok (Some (Date d))
  | PyDateTime d t => Ok (Some (DateTime d t))
  | _ => d ← date_fromisoformat (py_str value); Ok (Some (Date d))
  end.

(** The body of the loop of [parse_tasks]. *)
Definition parse_task (idx : Z) (raw : raw_task) : result TaskData :=
  let due_value := py_get (raw_due_date raw) in
  due ← _coerce_date due_value;
  let task_id :=
    match raw_id raw with
    | Some 0 | None => idx
    | Some i => i
    end in
  title ← subscript "title" (raw_title raw);
  hours_value ← subscript "estimated_hours" (raw_estimated_hours raw);
  hours ← py_float hours_value;
  importance_value ← subscript "importance" (raw_importance raw);
  importance ← py_int importance_value;
  Ok {| id := task_id;
        title := title;
        due_date := due;
        estimated_hours := hours;
        importance := importance;
        dependencies := match raw_dependencies raw with
                        | Some deps => deps
                        | None => []
                        end |}.

Definition parse_tasks (payload : list raw_task) : result (list TaskData) :=
  for_each (fun '(idx, raw) => parse_task idx raw) (enumerate 1 payload).

(** [", ".join]-style joining with ["; "]. *)
Fixpoint join_parts (parts : list string) : string :=
  match parts with
  | [] => ""
  | [p] => p
  | p :: parts' => (p ++ "; " ++ join_parts parts')%string
  end.

Definition build_explanation (task : TaskData) (c : components) (cycle_issue : bool)
  : string :=
  let deadline :=
    match due_date task with
    | None => "No deadline (low urgency)"
    | Some _ =>
        let due_text :=
          match days_left c with
          | Some d =>
              if d <? 0 then
                ("overdue by " ++ format_int (Z.abs d) ++ " day(s)")%string
              else if d =? 0 then "due today"
              else ("due in " ++ format_int d ++ " day(s)")%string
          | None => "no due data"
          end in
        let urgency_desc :=
          if Qle_bool 0.8 (urgency c) then "Very urgent"
          else if Qle_bool 0.5 (urgency c) then "Moderately urgent"
          else "Low urgency" in
        (urgency_desc ++ " (" ++ due_text ++ ")")%string
    end in
  let importance_part :=
    ("Importance " ++ format_int (importance task) ++ "/10")%string in
  let effort :=
    if Qle_bool 0.7 (quick_win c) then
      [("Quick win (" ++ format_g (estimated_hours task) ++ "h)")%string]
    else if Qle_bool (quick_win c) 0.3 then
      [("Higher effort (" ++ format_g (estimated_hours task) ++ "h)")%string]
    else [] in
  let blocks :=
    if 0 <? num_dependents c then
      [("Blocks " ++ format_int (num_dependents c) ++ " other task(s)")%string]
    else [] in
  let cycle := if cycle_issue then ["Part of dependency cycle"] else [] in
  join_parts ([deadline; importance_part] ++ effort ++ blocks ++ cycle).

(** [dep_score = (num_dependents / max_dep) if max_dep else 0.0]. *)
Definition compute_dep_score (num_dependents max_dep : Z) : result Q :=
  if max_dep =? 0 then Ok 0%Q
  else py_div (inject_Z num_dependents) (inject_Z max_dep).

(** The score of a task from its base score: the cycle penalty, then the
    scaling to 0-100. *)
Definition final_score (base_score : Q) (cycle_issue : bool) : Q :=
  let base_score := if cycle_issue then (base_score * 0.2)%Q else base_score in
  py_round (base_score * 100) 2.

(** The body of the scoring loop of [score_tasks]. *)
Definition score_task (strategy : string) (today : Z) (dependents : list (Z * Z))
    (cycle_nodes : gset Z) (max_dep : Z) (task : TaskData) : result Scored.t :=
  '(urgency, days_left) ← compute_urgency today (due_date task) (Some today);
  importance_norm ← compute_importance (importance task);
  let quick_win := compute_quick_win (estimated_hours task) in
  let num_dependents := dict_get_default dependents (id task) 0 in
  dep_score ← compute_dep_score num_dependents max_dep;
  let components :=
    {| urgency := py_round urgency 4;
       importance_norm := py_round importance_norm 4;
       quick_win := py_round quick_win 4;
       dep_score := py_round dep_score 4;
       num_dependents := num_dependents;
       days_left := days_left |} in
  f ← strategy_function STRATEGY_FUNCTIONS strategy;
  let base_score := f components in
  let cycle_issue := bool_decide (id task ∈ cycle_nodes) in
  let score := final_score base_score cycle_issue in
  let explanation := build_explanation task components cycle_issue in
  Ok (Scored.mk (id task) (title task) (due_date task) (estimated_hours task)
        (importance task) (dependencies task) score explanation cycle_issue
        components None).

(** [max_dep = max(dependents.values()) if dependents else 1]. *)
Definition compute_max_dep (dependents : list (Z * Z)) : result Z :=
  match dependents with
  | [] => Ok 1
  | _ :: _ => py_max_list (dict_values dependents)
  end.

(** [score_tasks(tasks_payload, strategy)], called when the interpreter
    allows [depth] nested calls of [dfs] and [date.today()] is [clock]. *)
Definition score_tasks (depth : nat) (clock : Z) (tasks_payload : list raw_task)
    (strategy : string) : result Analysis.t :=
  if negb (known_strategy strategy) then
    Raise (ValueError ("Unknown strategy '" ++ strategy ++ "'."))
  else
    parsed_tasks ← parse_tasks tasks_payload;
    let '(graph, dependents) := build_dependency_graph parsed_tasks in
    cycle_nodes ← find_cycles depth graph;
    max_dep ← compute_max_dep dependents;
    let today := clock in
    scored_tasks ←
      for_each (score_task strategy today dependents cycle_nodes max_dep) parsed_tasks;
    let scored_tasks := sort_desc Scored.score scored_tasks in
    let scored_tasks := assign_ranks 1 scored_tasks in
    summary ← build_summary scored_tasks strategy;
    Ok (Analysis.mk strategy scored_tasks summary).

End Engine.

(** * The service around the engine: [tasks/serializers.py], [tasks/views.py]

    The field validation of the framework is outside the model: a task
    reaches [TaskSerializer.validate] with a title, and with a date (or
    [None]), a float, an integer and a list of integers under the keys
    that are present.  A validated task is the dictionary the engine
    receives, a [raw_task]. *)

Module TaskAttrs.
Record t : Type := mk {
  title : string;
  due_date : option (option Z);
  estimated_hours : option Q;
  importance : option Z;
  dependencies : option (list Z)
}.
End TaskAttrs.

(** The outcome of a [validate] method: the validated value, or the
    [ValidationError] with its field and message. *)
Inductive validated (A : Type) : Type :=
| Valid (a : A)
| Invalid (field message : string).
Arguments Valid {A} a.
Arguments Invalid {A} field message.

#[global] Instance validated_ret : MRet validated := fun A a => Valid a.
#[global] Instance validated_bind : MBind validated := fun A B k r =>
  match r with
  | Valid a => k a
  | Invalid field message => Invalid field message
  end.

Module TaskSerializer.

(** [TaskSerializer.validate]: the defaults of a task. *)
Definition validate (attrs : TaskAttrs.t) : raw_task :=
  let hours :=
    match TaskAttrs.estimated_hours attrs with
    | Some hours => if Qeq_bool hours 0 then 2%Q else hours
    | None => 2%Q
    end in
  let importance :=
    match TaskAttrs.importance attrs with
    | Some importance => if importance =? 0 then 5 else importance
    | None => 5
    end in
  let dependencies :=
    match TaskAttrs.dependencies attrs with
    | Some deps => deps
    | None => []
    end in
  {| raw_id := None;
     raw_title := Some (TaskAttrs.title attrs);
     raw_due_date :=
       match TaskAttrs.due_date attrs with
       | Some (Some d) => Some (PyDate d)
       | Some None => Some PyNone
       | None => None
       end;
     raw_estimated_hours := Some (PyFloat hours);
     raw_importance := Some (PyInt importance);
     raw_dependencies := Some dependencies |}.

End TaskSerializer.

Module AnalyzeRequestSerializer.

(** The loop over the dependencies of the task at place [idx], among
    [n] tasks. *)
Fixpoint clean_dependencies (n idx : Z) (deps : list Z) : validated (list Z) :=
  match deps with
  | [] => Valid []
  | dep :: rest =>
      if negb ((1 <=? dep) && (dep <=? n)) then
        Invalid "dependencies"
          ("Task " ++ format_int idx ++ " references unknown id "
           ++ format_int dep ++ ".")%string
      else if dep =? idx then
        Invalid "dependencies"
          ("Task " ++ format_int idx ++ " cannot depend on itself.")%string
      else
        cleaned_deps ← clean_dependencies n idx rest;
        Valid (dep :: cleaned_deps)
  end.

(** The loop over the tasks: each gets its place as id and its checked
    dependencies. *)
Fixpoint validate_tasks (n : Z) (tasks : list (Z * raw_task)) : validated (list raw_task) :=
  match tasks with
  | [] => Valid []
  | (idx, task) :: rest =>
      cleaned_deps ←
        clean_dependencies n idx
          (match raw_dependencies task with Some deps => deps | None => [] end);
      let task :=
        {| raw_id := Some idx;
           raw_title := raw_title task;
           raw_due_date := raw_due_date task;
           raw_estimated_hours := raw_estimated_hours task;
           raw_importance := raw_importance task;
           raw_dependencies := Some cleaned_deps |} in
      rest ← validate_tasks n rest;
      Valid (task :: rest)
  end.

(** [AnalyzeRequestSerializer.validate], on the strategy and the tasks of
    [attrs]. *)
Definition validate (strategy : option string) (tasks : list raw_task)
  : validated (string * list raw_task) :=
  match tasks with
  | [] => Invalid "tasks" "Provide at least one task."
  | _ :: _ =>
      tasks ← validate_tasks (Z.of_nat (length tasks)) (enumerate 1 tasks);
      let strategy :=
        match strategy with
        | Some "" | None => DEFAULT_STRATEGY
        | Some name => name
        end in
      Valid (strategy, tasks)
  end.

End AnalyzeRequestSerializer.

(** The two slots of [views.py]. *)
Record service_state : Type := {
  latest_analysis : option (Z * Analysis.t);
  latest_input : option (list raw_task)
}.

(** What a view returns. *)
Inductive response : Type :=
| AnalysisResponse (generated_at : Z) (analysis : Analysis.t)
| SuggestResponse (generated_at : Z) (strategy : string) (limit : Z)
    (tasks : list Scored.t) (summary : Summary.t)
| ErrorResponse (status : Z) (detail : string)
| ValidationResponse (field message : string).

(** The status of a response; the framework answers a [ValidationError]
    with 400. *)
Definition status_code (r : response) : Z :=
  match r with
  | AnalysisResponse _ _ | SuggestResponse _ _ _ _ _ => 200
  | ErrorResponse status _ => status
  | ValidationResponse _ _ => 400
  end.

(** A view answers, or lets an exception of the engine through. *)
Inductive outcome : Type :=
| Responds (r : response)
| Propagates (e : exn).

(** [', '.join(STRATEGY_CHOICES)]. *)
Fixpoint join_comma (names : list string) : string :=
  match names with
  | [] => ""
  | [name] => name
  | name :: names' => (name ++ ", " ++ join_comma names')%string
  end.

Section Service.

Variable date_fromisoformat : string -> result Z.
Variable float_of_str : string -> result Q.
Variable int_of_str : string -> result Z.
Variable repr_float : Q -> string.
Variable format_g : Q -> string.

(** The nested calls of [dfs] the interpreter allows the engine when a
    view calls it. *)
Variable depth : nat.

(** [TaskAnalyzeView.post], on the data the field validation accepted,
    when the date is [clock] and the time [now]. *)
Definition TaskAnalyzeView_post (st : service_state) (clock now : Z)
    (strategy : option string) (tasks : list TaskAttrs.t) : service_state * outcome :=
  match AnalyzeRequestSerializer.validate strategy (map TaskSerializer.validate tasks) with
  | Invalid field message => (st, Responds (ValidationResponse field message))
  | Valid (strategy, tasks_payload) =>
      match score_tasks date_fromisoformat float_of_str int_of_str repr_float format_g
              depth clock tasks_payload strategy with
      | Raise e => (st, Propagates e)
      | Ok analysis =>
          let generated_at := now in
          ({| latest_analysis := Some (generated_at, analysis);
              latest_input := Some tasks_payload |},
           Responds (AnalysisResponse generated_at analysis))
      end
  end.

(** [TaskSuggestView.get], on the query parameters ["limit"] and
    ["strategy"]. *)
Definition TaskSuggestView_get (st : service_state) (clock now : Z)
    (limit_param strategy_param : option string) : service_state * outcome :=
  match latest_input st with
  | None =>
      (st, Responds (ErrorResponse 404
                       "No analysis available. POST to /api/tasks/analyze/ first."))
  | Some tasks_payload =>
      let strategy_param :=
        match strategy_param with
        | Some name => name
        | None => DEFAULT_STRATEGY
        end in
      if negb (known_strategy strategy_param) then
        (st, Responds (ErrorResponse 400
                         ("strategy must be one of " ++ join_comma STRATEGY_CHOICES
                          ++ ".")%string))
      else
        let limit :=
          match limit_param with
          | Some text => int_of_str text
          | None => Ok 3
          end in
        match limit with
        | Raise (ValueError _) =>
            (st, Responds (ErrorResponse 400 "limit must be a positive integer."))
        | Raise e => (st, Propagates e)
        | Ok limit =>
            let limit := if limit <=? 0 then 1 else limit in
            match score_tasks date_fromisoformat float_of_str int_of_str repr_float
                    format_g depth clock tasks_payload strategy_param with
            | Raise e => (st, Propagates e)
            | Ok analysis =>
                let generated_at :=
                  match latest_analysis st with
                  | Some (generated_at, _) => generated_at
                  | None => now
                  end in
                let tasks := take (Z.to_nat limit) (Analysis.tasks analysis) in
                (st, Responds (SuggestResponse generated_at strategy_param limit tasks
                                 (Analysis.summary analysis)))
            end
        end
  end.

End Service.

(** ** Notions the properties are stated with *)

(** An edge of the graph: from a dependency to a task that depends on it. *)
Definition edge (graph : list (Z * list Z)) (x y : Z) : Prop :=
  In y (dict_get_default graph x []).

(** A cycle participant: a node that reaches itself through one edge or
    more. *)
Definition on_cycle (graph : list (Z * list Z)) (x : Z) : Prop :=
  clos_trans Z (edge graph) x x.

(** The fields a scored entry takes over from its task record. *)
Definition record_of (e : Scored.t) : TaskData :=
  {| id := Scored.id e;
     title := Scored.title e;
     due_date := Scored.due_date e;
     estimated_hours := Scored.estimated_hours e;
     importance := Scored.importance e;
     dependencies := Scored.dependencies e |}.

(** A due date the urgency can be computed for: none, or a plain date. *)
Definition plain_due (task : TaskData) : Prop :=
  match due_date task with
  | Some (DateTime _ _) => False
  | _ => True
  end.



(** How many nodes of the graph the traversal has not entered yet. *)
Definition unvisited (graph : list (Z * list Z)) (st : dfs_state) : nat :=
  size (graph_nodes graph ∖ visited st).

(** The counting step of [build_dependency_graph], on the counts alone. *)
Definition count_dependency (counts : list (Z * Z)) (dependency : Z) : list (Z * Z) :=
  dict_set counts dependency (dict_get_default counts dependency 0 + 1).

(** The number of dependents of [k] in a batch: how many times the tasks
    name [k] as a dependency. *)
Definition count_dependents (tasks : list TaskData) (k : Z) : Z :=
  Z.of_nat (count_occ Z.eq_dec (concat (map dependencies tasks)) k).

(** The arithmetic mean of a list of numbers. *)
Definition arithmetic_mean (l : list Q) : Q :=
  (fold_right Qplus 0 l / inject_Z (Z.of_nat (length l)))%Q.

(** ** Notions of the further properties *)

(** An integer the program can convert to a [float]. *)
Definition in_float_range (n : Z) : Prop := Z.abs n < FLOAT_OVERFLOW.

(** A record the scoring loop can score: its due date is a plain date or
    none, and its importance can be converted to a [float]. *)
Definition scorable (task : TaskData) : Prop :=
  plain_due task /\ in_float_range (importance task).

(** A normalised score. *)
Definition unit_interval (x : Q) : Prop := (0 <= x <= 1)%Q.

(** Components that are all normalised. *)
Definition unit_components (c : components) : Prop :=
  unit_interval (urgency c) /\ unit_interval (importance_norm c)
  /\ unit_interval (quick_win c) /\ unit_interval (dep_score c).

(** [y] can be reached from [x] along the edges of the graph, in no step
    or more. *)
Definition reaches (graph : list (Z * list Z)) (x y : Z) : Prop :=
  clos_refl_trans Z (edge graph) x y.

(** [x] leads into a cycle: it reaches a node that is on one. *)
Definition leads_to_cycle (graph : list (Z * list Z)) (x : Z) : Prop :=
  exists y, reaches graph x y /\ on_cycle graph y.

(** Every flagged node leads into a cycle. *)
Definition flags_sound (graph : list (Z * list Z)) (st : dfs_state) : Prop :=
  forall x, x ∈ cycle_nodes st -> leads_to_cycle graph x.

(** The nodes the traversal has left. *)
Definition finished (st : dfs_state) : gset Z := visited st ∖ stack st.

(** The nodes the traversal has left without flagging them. *)
Definition unflagged (st : dfs_state) : gset Z :=
  (visited st ∖ stack st) ∖ cycle_nodes st.

(** An edge between two nodes of [U]. *)
Definition edge_within (graph : list (Z * list Z)) (U : gset Z) (x y : Z) : Prop :=
  edge graph x y /\ x ∈ U /\ y ∈ U.

(** What the traversal keeps true of the nodes it has left ([F]) and of
    those among them it has not flagged ([U]): the edges of an unflagged
    node lead to nodes that were left, and no cycle runs through unflagged
    nodes only. *)
Definition left_behind (graph : list (Z * list Z)) (F U : gset Z) : Prop :=
  (forall n m, n ∈ U -> edge graph n m -> m ∈ F)
  /\ (forall x, ~ clos_trans Z (edge_within graph U) x x).

Definition dfs_inv (graph : list (Z * list Z)) (st : dfs_state) : Prop :=
  stack st ⊆ visited st /\ left_behind graph (finished st) (unflagged st).

(** What a call of [dfs] on [node] keeps, when the nodes of the stack all
    reach [node]. *)
Definition keeps_flags_sound (graph : list (Z * list Z))
    (call : Z -> dfs_state -> result dfs_state) : Prop :=
  forall node st st',
    call node st = Ok st' ->
    node ∉ visited st ->
    stack st ⊆ visited st ->
    (forall s, s ∈ stack st -> reaches graph s node) ->
    flags_sound graph st ->
    flags_sound graph st' /\ stack st' = stack st /\ visited st ⊆ visited st'.

(** What a call of [dfs] on [node] leaves: the stack as it was, [node]
    visited, and nothing unvisited or unflagged. *)
Definition dfs_post (graph : list (Z * list Z)) (st st' : dfs_state) (node : Z) : Prop :=
  dfs_inv graph st' /\ stack st' = stack st /\ visited st ⊆ visited st'
  /\ node ∈ visited st' /\ cycle_nodes st ⊆ cycle_nodes st'.

Definition keeps_dfs_inv (graph : list (Z * list Z))
    (call : Z -> dfs_state -> result dfs_state) : Prop :=
  forall node st st',
    call node st = Ok st' -> node ∉ visited st -> dfs_inv graph st ->
    dfs_post graph st st' node.

(** The pairs (dependency, task id) of a batch, in the order in which
    [build_dependency_graph] meets them. *)
Definition dependency_pairs (tasks : list TaskData) : list (Z * Z) :=
  flat_map (fun task => map (fun dependency => (dependency, id task)) (dependencies task))
    tasks.

(** The appending step of [build_dependency_graph], on the adjacency
    alone. *)
Definition add_dependent (adjacency : list (Z * list Z)) (pair : Z * Z)
  : list (Z * list Z) :=
  dict_set adjacency (fst pair) (dict_get_default adjacency (fst pair) [] ++ [snd pair]).

(** Task [x] names [d] among its dependencies. *)
Definition depends_on (tasks : list TaskData) (x d : Z) : Prop :=
  exists task, In task tasks /\ id task = x /\ In d (dependencies task).


(** The id a raw task gets at the 0-based place [i] of the payload. *)
Definition id_at (i : nat) (raw : raw_task) : Z :=
  match raw_id raw with
  | Some 0 | None => Z.of_nat i + 1
  | Some k => k
  end.

(** A validated task with its place as id. *)
Definition with_id (idx : Z) (task : raw_task) : raw_task :=
  {| raw_id := Some idx;
     raw_title := raw_title task;
     raw_due_date := raw_due_date task;
     raw_estimated_hours := raw_estimated_hours task;
     raw_importance := raw_importance task;
     raw_dependencies :=
       Some (match raw_dependencies task with Some deps => deps | None => [] end) |}.

(** Dependencies the request validation accepts for the task at place
    [idx] among [n] tasks: ids of the batch other than its own. *)
Definition dependencies_ok (n idx : Z) (deps : list Z) : Prop :=
  Forall (fun dep => 1 <= dep <= n /\ dep <> idx) deps.

(** The strategy a request is analysed with. *)
Definition strategy_or_default (strategy : option string) : string :=
  match strategy with
  | Some "" | None => DEFAULT_STRATEGY
  | Some name => name
  end.

(** The state of the service at its start. *)
Definition initial_state : service_state :=
  {| latest_analysis := None; latest_input := None |}.

(** A request to the service, with the date and the time at which it is
    handled. *)
Inductive request : Type :=
| Analyze (clock now : Z) (strategy : option string) (tasks : list TaskAttrs.t)
| Suggest (clock now : Z) (limit_param strategy_param : option string).

(** The record of a validated task at place [idx]: two hours, importance
    5 and no dependency where the request says nothing or zero. *)
Definition record_of_attrs (idx : Z) (attrs : TaskAttrs.t) : TaskData :=
  {| id := idx;
     title := TaskAttrs.title attrs;
     due_date :=
       match TaskAttrs.due_date attrs with
       | Some (Some d) => Some (Date d)
       | _ => None
       end;
     estimated_hours :=
       match TaskAttrs.estimated_hours attrs with
       | Some hours => if Qeq_bool hours 0 then 2%Q else hours
       | None => 2%Q
       end;
     importance :=
       match TaskAttrs.importance attrs with
       | Some importance => if importance =? 0 then 5 else importance
       | None => 5
       end;
     dependencies :=
       match TaskAttrs.dependencies attrs with
       | Some deps => deps
       | None => []
       end |}.

Section ServiceRuns.

Variable date_fromisoformat : string -> result Z.
Variable float_of_str : string -> result Q.
Variable int_of_str : string -> result Z.
Variable repr_float : Q -> string.
Variable format_g : Q -> string.
Variable depth : nat.

(** The service handles a request, and a sequence of requests from a
    state on. *)
Definition handle (st : service_state) (req : request) : service_state * outcome :=
  match req with
  | Analyze clock now strategy tasks =>
      TaskAnalyzeView_post date_fromisoformat float_of_str int_of_str repr_float
        format_g depth st clock now strategy tasks
  | Suggest clock now limit_param strategy_param =>
      TaskSuggestView_get date_fromisoformat float_of_str int_of_str repr_float
        format_g depth st clock now limit_param strategy_param
  end.

Fixpoint run (st : service_state) (reqs : list request) : service_state :=
  match reqs with
  | [] => st
  | req :: rest => run (fst (handle st req)) rest
  end.

(** What holds of the two slots in every state the service reaches: they
    are filled together, and the cached payload has a task and has been
    scored once. *)
Definition cache_ok (st : service_state) : Prop :=
  match latest_input st with
  | None => latest_analysis st = None
  | Some payload =>
      (exists generated_at analysis, latest_analysis st = Some (generated_at, analysis))
      /\ payload <> []
      /\ exists clock strategy analysis,
           score_tasks date_fromisoformat float_of_str int_of_str repr_float format_g
             depth clock payload strategy
           = Ok analysis
  end.

End ServiceRuns.

(** ** Example inputs

    The examples hold their dates and numbers as such, never as text, and
    their hours are not among those the explanation prints: no conversion
    of the library is reached, and the two below stand for them. *)

Definition rejects_text {A : Type} (text : string) : result A :=
  Raise (ValueError text).

Definition prints_nothing (x : Q) : string := "".

(** A raw task of four hours and importance 5. *)
Definition raw_example (title : option string) (due : option pyobj)
    (deps : list Z) : raw_task :=
  {| raw_id := None;
     raw_title := title;
     raw_due_date := due;
     raw_estimated_hours := Some (PyInt 4);
     raw_importance := Some (PyInt 5);
     raw_dependencies := Some deps |}.

(** The record [parse_tasks] makes of [raw_example (Some "t") None deps] at
    position [i]. *)
Definition task_example (i : Z) (deps : list Z) : TaskData :=
  {| id := i;
     title := "t";
     due_date := None;
     estimated_hours := inject_Z 4;
     importance := 5;
     dependencies := deps |}.

(** Task 1 enables task 2; tasks 2 and 3 depend on each other.  The graph
    is [{1: [2], 2: [3], 3: [2]}]. *)
Definition chain_into_loop : list TaskData :=
  [task_example 1 []; task_example 2 [1; 3]; task_example 3 [2]].

(** Tasks 1, 3, 2 form a loop, and 1 and 2 depend on each other.  The graph
    is [{1: [2, 3], 2: [1], 3: [2]}]. *)
Definition chord_loop : list TaskData :=
  [task_example 1 [2]; task_example 2 [1; 3]; task_example 3 [1]].

(** A chain of three nodes: the traversal nests three calls of [dfs]. *)
Definition chain_of_three : list (Z * list Z) := [(1, [2]); (2, [3]); (3, [])].

(** One task due on day 110. *)
Definition due_on_110 : list raw_task :=
  [raw_example (Some "report") (Some (PyDate 110)) []].

(** Three tasks; the first has the second and the third as dependents. *)
Definition three_tasks : list raw_task :=
  [raw_example (Some "a") (Some (PyDate 101)) [];
   raw_example (Some "b") (Some (PyDate 120)) [1];
   raw_example (Some "c") None [1; 2]].

(** Two tasks that depend on each other. *)
Definition two_in_a_loop : list raw_task :=
  [raw_example (Some "a") (Some (PyDate 101)) [2];
   raw_example (Some "b") (Some (PyDate 101)) [1]].

(** A task whose hours are [None], then a task without a title. *)
Definition bad_hours_then_no_title : list raw_task :=
  [{| raw_id := None; raw_title := Some "a"; raw_due_date := None;
      raw_estimated_hours := Some PyNone; raw_importance := Some (PyInt 5);
      raw_dependencies := None |};
   raw_example None None []].

(** A task without a title after a well-formed one. *)
Definition no_title_second : list raw_task :=
  [raw_example (Some "a") None []; raw_example None None []].

(** One task whose due date is a [datetime]. *)
Definition due_at_noon : list raw_task :=
  [raw_example (Some "meeting") (Some (PyDateTime 110 43200)) []].

(** One task without a deadline. *)
Definition no_deadline : list raw_task :=
  [raw_example (Some "someday") None []].

(** The depth of the examples: a hundred nested calls, far below the limit
    of the interpreter. *)
Definition example_depth : nat := 100.

(** The engine on the examples. *)
Definition example_parse_tasks : list raw_task -> result (list TaskData) :=
  parse_tasks rejects_text rejects_text rejects_text prints_nothing.

Definition example_score_tasks : Z -> list raw_task -> string -> result Analysis.t :=
  score_tasks rejects_text rejects_text rejects_text prints_nothing prints_nothing
    example_depth.

(** The attributes of a task of four hours, as the field validation hands
    them on: the request gives no importance. *)
Definition attrs_example (title : string) (due : option Z) (deps : list Z)
  : TaskAttrs.t :=
  {| TaskAttrs.title := title;
     TaskAttrs.due_date := Some due;
     TaskAttrs.estimated_hours := Some (inject_Z 4);
     TaskAttrs.importance := None;
     TaskAttrs.dependencies := Some deps |}.

(** The same with an importance. *)
Definition attrs_with_importance (title : string) (due : option Z) (importance : Z)
    (deps : list Z) : TaskAttrs.t :=
  {| TaskAttrs.title := title;
     TaskAttrs.due_date := Some due;
     TaskAttrs.estimated_hours := Some (inject_Z 4);
     TaskAttrs.importance := Some importance;
     TaskAttrs.dependencies := Some deps |}.

(** A request of two tasks; the second depends on the first. *)
Definition two_attrs : list TaskAttrs.t :=
  [attrs_example "a" (Some 101) []; attrs_with_importance "b" None 8 [1]].

(** The payload the validation makes of [two_attrs]. *)
Definition two_validated : list raw_task :=
  [with_id 1 (TaskSerializer.validate (attrs_example "a" (Some 101) []));
   with_id 2 (TaskSerializer.validate (attrs_with_importance "b" None 8 [1]))].

(** One analysis of [two_attrs], asked on day 100 at time 5000. *)
Definition one_analysis : list request :=
  [Analyze 100 5000 (Some "high_impact") two_attrs].


Definition example_run : list request -> service_state :=
  run rejects_text rejects_text rejects_text prints_nothing prints_nothing example_depth
    initial_state.

Definition example_get
  : service_state -> Z -> Z -> option string -> option string -> service_state * outcome :=
  TaskSuggestView_get rejects_text rejects_text rejects_text prints_nothing prints_nothing
    example_depth.

(** * Properties *)

Arguments strategy_function : simpl never.
Arguments compute_urgency : simpl never.
Arguments compute_dep_score : simpl never.
Arguments compute_max_dep : simpl never.
Arguments find_cycles : simpl never.
Arguments float_of_int : simpl never.
Arguments compute_importance : simpl never.
Arguments build_summary : simpl never.
Arguments build_explanation : simpl never.
Arguments final_score : simpl never.
Arguments py_round : simpl never.

(** ** Rounding *)

Lemma round_half_even_close (x : Q) :
  (Qabs (inject_Z (round_half_even x) - x) <= 1 # 2)%Q.
Proof.
  unfold round_half_even.
  pose proof (Qfloor_le x) as Hlo.
  pose proof (Qlt_floor x) as Hhi.
  rewrite inject_Z_plus in Hhi. change (inject_Z 1) with 1%Q in Hhi.
  set (f := Qfloor x) in *.
  destruct (Qcompare_spec (x - inject_Z f) (1 # 2)) as [He | Hl | Hg];
    try destruct (Z.even f);
    rewrite ?inject_Z_plus; change (inject_Z 1) with 1%Q;
    apply Qabs_case; intros _; lra.
Qed.

Lemma round_half_even_lower (x : Q) (a : Z) :
  (inject_Z a <= x)%Q -> a <= round_half_even x.
Proof.
  intros Ha. unfold round_half_even.
  assert (a <= Qfloor x) as Hf.
  { rewrite <- (Qfloor_Z a). apply Qfloor_resp_le, Ha. }
  destruct (x - inject_Z (Qfloor x) ?= 1 # 2)%Q; try destruct (Z.even _); lia.
Qed.

Lemma round_half_even_upper (x : Q) (b : Z) :
  (x <= inject_Z b)%Q -> round_half_even x <= b.
Proof.
  intros Hb. unfold round_half_even.
  pose proof (Qfloor_le x) as Hlo.
  assert (Qfloor x <= b) as Hf.
  { rewrite <- (Qfloor_Z b). apply Qfloor_resp_le, Hb. }
  destruct (Z.eq_dec (Qfloor x) b) as [Heq | Hne].
  - rewrite Heq in *.
    assert (x == inject_Z b)%Q as Hx by lra.
    destruct (Qcompare_spec (x - inject_Z b) (1 # 2)) as [He | Hl | Hg]; try lra; lia.
  - destruct (x - inject_Z (Qfloor x) ?= 1 # 2)%Q; try destruct (Z.even _); lia.
Qed.


Lemma py_round_close_4 (x : Q) : (Qabs (py_round x 4 - x) <= 1 # 20000)%Q.
Proof.
  unfold py_round. change (inject_Z (10 ^ Z.of_nat 4)) with (inject_Z 10000).
  pose proof (round_half_even_close (x * inject_Z 10000)) as H.
  set (n := inject_Z (round_half_even (x * inject_Z 10000))) in *.
  change (inject_Z 10000) with 10000%Q in *.
  apply Qabs_Qle_condition in H. apply Qabs_Qle_condition.
  assert (n / 10000 == n * (1 # 10000))%Q as Hd by field.
  rewrite Hd. lra.
Qed.

Lemma py_round_unit_interval (x : Q) (n : nat) :
  (0 <= x <= 1)%Q -> (0 <= py_round x n <= 1)%Q.
Proof.
  intros [H0 H1]. unfold py_round.
  set (s := 10 ^ Z.of_nat n).
  assert (0 < s) as Hs by (apply Z.pow_pos_nonneg; lia).
  assert (0 < inject_Z s)%Q as Hsq.
  { change 0%Q with (inject_Z 0). rewrite <- Zlt_Qlt. exact Hs. }
  assert (0 <= round_half_even (x * inject_Z s)) as Hlo.
  { apply round_half_even_lower. change (inject_Z 0) with 0%Q. nra. }
  assert (round_half_even (x * inject_Z s) <= s) as Hhi.
  { apply round_half_even_upper. nra. }
  rewrite Zle_Qle in Hlo, Hhi. change (inject_Z 0) with 0%Q in Hlo.
  split.
  - apply Qle_shift_div_l; [exact Hsq | lra].
  - apply Qle_shift_div_r; [exact Hsq | lra].
Qed.

Lemma round_half_even_Qeq (x y : Q) :
  (x == y)%Q -> round_half_even x = round_half_even y.
Proof.
  intros Hxy. unfold round_half_even.
  rewrite (Qfloor_comp x y Hxy).
  assert (x - inject_Z (Qfloor y) == y - inject_Z (Qfloor y))%Q as Hr
    by (rewrite Hxy; reflexivity).
  rewrite (Qcompare_comp _ _ Hr (1 # 2) (1 # 2) (Qeq_refl _)). reflexivity.
Qed.

Lemma py_round_Qeq (x y : Q) (n : nat) : (x == y)%Q -> py_round x n = py_round y n.
Proof.
  intros Hxy. unfold py_round.
  rewrite (round_half_even_Qeq (x * inject_Z (10 ^ Z.of_nat n))
             (y * inject_Z (10 ^ Z.of_nat n))); [reflexivity |].
  rewrite Hxy. reflexivity.
Qed.

Lemma py_sum_fold_right (l : list Q) : (py_sum l == fold_right Qplus 0 l)%Q.
Proof.
  unfold py_sum.
  assert (forall a, fold_left Qplus l a == a + fold_right Qplus 0 l)%Q as H.
  { induction l as [| x l IH]; intros a; simpl.
    - lra.
    - rewrite IH. lra. }
  rewrite H. lra.
Qed.

(** ** Loops in the [result] monad *)

Lemma for_each_Ok {A B : Type} (body : A -> result B) (l : list A) (out : list B) :
  for_each body l = Ok out -> Forall2 (fun a b => body a = Ok b) l out.
Proof.
  revert out. induction l as [| a l IH]; intros out H; simpl in H.
  - injection H as <-. constructor.
  - destruct (body a) as [b | e] eqn:Hb; simpl in H; [| discriminate].
    destruct (for_each body l) as [bs | e] eqn:Hbs; simpl in H; [| discriminate].
    injection H as <-. constructor; [exact Hb | apply IH; reflexivity].
Qed.

Lemma for_each_total {A B : Type} (body : A -> result B) (l : list A) :
  Forall (fun a => exists b, body a = Ok b) l -> exists out, for_each body l = Ok out.
Proof.
  induction 1 as [| a l [b Hb] _ [bs Hbs]]; simpl.
  - eexists; reflexivity.
  - rewrite Hb; simpl. rewrite Hbs; simpl. eexists; reflexivity.
Qed.

Lemma for_each_Raise {A B : Type} (body : A -> result B) (pre post : list A)
    (a : A) (e : exn) (done : list B) :
  for_each body pre = Ok done -> body a = Raise e ->
  for_each body (pre ++ a :: post) = Raise e.
Proof.
  revert done. induction pre as [| p pre IH]; intros done Hpre Ha; simpl in *.
  - rewrite Ha. reflexivity.
  - destruct (body p) as [b | e'] eqn:Hb; simpl in *; [| discriminate].
    destruct (for_each body pre) as [bs | e'] eqn:Hbs; simpl in *; [| discriminate].
    rewrite (IH bs eq_refl Ha). reflexivity.
Qed.

Lemma for_each_In_Raise {A B : Type} (body : A -> result B) (l : list A) (a : A) :
  In a l -> (exists e, body a = Raise e) -> exists e, for_each body l = Raise e.
Proof.
  intros Hin [e He]. induction l as [| x l IH]; simpl in *; [contradiction |].
  destruct (body x) as [b | e'] eqn:Hb; simpl; [| eexists; reflexivity].
  destruct Hin as [-> | Hin]; [congruence |].
  destruct (IH Hin) as [e' ->]. simpl. eexists; reflexivity.
Qed.

Lemma Forall2_length_eq {A B : Type} (R : A -> B -> Prop) (l : list A) (l' : list B) :
  Forall2 R l l' -> length l = length l'.
Proof. induction 1; simpl; congruence. Qed.

(** ** The stable descending sort *)

Section Sorting.

Context {A : Type} (key : A -> Q).

Lemma insert_desc_perm (x : A) (l : list A) :
  Permutation (insert_desc key x l) (x :: l).
Proof.
  induction l as [| y l IH]; simpl; [reflexivity |].
  destruct (Qlt_le_dec (key x) (key y)); [| reflexivity].
  rewrite IH. apply perm_swap.
Qed.

Lemma sort_desc_perm (l : list A) : Permutation (sort_desc key l) l.
Proof.
  induction l as [| x l IH]; simpl; [reflexivity |].
  rewrite insert_desc_perm. constructor. exact IH.
Qed.





End Sorting.

(** ** Ranks *)

Lemma enumerate_length {A : Type} (start : Z) (l : list A) :
  length (enumerate start l) = length l.
Proof. revert start. induction l; intros; simpl; congruence. Qed.

Lemma enumerate_lookup {A : Type} (start : Z) (l : list A) (i : nat) :
  enumerate start l !! i = (fun a => (start + Z.of_nat i, a)) <$> l !! i.
Proof.
  revert start i. induction l as [| a l IH]; intros start [| i]; simpl; try reflexivity.
  - do 2 f_equal. lia.
  - rewrite IH. destruct (l !! i); simpl; [| reflexivity]. do 2 f_equal. lia.
Qed.

Lemma assign_ranks_length (start : Z) (l : list Scored.t) :
  length (assign_ranks start l) = length l.
Proof. unfold assign_ranks. rewrite length_map. apply enumerate_length. Qed.



Lemma assign_ranks_record (start : Z) (l : list Scored.t) :
  map record_of (assign_ranks start l) = map record_of l.
Proof.
  revert start. induction l as [| e l IH]; intros start; [reflexivity |].
  unfold assign_ranks in *. cbn [enumerate map]. f_equal. apply IH.
Qed.

Lemma assign_ranks_score (start : Z) (l : list Scored.t) :
  map Scored.score (assign_ranks start l) = map Scored.score l.
Proof.
  revert start. induction l as [| e l IH]; intros start; [reflexivity |].
  unfold assign_ranks in *. cbn [enumerate map]. f_equal. apply IH.
Qed.

Lemma assign_ranks_title (start : Z) (l : list Scored.t) :
  map Scored.title (assign_ranks start l) = map Scored.title l.
Proof.
  revert start. induction l as [| e l IH]; intros start; [reflexivity |].
  unfold assign_ranks in *. cbn [enumerate map]. f_equal. apply IH.
Qed.

(** ** The traversal terminates within its depth *)

Section Traversal.

Variable graph : list (Z * list Z).

Lemma dict_get_In {V : Type} (d : list (Z * V)) (k : Z) (v : V) :
  dict_get d k = Some v -> In (k, v) d.
Proof.
  induction d as [| [k' v'] d IH]; simpl; [discriminate |].
  destruct (Z.eqb_spec k' k) as [-> | Hne].
  - intros [= ->]. left; reflexivity.
  - intros H. right. apply IH, H.
Qed.

Lemma neighbor_in_nodes (node neighbor : Z) :
  edge graph node neighbor -> neighbor ∈ graph_nodes graph.
Proof.
  unfold edge, dict_get_default, graph_nodes.
  destruct (dict_get graph node) as [l |] eqn:Hget; [| intros []].
  intros Hin. apply elem_of_list_to_set, list_elem_of_In, in_or_app. right.
  apply in_concat. exists l. split; [| exact Hin].
  apply dict_get_In in Hget. unfold dict_values.
  change l with (snd (node, l)). apply in_map, Hget.
Qed.

Lemma key_in_nodes (node : Z) :
  In node (dict_keys graph) -> node ∈ graph_nodes graph.
Proof.
  intros Hin. apply elem_of_list_to_set, list_elem_of_In, in_or_app. left. exact Hin.
Qed.

Local Abbreviation unvisited := (unvisited graph).

Lemma unvisited_mono (st st' : dfs_state) :
  visited st ⊆ visited st' -> (unvisited st' <= unvisited st)%nat.
Proof. intros H. unfold unvisited. apply subseteq_size. set_solver. Qed.

Lemma unvisited_enter (node : Z) (vis stk cyc : gset Z) :
  node ∈ graph_nodes graph -> node ∉ vis ->
  (unvisited {| visited := {[node]} ∪ vis; stack := stk; cycle_nodes := cyc |}
   < unvisited {| visited := vis; stack := stk; cycle_nodes := cyc |})%nat.
Proof.
  intros Hin Hnot. unfold unvisited; simpl.
  apply subset_size. apply strict_spec_alt. split; [set_solver |].
  intros Heq. assert (node ∈ graph_nodes graph ∖ vis) as Hn by set_solver.
  rewrite <- Heq in Hn. set_solver.
Qed.

Lemma unvisited_pos (node : Z) (st : dfs_state) :
  node ∈ graph_nodes graph -> node ∉ visited st -> (0 < unvisited st)%nat.
Proof.
  intros Hin Hnot. unfold unvisited.
  assert (node ∈ graph_nodes graph ∖ visited st) as Hnode
      by (apply elem_of_difference; split; assumption).
  destruct (size (graph_nodes graph ∖ visited st)) eqn:Hsize; [| lia].
  apply size_empty_inv in Hsize. apply (proj1 (Hsize node)) in Hnode.
  apply elem_of_empty in Hnode. contradiction.
Qed.

Lemma visit_neighbors_total (rec : Z -> dfs_state -> result dfs_state) (d : nat) :
  (forall node st, node ∈ graph_nodes graph -> node ∉ visited st ->
                   (unvisited st <= d)%nat ->
                   exists st', rec node st = Ok st' /\ visited st ⊆ visited st') ->
  forall neighbors st,
    Forall (fun n => n ∈ graph_nodes graph) neighbors ->
    (unvisited st <= d)%nat ->
    exists st', visit_neighbors rec neighbors st = Ok st' /\ visited st ⊆ visited st'.
Proof.
  intros Hrec neighbors. induction neighbors as [| nb rest IH]; intros st Hall Hd; simpl.
  - exists st. split; [reflexivity | set_solver].
  - apply Forall_cons in Hall as [Hnb Hrest].
    destruct (decide (nb ∉ visited st)) as [Hfresh | Hseen].
    + destruct (Hrec nb st Hnb Hfresh Hd) as (st1 & -> & Hsub). simpl.
      destruct (IH st1 Hrest) as (st2 & -> & Hsub2).
      { pose proof (unvisited_mono _ _ Hsub). lia. }
      exists st2. split; [reflexivity | set_solver].
    + destruct (decide (nb ∈ stack st)); simpl.
      * apply (IH {| visited := visited st; stack := stack st;
                     cycle_nodes := cycle_nodes st ∪ stack st |} Hrest Hd).
      * apply (IH st Hrest Hd).
Qed.

(** No node is entered twice: a call of [dfs] returns when the depth
    allowed is at least the number of nodes not yet visited. *)
Lemma dfs_total (depth : nat) (node : Z) (st : dfs_state) :
  node ∈ graph_nodes graph -> node ∉ visited st -> (unvisited st <= depth)%nat ->
  exists st', dfs depth graph node st = Ok st' /\ visited st ⊆ visited st'.
Proof.
  revert node st. induction depth as [| depth IH]; intros node st Hin Hfresh Hd.
  { pose proof (unvisited_pos node st Hin Hfresh). lia. }
  cbn [dfs].
  destruct (visit_neighbors_total (dfs depth graph) depth IH
              (dict_get_default graph node [])
              {| visited := {[node]} ∪ visited st;
                 stack := {[node]} ∪ stack st;
                 cycle_nodes := cycle_nodes st |}) as (st2 & -> & Hsub).
  - apply Forall_forall. intros nb Hnb. apply list_elem_of_In in Hnb.
    eapply neighbor_in_nodes, Hnb.
  - pose proof (unvisited_enter node (visited st) ({[node]} ∪ stack st)
                  (cycle_nodes st) Hin Hfresh) as Hlt.
    unfold unvisited in *. simpl in *. lia.
  - simpl. eexists. split; [reflexivity |]. simpl in *. set_solver.
Qed.

Lemma visit_roots_total (depth : nat) (roots : list Z) (st : dfs_state) :
  Forall (fun n => n ∈ graph_nodes graph) roots -> (unvisited st <= depth)%nat ->
  exists st', visit_roots depth graph roots st = Ok st'.
Proof.
  revert st. induction roots as [| node rest IH]; intros st Hall Hd; simpl.
  - eexists; reflexivity.
  - apply Forall_cons in Hall as [Hnode Hrest].
    destruct (decide (node ∉ visited st)) as [Hfresh | Hseen]; simpl.
    + destruct (dfs_total depth node st Hnode Hfresh Hd) as (st1 & -> & Hsub). simpl.
      apply IH; [exact Hrest |].
      pose proof (unvisited_mono _ _ Hsub). lia.
    + apply IH; assumption.
Qed.

(** [find_cycles] returns a set when the depth allowed is at least the
    number of nodes of the graph. *)
Lemma find_cycles_total (depth : nat) :
  (size (graph_nodes graph) <= depth)%nat ->
  exists cycles, find_cycles depth graph = Ok cycles.
Proof.
  intros Hdepth. unfold find_cycles.
  destruct (visit_roots_total depth (dict_keys graph)
              {| visited := ∅; stack := ∅; cycle_nodes := ∅ |}) as [st ->].
  - apply Forall_forall. intros k Hk. apply key_in_nodes, list_elem_of_In, Hk.
  - unfold unvisited; simpl.
    assert (size (graph_nodes graph ∖ ∅) <= size (graph_nodes graph))%nat
      by (apply subseteq_size; set_solver).
    lia.
  - simpl. eexists; reflexivity.
Qed.

(** The traversal raises nothing but [RecursionError]. *)
Lemma visit_neighbors_raises (rec : Z -> dfs_state -> result dfs_state) :
  (forall node st e, rec node st = Raise e -> e = RecursionError) ->
  forall neighbors st e,
    visit_neighbors rec neighbors st = Raise e -> e = RecursionError.
Proof.
  intros Hrec neighbors. induction neighbors as [| nb rest IH]; intros st e; simpl;
    [discriminate |].
  destruct (decide (nb ∉ visited st)).
  - destruct (rec nb st) as [st1 | e1] eqn:Hnb; simpl; [apply IH |].
    intros [= <-]. eapply Hrec, Hnb.
  - destruct (decide (nb ∈ stack st)); simpl; apply IH.
Qed.

Lemma dfs_raises (depth : nat) (node : Z) (st : dfs_state) (e : exn) :
  dfs depth graph node st = Raise e -> e = RecursionError.
Proof.
  revert node st e. induction depth as [| depth IH]; intros node st e; cbn [dfs].
  - intros [= <-]. reflexivity.
  - destruct (visit_neighbors (dfs depth graph) _ _) as [st2 | e2] eqn:Hst2; simpl;
      [discriminate |].
    intros [= <-]. eapply (visit_neighbors_raises (dfs depth graph) IH), Hst2.
Qed.

Lemma find_cycles_raises (depth : nat) (e : exn) :
  find_cycles depth graph = Raise e -> e = RecursionError.
Proof.
  unfold find_cycles.
  destruct (visit_roots depth graph _ _) as [st | e1] eqn:Hst; simpl; [discriminate |].
  intros [= <-]. revert Hst. generalize (dict_keys graph).
  generalize {| visited := ∅; stack := ∅; cycle_nodes := ∅ |}.
  intros st roots. revert st. induction roots as [| node rest IH]; intros st; simpl;
    [discriminate |].
  destruct (decide (node ∉ visited st)); simpl; [| apply IH].
  destruct (dfs depth graph node st) as [st1 | e2] eqn:Hnode; simpl; [apply IH |].
  intros [= <-]. eapply dfs_raises, Hnode.
Qed.

(** More depth changes nothing in a traversal that returns. *)
Lemma visit_neighbors_deeper (rec rec' : Z -> dfs_state -> result dfs_state) :
  (forall node st st', rec node st = Ok st' -> rec' node st = Ok st') ->
  forall neighbors st st',
    visit_neighbors rec neighbors st = Ok st' ->
    visit_neighbors rec' neighbors st = Ok st'.
Proof.
  intros Hrec neighbors. induction neighbors as [| nb rest IH]; intros st st'; simpl;
    [auto |].
  destruct (decide (nb ∉ visited st)).
  - destruct (rec nb st) as [st1 | e] eqn:Hnb; simpl; [| discriminate].
    rewrite (Hrec _ _ _ Hnb). simpl. apply IH.
  - destruct (decide (nb ∈ stack st)); simpl; apply IH.
Qed.

Lemma dfs_deeper (depth deeper : nat) (node : Z) (st st' : dfs_state) :
  (depth <= deeper)%nat ->
  dfs depth graph node st = Ok st' -> dfs deeper graph node st = Ok st'.
Proof.
  revert deeper node st st'.
  induction depth as [| depth IH]; intros deeper node st st' Hle; [discriminate |].
  destruct deeper as [| deeper]; [lia |]. cbn [dfs].
  destruct (visit_neighbors (dfs depth graph) _ _) as [st2 | e] eqn:Hst2; simpl;
    [| discriminate].
  rewrite (visit_neighbors_deeper (dfs depth graph) (dfs deeper graph)
             (fun n s s' => IH deeper n s s' ltac:(lia)) _ _ _ Hst2).
  simpl. auto.
Qed.

Lemma visit_roots_deeper (depth deeper : nat) (roots : list Z) (st st' : dfs_state) :
  (depth <= deeper)%nat ->
  visit_roots depth graph roots st = Ok st' ->
  visit_roots deeper graph roots st = Ok st'.
Proof.
  intros Hle. revert st. induction roots as [| node rest IH]; intros st; simpl; [auto |].
  destruct (decide (node ∉ visited st)); simpl; [| apply IH].
  destruct (dfs depth graph node st) as [st1 | e] eqn:Hnode; simpl; [| discriminate].
  rewrite (dfs_deeper _ _ _ _ _ Hle Hnode). simpl. apply IH.
Qed.

Lemma find_cycles_deeper (depth deeper : nat) (cycles : gset Z) :
  (depth <= deeper)%nat ->
  find_cycles depth graph = Ok cycles -> find_cycles deeper graph = Ok cycles.
Proof.
  intros Hle. unfold find_cycles.
  destruct (visit_roots depth graph _ _) as [st | e] eqn:Hst; simpl; [| discriminate].
  rewrite (visit_roots_deeper _ _ _ _ _ Hle Hst). simpl. auto.
Qed.

End Traversal.

(** ** Dictionaries and the dependent counts *)

Lemma dict_get_set {V : Type} (d : list (Z * V)) (k k' : Z) (v : V) :
  dict_get (dict_set d k v) k' = if Z.eqb k k' then Some v else dict_get d k'.
Proof.
  induction d as [| [k0 v0] d IH]; simpl.
  - reflexivity.
  - destruct (Z.eqb_spec k0 k) as [-> | Hne]; simpl.
    + destruct (Z.eqb_spec k k'); reflexivity.
    + rewrite IH. destruct (Z.eqb_spec k0 k') as [-> | Hne'].
      * destruct (Z.eqb_spec k k'); [congruence | reflexivity].
      * reflexivity.
Qed.

Lemma dict_get_default_set {V : Type} (d : list (Z * V)) (k k' : Z) (v dflt : V) :
  dict_get_default (dict_set d k v) k' dflt
  = if Z.eqb k k' then v else dict_get_default d k' dflt.
Proof.
  unfold dict_get_default. rewrite dict_get_set. destruct (Z.eqb k k'); reflexivity.
Qed.

Lemma dict_set_values {V : Type} (P : V -> Prop) (d : list (Z * V)) (k : Z) (v : V) :
  Forall P (dict_values d) -> P v -> Forall P (dict_values (dict_set d k v)).
Proof.
  intros Hd Hv. induction d as [| [k0 v0] d IH]; simpl in *.
  - repeat constructor. exact Hv.
  - apply Forall_cons in Hd as [H0 Hd].
    destruct (Z.eqb k0 k); simpl; constructor; auto.
Qed.

Lemma dict_get_default_values {V : Type} (P : V -> Prop) (d : list (Z * V))
    (k : Z) (dflt : V) :
  Forall P (dict_values d) -> P dflt -> P (dict_get_default d k dflt).
Proof.
  intros Hd Hdflt. unfold dict_get_default.
  destruct (dict_get d k) as [v |] eqn:Hget; [| exact Hdflt].
  apply dict_get_In in Hget.
  rewrite Forall_forall in Hd. apply Hd, list_elem_of_In.
  unfold dict_values. change v with (snd (k, v)). apply in_map, Hget.
Qed.

Lemma fold_left_invariant {S X : Type} (P : S -> Prop) (f : S -> X -> S)
    (l : list X) (s : S) :
  P s -> (forall s x, P s -> P (f s x)) -> P (fold_left f l s).
Proof.
  intros Hs Hstep. revert s Hs. induction l as [| x l IH]; intros s Hs; simpl; auto.
Qed.

Lemma build_dependency_graph_counts (tasks : list TaskData) :
  snd (build_dependency_graph tasks)
  = fold_left count_dependency (concat (map dependencies tasks))
      (fold_left (fun d task => dict_set d (id task) 0) tasks []).
Proof.
  unfold build_dependency_graph.
  generalize (fold_left (fun d task => dict_set d (id task) (@nil Z)) tasks []).
  generalize (fold_left (fun d task => dict_set d (id task) 0) tasks []).
  induction tasks as [| task tasks IH]; intros counts adjacency; [reflexivity |].
  cbn [fold_left map concat]. rewrite fold_left_app.
  assert (forall deps adj cnt,
             exists adj',
               fold_left
                 (fun '(adjacency, dependent_counts) dependency =>
                    (dict_set adjacency dependency
                       (dict_get_default adjacency dependency [] ++ [id task]),
                     dict_set dependent_counts dependency
                       (dict_get_default dependent_counts dependency 0 + 1)))
                 deps (adj, cnt)
               = (adj', fold_left count_dependency deps cnt)) as Hinner.
  { induction deps as [| dep deps IHd]; intros adj cnt; simpl.
    - eexists; reflexivity.
    - apply IHd. }
  destruct (Hinner (dependencies task) adjacency counts) as [adj' ->].
  apply IH.
Qed.

Lemma initial_counts_zero (tasks : list TaskData) (k : Z) :
  dict_get_default (fold_left (fun d task => dict_set d (id task) 0) tasks []) k 0 = 0.
Proof.
  apply (fold_left_invariant (fun d => dict_get_default d k 0 = 0)).
  - reflexivity.
  - intros d task Hd. rewrite dict_get_default_set. destruct (Z.eqb _ _); auto.
Qed.

Lemma count_dependency_lookup (deps : list Z) (counts : list (Z * Z)) (k : Z) :
  dict_get_default (fold_left count_dependency deps counts) k 0
  = dict_get_default counts k 0 + Z.of_nat (count_occ Z.eq_dec deps k).
Proof.
  revert counts. induction deps as [| dep deps IH]; intros counts.
  - simpl. lia.
  - cbn [fold_left count_occ]. rewrite IH. unfold count_dependency.
    rewrite dict_get_default_set.
    destruct (Z.eqb_spec dep k) as [-> | Hne]; destruct (Z.eq_dec _ _); try congruence; lia.
Qed.

(** The dependent count of an id is the number of times the dependency
    lists of the batch name it. *)
Lemma dependent_count_occurrences (tasks : list TaskData) (k : Z) :
  dict_get_default (snd (build_dependency_graph tasks)) k 0
  = Z.of_nat (count_occ Z.eq_dec (concat (map dependencies tasks)) k).
Proof.
  rewrite build_dependency_graph_counts, count_dependency_lookup, initial_counts_zero.
  lia.
Qed.

Lemma dependent_counts_nonneg (tasks : list TaskData) :
  Forall (fun v => 0 <= v) (dict_values (snd (build_dependency_graph tasks))).
Proof.
  rewrite build_dependency_graph_counts.
  apply (fold_left_invariant (fun d => Forall (fun v => 0 <= v) (dict_values d))).
  - apply (fold_left_invariant (fun d => Forall (fun v => 0 <= v) (dict_values d))).
    + constructor.
    + intros d task Hd. apply dict_set_values; [exact Hd | lia].
  - intros d dep Hd. apply dict_set_values; [exact Hd |].
    assert (0 <= dict_get_default d dep 0)
      by (apply (dict_get_default_values (fun v => 0 <= v)); [exact Hd | lia]).
    lia.
Qed.

Lemma fold_left_max_spec (l : list Z) (x : Z) :
  x <= fold_left Z.max l x
  /\ Forall (fun v => v <= fold_left Z.max l x) l
  /\ In (fold_left Z.max l x) (x :: l).
Proof.
  revert x. induction l as [| y l IH]; intros x; simpl.
  - repeat split; [lia | constructor | left; reflexivity].
  - destruct (IH (Z.max x y)) as (Hge & Hall & Hin).
    repeat split; [lia | constructor; [lia | exact Hall] |].
    destruct Hin as [Hin | Hin]; [| right; right; exact Hin].
    destruct (Z.max_spec x y) as [[_ Hm] | [_ Hm]]; rewrite Hm in Hin at 1;
      [right; left | left]; exact Hin.
Qed.

Lemma py_max_list_spec (l : list Z) (m : Z) :
  py_max_list l = Ok m -> Forall (fun v => v <= m) l /\ In m l.
Proof.
  destruct l as [| x l]; simpl; [discriminate |].
  intros [= <-]. destruct (fold_left_max_spec l x) as (Hge & Hall & Hin).
  split; [constructor; assumption | exact Hin].
Qed.

Lemma assign_ranks_In (start : Z) (l : list Scored.t) (e : Scored.t) :
  In e (assign_ranks start l) -> exists e0 k, In e0 l /\ e = Scored.set_rank k e0.
Proof.
  unfold assign_ranks. intros Hin. apply in_map_iff in Hin as ([k e0] & <- & Hin).
  exists e0, k. split; [| reflexivity].
  revert start Hin. induction l as [| x l IH]; intros start Hin; simpl in *; [contradiction |].
  destruct Hin as [[= _ ->] | Hin]; [left; reflexivity | right; eapply IH, Hin].
Qed.

Lemma Forall2_In_r {A B : Type} (R : A -> B -> Prop) (l : list A) (l' : list B) (b : B) :
  Forall2 R l l' -> In b l' -> exists a, In a l /\ R a b.
Proof.
  induction 1 as [| a b' l l' Hab _ IH]; intros Hin; simpl in *; [contradiction |].
  destruct Hin as [<- | Hin].
  - exists a. auto.
  - destruct (IH Hin) as (a' & Ha' & HR). exists a'. auto.
Qed.


Lemma enumerate_app {A : Type} (start : Z) (l1 l2 : list A) :
  enumerate start (l1 ++ l2)
  = enumerate start l1 ++ enumerate (start + Z.of_nat (length l1)) l2.
Proof.
  revert start. induction l1 as [| a l1 IH]; intros start.
  - cbn. f_equal. lia.
  - cbn [app enumerate length]. rewrite IH. do 3 f_equal. lia.
Qed.

Lemma enumerate_In {A : Type} (start : Z) (l : list A) (a : A) :
  In a l -> exists i, In (i, a) (enumerate start l).
Proof.
  revert start. induction l as [| x l IH]; intros start Hin; simpl in *; [contradiction |].
  destruct Hin as [-> | Hin].
  - exists start. left; reflexivity.
  - destruct (IH (start + 1) Hin) as [i Hi]. exists i. right; exact Hi.
Qed.

Lemma enumerate_In_inv {A : Type} (start : Z) (l : list A) (i : Z) (a : A) :
  In (i, a) (enumerate start l) -> In a l.
Proof.
  revert start. induction l as [| x l IH]; intros start H; simpl in *; [contradiction |].
  destruct H as [[= _ ->] | H]; [left; reflexivity | right; eapply IH, H].
Qed.

Lemma for_each_ext_In {A B : Type} (f g : A -> result B) (l : list A) :
  (forall a, In a l -> f a = g a) -> for_each f l = for_each g l.
Proof.
  induction l as [| a l IH]; intros H; [reflexivity |].
  cbn [for_each]. rewrite (H a) by (left; reflexivity).
  rewrite IH; [reflexivity |]. intros a' Ha'. apply H. right; exact Ha'.
Qed.

Lemma for_each_first_Raise {A B : Type} (body : A -> result B) (l : list A) (e : exn) :
  for_each body l = Raise e ->
  exists pre a post done,
    l = pre ++ a :: post /\ for_each body pre = Ok done /\ body a = Raise e.
Proof.
  induction l as [| a l IH]; cbn; [discriminate |].
  destruct (body a) as [b | e'] eqn:Hb; cbn.
  - destruct (for_each body l) as [bs | e'] eqn:Hbs; cbn; [discriminate |].
    intros [= ->]. destruct (IH eq_refl) as (pre & a' & post & done & -> & Hpre & Ha').
    exists (a :: pre), a', post, (b :: done). cbn. rewrite Hb, Hpre. auto.
  - intros [= ->]. exists [], a, l, []. auto.
Qed.

Lemma for_each_Raise_ext {A B : Type} (f g : A -> result B) (l : list A) (e : exn) :
  (forall a, In a l ->
             (forall e, f a = Raise e -> g a = Raise e)
             /\ (forall b, f a = Ok b -> exists b', g a = Ok b')) ->
  for_each f l = Raise e -> for_each g l = Raise e.
Proof.
  induction l as [| a l IH]; cbn; [discriminate |]. intros H.
  destruct (H a (or_introl eq_refl)) as [Hraise Hok].
  destruct (f a) as [b | e'] eqn:Hf; cbn.
  - destruct (Hok b eq_refl) as [b' ->]. cbn.
    destruct (for_each f l) as [bs | e'] eqn:Hl; cbn; [discriminate |].
    intros [= ->]. rewrite IH; [reflexivity | | reflexivity].
    intros a' Ha'. apply H. right. exact Ha'.
  - intros [= ->]. rewrite (Hraise e eq_refl). reflexivity.
Qed.

(** ** The steps of [score_tasks] *)

Section EngineProperties.

Variable date_fromisoformat : string -> result Z.
Variable float_of_str : string -> result Q.
Variable int_of_str : string -> result Z.
Variable repr_float : Q -> string.
Variable format_g : Q -> string.
Variable depth : nat.

Local Abbreviation _coerce_date := (_coerce_date date_fromisoformat repr_float).
Local Abbreviation parse_task :=
  (parse_task date_fromisoformat float_of_str int_of_str repr_float).
Local Abbreviation parse_tasks :=
  (parse_tasks date_fromisoformat float_of_str int_of_str repr_float).
Local Abbreviation score_task := (score_task format_g).
Local Abbreviation score_tasks :=
  (score_tasks date_fromisoformat float_of_str int_of_str repr_float format_g).

Lemma known_strategy_In (strategy : string) :
  known_strategy strategy = true <-> In strategy STRATEGY_CHOICES.
Proof.
  unfold known_strategy. rewrite existsb_exists. split.
  - intros (s & Hin & Heq). apply String.eqb_eq in Heq. subst. exact Hin.
  - intros Hin. exists strategy. split; [exact Hin | apply String.eqb_refl].
Qed.

Lemma known_strategy_function (strategy : string) :
  known_strategy strategy = true ->
  exists f, strategy_function STRATEGY_FUNCTIONS strategy = Ok f.
Proof.
  intros H. apply known_strategy_In in H. simpl in H.
  destruct H as [<- | [<- | [<- | [<- | []]]]]; eexists; reflexivity.
Qed.

(** What a successful call went through. *)
Lemma score_tasks_Ok (clock : Z) (payload : list raw_task) (strategy : string)
    (r : Analysis.t) :
  score_tasks depth clock payload strategy = Ok r ->
  known_strategy strategy = true /\
  exists parsed graph dependents cycles max_dep scored,
    parse_tasks payload = Ok parsed /\
    build_dependency_graph parsed = (graph, dependents) /\
    find_cycles depth graph = Ok cycles /\
    compute_max_dep dependents = Ok max_dep /\
    for_each (score_task strategy clock dependents cycles max_dep) parsed = Ok scored /\
    Analysis.tasks r = assign_ranks 1 (sort_desc Scored.score scored) /\
    build_summary (Analysis.tasks r) strategy = Ok (Analysis.summary r) /\
    Analysis.strategy r = strategy.
Proof.
  unfold score_tasks.
  destruct (known_strategy strategy); simpl; [| discriminate].
  intros H. split; [reflexivity |].
  destruct (parse_tasks payload) as [parsed | e] eqn:Hparsed; simpl in H;
    [| discriminate].
  destruct (build_dependency_graph parsed) as [graph dependents] eqn:Hgraph.
  destruct (find_cycles depth graph) as [cycles | e] eqn:Hcycles; simpl in H;
    [| discriminate].
  destruct (compute_max_dep dependents) as [max_dep | e] eqn:Hmax; simpl in H;
    [| discriminate].
  destruct (for_each _ parsed) as [scored | e] eqn:Hscored; simpl in H; [| discriminate].
  destruct (build_summary _ strategy) as [summary | e] eqn:Hsum; simpl in H;
    [| discriminate].
  injection H as <-. simpl.
  exists parsed, graph, dependents, cycles, max_dep, scored.
  repeat split; try reflexivity; assumption.
Qed.

(** What a scored entry is made of. *)
Lemma score_task_Ok (strategy : string) (today : Z) (dependents : list (Z * Z))
    (cycles : gset Z) (max_dep : Z) (task : TaskData) (e : Scored.t) :
  score_task strategy today dependents cycles max_dep task = Ok e ->
  exists f,
    strategy_function STRATEGY_FUNCTIONS strategy = Ok f /\
    record_of e = task /\
    Scored.rank e = None /\
    Scored.cycle_issue e = bool_decide (id task ∈ cycles) /\
    Scored.score e = final_score (f (Scored.components e)) (Scored.cycle_issue e).
Proof.
  unfold score_task.
  destruct (compute_urgency _ _ _) as [[u dl] | err]; simpl; [| discriminate].
  destruct (compute_importance _) as [i | err]; simpl; [| discriminate].
  destruct (compute_dep_score _ _) as [q | err]; simpl; [| discriminate].
  destruct (strategy_function _ _) as [f | err]; simpl; [| discriminate].
  intros [= <-]. exists f. simpl. destruct task; repeat split; reflexivity.
Qed.

(** ** Unknown strategies *)

(** C7. For every tasks payload, well-formed or not, and every strategy
    name that is not one of the four recognised names, [score_tasks]
    raises the [ValueError] of the unknown strategy: the name is checked
    before anything is parsed or scored, and nothing is returned. *)
Theorem unknown_strategy_raises (clock : Z) (payload : list raw_task)
    (strategy : string) :
  ~ In strategy STRATEGY_CHOICES ->
  score_tasks depth clock payload strategy
  = Raise (ValueError ("Unknown strategy '" ++ strategy ++ "'.")).
Proof.
  intros Hunknown. unfold score_tasks.
  destruct (known_strategy strategy) eqn:Hknown; [| reflexivity].
  apply known_strategy_In in Hknown. contradiction.
Qed.

(** ** Urgency *)

(** C4. [compute_urgency] returns urgency 0.1 and no [days_left] when
    there is no due date; urgency 1 when [days_left], the due date minus
    the evaluation date, is negative; and otherwise
    [max(0, 1 - min(days_left, 30)/30)], which is [1 - days_left/30] up to
    30 days (1 at 0 days, 0 at 30 days) and 0 from 30 days on.  The
    evaluation date is [today] when given, and the date of the clock
    otherwise. *)
Theorem compute_urgency_cases (clock : Z) (today : option Z) :
  let now := match today with Some t => t | None => clock end in
  compute_urgency clock None today = Ok ((1 # 10)%Q, None)
  /\ (forall d, d - now < 0 ->
        compute_urgency clock (Some (Date d)) today = Ok (1%Q, Some (d - now)))
  /\ (forall d, 0 <= d - now ->
        exists u,
          compute_urgency clock (Some (Date d)) today = Ok (u, Some (d - now))
          /\ (u == Qmax 0 (1 - inject_Z (Z.min (d - now) 30) / 30))%Q
          /\ (d - now <= 30 -> (u == 1 - inject_Z (d - now) / 30)%Q)
          /\ (d - now = 0 -> (u == 1)%Q)
          /\ (30 <= d - now -> (u == 0)%Q)).
Proof.
  intros now. unfold compute_urgency. fold now. split; [reflexivity |]. split.
  - intros d Hd. destruct (Z.ltb_spec (d - now) 0); [reflexivity | lia].
  - intros d Hd. destruct (Z.ltb_spec (d - now) 0); [lia |].
    eexists. split; [reflexivity |].
    unfold MAX_URGENCY_DAYS.
    set (m := Z.min (d - now) 30).
    assert (0 <= m <= 30) as [Hm0 Hm30] by lia.
    rewrite Zle_Qle in Hm0, Hm30.
    change (inject_Z 0) with 0%Q in Hm0. change (inject_Z 30) with 30%Q in *.
    assert (0 <= 1 - inject_Z m / 30)%Q as Hpos.
    { assert (inject_Z m / 30 == inject_Z m * (1 # 30))%Q as -> by field. lra. }
    assert (py_max 0 (1 - inject_Z m / 30) == 1 - inject_Z m / 30)%Q as Hmax.
    { unfold py_max. destruct (Qlt_le_dec 0 (1 - inject_Z m / 30)); [reflexivity | lra]. }
    rewrite Hmax. split; [| split; [| split]].
    + symmetry. apply Q.max_r. exact Hpos.
    + intros Hle. subst m. rewrite Z.min_l by lia. reflexivity.
    + intros H0. subst m. rewrite H0. reflexivity.
    + intros H30. subst m. rewrite Z.min_r by lia. reflexivity.
Qed.

(** ** The dependency score *)

Lemma compute_max_dep_spec (tasks : list TaskData) :
  exists max_dep,
    compute_max_dep (snd (build_dependency_graph tasks)) = Ok max_dep
    /\ 0 <= max_dep
    /\ (forall k, dict_get_default (snd (build_dependency_graph tasks)) k 0 <= max_dep)
    /\ (snd (build_dependency_graph tasks) <> [] ->
        In max_dep (dict_values (snd (build_dependency_graph tasks)))).
Proof.
  pose proof (dependent_counts_nonneg tasks) as Hnonneg.
  destruct (snd (build_dependency_graph tasks)) as [| [k0 v0] d] eqn:Hd.
  - exists 1. repeat split; [lia | intros k; cbn; lia | congruence].
  - unfold compute_max_dep.
    destruct (py_max_list (dict_values ((k0, v0) :: d))) as [m | e] eqn:Hm;
      [| discriminate Hm].
    destruct (py_max_list_spec _ _ Hm) as [Hall Hin].
    exists m.
    assert (0 <= m) as Hm0.
    { rewrite Forall_forall in Hnonneg. apply Hnonneg, list_elem_of_In, Hin. }
    repeat split; [exact Hm0 | | intros _; exact Hin].
    intros k. apply (dict_get_default_values (fun v => v <= m)); [exact Hall | exact Hm0].
Qed.

Lemma compute_dep_score_spec (n max_dep : Z) :
  0 <= n <= max_dep ->
  exists q,
    compute_dep_score n max_dep = Ok q
    /\ (max_dep = 0 -> q = 0%Q)
    /\ (max_dep <> 0 -> q = (inject_Z n / inject_Z max_dep)%Q)
    /\ (0 <= q <= 1)%Q.
Proof.
  intros [Hn Hmax]. unfold compute_dep_score.
  destruct (Z.eqb_spec max_dep 0) as [Hz | Hnz].
  - exists 0%Q. repeat split; [congruence | lra | lra].
  - unfold py_div.
    assert (0 < inject_Z max_dep)%Q as Hpos.
    { change 0%Q with (inject_Z 0). rewrite <- Zlt_Qlt. lia. }
    destruct (Qeq_bool (inject_Z max_dep) 0) eqn:Heq.
    + apply Qeq_bool_iff in Heq. lra.
    + eexists. repeat split; [congruence | |].
      * apply Qle_shift_div_l; [exact Hpos |].
        rewrite Qmult_0_l. change 0%Q with (inject_Z 0). rewrite <- Zle_Qle. exact Hn.
      * apply Qle_shift_div_r; [exact Hpos |].
        rewrite Qmult_1_l. rewrite <- Zle_Qle. exact Hmax.
Qed.

(** ** The summary *)

Lemma build_summary_spec (tasks : list Scored.t) (strategy : string) :
  build_summary tasks strategy
  = Ok (Summary.mk strategy (Z.of_nat (length tasks))
          (match tasks with
           | [] => 0%Q
           | _ :: _ => py_round (arithmetic_mean (map Scored.score tasks)) 2
           end)
          (map Scored.title (take 3 tasks))).
Proof.
  unfold build_summary. destruct tasks as [| e tasks]; [reflexivity |].
  unfold py_div.
  destruct (Qeq_bool (inject_Z (Z.of_nat (length (e :: tasks)))) 0) eqn:Hlen.
  - apply Qeq_bool_iff in Hlen. change 0%Q with (inject_Z 0) in Hlen.
    apply (proj1 (inject_Z_injective _ _)) in Hlen. cbn [length] in Hlen. lia.
  - cbn [mbind result_bind]. do 2 f_equal. apply py_round_Qeq.
    unfold arithmetic_mean. rewrite py_sum_fold_right, length_map. reflexivity.
Qed.




(** ** Ranking *)

Lemma parse_tasks_length (payload : list raw_task) (parsed : list TaskData) :
  parse_tasks payload = Ok parsed -> length parsed = length payload.
Proof.
  intros H. apply for_each_Ok, Forall2_length_eq in H.
  rewrite enumerate_length in H. congruence.
Qed.

Lemma scored_records (strategy : string) (today : Z) (dependents : list (Z * Z))
    (cycles : gset Z) (max_dep : Z) (parsed : list TaskData) (scored : list Scored.t) :
  for_each (score_task strategy today dependents cycles max_dep) parsed = Ok scored ->
  map record_of scored = parsed.
Proof.
  intros H. apply for_each_Ok in H.
  induction H as [| task e parsed scored He _ IH]; [reflexivity |].
  cbn [map]. apply score_task_Ok in He as (f & _ & Hrec & _). congruence.
Qed.


(** ** The cycle penalty *)



(** ** Parsing *)

Lemma parse_task_without_title (idx : Z) (raw : raw_task) :
  raw_title raw = None ->
  (exists e, parse_task idx raw = Raise e)
  /\ (forall due, _coerce_date (py_get (raw_due_date raw)) = Ok due ->
                  parse_task idx raw = Raise (KeyError "title")).
Proof.
  intros Htitle. unfold parse_task. rewrite Htitle.
  destruct (_coerce_date (py_get (raw_due_date raw))) as [due | e]; cbn.
  - split; [eexists; reflexivity | reflexivity].
  - split; [eexists; reflexivity | discriminate].
Qed.

(** C6. For every batch with at least one entry without a title, parsing
    raises and yields no list of records, and [score_tasks] raises as
    well, whatever the strategy.  The exception is the [KeyError] of
    ["title"] when the entries before the first one without a title
    parse and the due date of that entry is accepted; an earlier failure
    raises its own exception instead. *)
Theorem missing_title_aborts_batch (payload : list raw_task) :
  (exists raw, In raw payload /\ raw_title raw = None) ->
  (exists e, parse_tasks payload = Raise e)
  /\ (forall clock strategy, exists e, score_tasks depth clock payload strategy = Raise e)
  /\ (forall pre raw post parsed due,
        payload = pre ++ raw :: post ->
        raw_title raw = None ->
        parse_tasks pre = Ok parsed ->
        _coerce_date (py_get (raw_due_date raw)) = Ok due ->
        parse_tasks payload = Raise (KeyError "title")).
Proof.
  intros (raw & Hin & Htitle).
  assert (exists e, parse_tasks payload = Raise e) as [e He].
  { destruct (enumerate_In 1 payload raw Hin) as [idx Hidx].
    unfold parse_tasks.
    apply (for_each_In_Raise _ _ (idx, raw) Hidx).
    apply (proj1 (parse_task_without_title idx raw Htitle)). }
  split; [exists e; exact He |]. split.
  - intros clock strategy. unfold score_tasks.
    destruct (known_strategy strategy); cbn; [| eexists; reflexivity].
    rewrite He. cbn. eexists; reflexivity.
  - intros pre raw' post parsed due -> Htitle' Hpre Hdue.
    unfold parse_tasks in *. rewrite enumerate_app. cbn [enumerate].
    apply (for_each_Raise _ _ _ _ _ parsed Hpre).
    apply (proj2 (parse_task_without_title _ raw' Htitle') due Hdue).
Qed.

(** ** What the scoring loop returns and raises *)

Lemma float_of_int_cases (n : Z) :
  (in_float_range n /\ float_of_int n = Ok (inject_Z n))
  \/ (~ in_float_range n /\ float_of_int n = Raise OverflowError).
Proof.
  unfold float_of_int, in_float_range.
  destruct (Z.ltb_spec (Z.abs n) FLOAT_OVERFLOW); [left | right]; split; auto; lia.
Qed.

Lemma compute_importance_cases (value : Z) :
  (in_float_range value
   /\ compute_importance value = Ok (py_min (py_max (inject_Z value / 10) 0) 1))
  \/ (~ in_float_range value /\ compute_importance value = Raise OverflowError).
Proof.
  unfold compute_importance.
  destruct (float_of_int_cases value) as [[H ->] | [H ->]]; [left | right];
    split; auto.
Qed.

Lemma compute_dep_score_total (n max_dep : Z) :
  exists q, compute_dep_score n max_dep = Ok q.
Proof.
  unfold compute_dep_score, py_div.
  destruct (Z.eqb_spec max_dep 0) as [Hz | Hnz]; [eexists; reflexivity |].
  destruct (Qeq_bool (inject_Z max_dep) 0) eqn:Heq; [| eexists; reflexivity].
  apply Qeq_bool_iff in Heq. change 0%Q with (inject_Z 0) in Heq.
  apply (proj1 (inject_Z_injective _ _)) in Heq. contradiction.
Qed.

(** The components of a scored entry. *)
Lemma score_task_components (strategy : string) (today : Z)
    (dependents : list (Z * Z)) (cycles : gset Z) (max_dep : Z) (task : TaskData)
    (e : Scored.t) :
  score_task strategy today dependents cycles max_dep task = Ok e ->
  exists u left i q,
    compute_urgency today (due_date task) (Some today) = Ok (u, left)
    /\ compute_importance (importance task) = Ok i
    /\ compute_dep_score (dict_get_default dependents (id task) 0) max_dep = Ok q
    /\ Scored.components e
       = {| urgency := py_round u 4;
            importance_norm := py_round i 4;
            quick_win := py_round (compute_quick_win (estimated_hours task)) 4;
            dep_score := py_round q 4;
            num_dependents := dict_get_default dependents (id task) 0;
            days_left := left |}.
Proof.
  unfold score_task.
  destruct (compute_urgency _ _ _) as [[u left] | err]; cbn; [| discriminate].
  destruct (compute_importance _) as [i | err]; cbn; [| discriminate].
  destruct (compute_dep_score _ _) as [q | err]; cbn; [| discriminate].
  destruct (strategy_function _ _) as [f | err]; cbn; [| discriminate].
  intros [= <-]. exists u, left, i, q. repeat split.
Qed.

(** The scoring of one record: a [datetime] as due date raises
    [TypeError] in the urgency, an importance beyond the range of
    [float] raises [OverflowError], and every other record is scored. *)
Lemma score_task_outcome (strategy : string) (today : Z) (dependents : list (Z * Z))
    (cycles : gset Z) (max_dep : Z) (task : TaskData) :
  known_strategy strategy = true ->
  (~ plain_due task
   /\ score_task strategy today dependents cycles max_dep task = Raise TypeError)
  \/ (plain_due task /\ ~ in_float_range (importance task)
      /\ score_task strategy today dependents cycles max_dep task = Raise OverflowError)
  \/ (scorable task
      /\ exists e, score_task strategy today dependents cycles max_dep task = Ok e).
Proof.
  intros Hknown. unfold score_task, scorable, plain_due.
  destruct (due_date task) as [[d | d t] |] eqn:Hdue.
  - right. unfold compute_urgency.
    destruct (d - today <? 0); cbn [mbind result_bind];
      (destruct (compute_importance_cases (importance task)) as [[Hr ->] | [Hr ->]];
       cbn [mbind result_bind]; [right | left; auto]);
      destruct (compute_dep_score_total (dict_get_default dependents (id task) 0) max_dep)
        as [q ->];
      destruct (known_strategy_function _ Hknown) as [f ->];
      cbn [mbind result_bind]; (split; [auto | eexists; reflexivity]).
  - left. split; [auto | reflexivity].
  - right. unfold compute_urgency. cbn [mbind result_bind].
    destruct (compute_importance_cases (importance task)) as [[Hr ->] | [Hr ->]];
      cbn [mbind result_bind]; [right | left; auto].
    destruct (compute_dep_score_total (dict_get_default dependents (id task) 0) max_dep)
      as [q ->].
    destruct (known_strategy_function _ Hknown) as [f ->].
    cbn [mbind result_bind]. split; [auto | eexists; reflexivity].
Qed.

Lemma score_task_Ok_scorable (strategy : string) (today : Z) (dependents : list (Z * Z))
    (cycles : gset Z) (max_dep : Z) (task : TaskData) (e : Scored.t) :
  known_strategy strategy = true ->
  score_task strategy today dependents cycles max_dep task = Ok e -> scorable task.
Proof.
  intros Hknown He.
  destruct (score_task_outcome strategy today dependents cycles max_dep task Hknown)
    as [[_ H] | [(_ & _ & H) | [H _]]]; [congruence | congruence | exact H].
Qed.

(** What [days_left] holds for a scored record. *)
Lemma score_task_days_left (strategy : string) (today : Z) (dependents : list (Z * Z))
    (cycles : gset Z) (max_dep : Z) (task : TaskData) (e : Scored.t) :
  score_task strategy today dependents cycles max_dep task = Ok e ->
  match due_date task with
  | Some (Date d) => days_left (Scored.components e) = Some (d - today)
  | Some (DateTime _ _) => False
  | None => days_left (Scored.components e) = None
  end.
Proof.
  intros He. apply score_task_components in He as (u & left & i & q & Hu & _ & _ & ->).
  cbn [days_left]. unfold compute_urgency in Hu.
  destruct (due_date task) as [[d | d t] |]; [| discriminate | congruence].
  destruct (d - today <? 0); congruence.
Qed.

(** The day of the call changes neither whether a record is scored nor
    what its scoring raises, and nothing at all for a record without a
    due date. *)
Lemma score_task_other_day (strategy : string) (day1 day2 : Z)
    (dependents : list (Z * Z)) (cycles : gset Z) (max_dep : Z) (task : TaskData) :
  (forall e, score_task strategy day1 dependents cycles max_dep task = Raise e ->
             score_task strategy day2 dependents cycles max_dep task = Raise e)
  /\ (forall e1, score_task strategy day1 dependents cycles max_dep task = Ok e1 ->
                 exists e2, score_task strategy day2 dependents cycles max_dep task = Ok e2)
  /\ (due_date task = None ->
      score_task strategy day1 dependents cycles max_dep task
      = score_task strategy day2 dependents cycles max_dep task).
Proof.
  unfold score_task, compute_urgency.
  destruct (due_date task) as [[d | d t] |]; cbn [mbind result_bind].
  - destruct (d - day1 <? 0), (d - day2 <? 0); cbn [mbind result_bind];
      (destruct (compute_importance _); cbn [mbind result_bind];
       [destruct (compute_dep_score _ _); cbn [mbind result_bind];
        [destruct (strategy_function _ _); cbn [mbind result_bind] | ] | ]);
      (split; [intros e0 H; first [discriminate H | exact H] |]);
      (split; [intros e1 H; first [discriminate H | eexists; reflexivity] |
               discriminate]).
  - split; [auto |]. split; [discriminate | discriminate].
  - split; [auto |]. split; [eauto | reflexivity].
Qed.

(** ** When [score_tasks] returns *)

Lemma for_each_score_task (strategy : string) (today : Z) (dependents : list (Z * Z))
    (cycles : gset Z) (max_dep : Z) (parsed : list TaskData) :
  known_strategy strategy = true ->
  (Forall scorable parsed
   /\ exists scored,
        for_each (score_task strategy today dependents cycles max_dep) parsed = Ok scored)
  \/ exists pre task post,
       parsed = pre ++ task :: post /\ Forall scorable pre
       /\ ((~ plain_due task
            /\ for_each (score_task strategy today dependents cycles max_dep) parsed
               = Raise TypeError)
           \/ (plain_due task /\ ~ in_float_range (importance task)
               /\ for_each (score_task strategy today dependents cycles max_dep) parsed
                  = Raise OverflowError)).
Proof.
  intros Hknown.
  destruct (for_each (score_task strategy today dependents cycles max_dep) parsed)
    as [scored | e] eqn:Hscored.
  - left. split; [| eauto]. apply for_each_Ok in Hscored. clear - Hknown Hscored.
    induction Hscored as [| task e parsed scored He _ IH]; constructor; [| exact IH].
    eapply score_task_Ok_scorable; eassumption.
  - right. apply for_each_first_Raise in Hscored
      as (pre & task & post & done & -> & Hpre & Htask).
    exists pre, task, post. split; [reflexivity |]. split.
    + apply for_each_Ok in Hpre. clear - Hknown Hpre.
      induction Hpre as [| t e pre done He _ IH]; constructor; [| exact IH].
      eapply score_task_Ok_scorable; eassumption.
    + destruct (score_task_outcome strategy today dependents cycles max_dep task Hknown)
        as [[Hnot H] | [(Hplain & Hnot & H) | [_ [e' H]]]].
      * left. split; [exact Hnot | congruence].
      * right. split; [exact Hplain |]. split; [exact Hnot | congruence].
      * congruence.
Qed.

(** [score_tasks] returns exactly when the strategy is one of the four
    names, the payload parses into records that can be scored, and the
    traversal of the graph stays within the depth allowed. *)
Lemma score_tasks_returns_iff (clock : Z) (payload : list raw_task) (strategy : string) :
  (exists r, score_tasks depth clock payload strategy = Ok r)
  <-> In strategy STRATEGY_CHOICES
      /\ exists parsed,
           parse_tasks payload = Ok parsed
           /\ Forall scorable parsed
           /\ exists cycles,
                find_cycles depth (fst (build_dependency_graph parsed)) = Ok cycles.
Proof.
  split.
  - intros [r Hr].
    destruct (score_tasks_Ok _ _ _ _ Hr)
      as (Hknown & parsed & graph & dependents & cycles & max_dep & scored
          & Hparsed & Hgraph & Hcycles & _ & Hscored & _).
    split; [apply known_strategy_In, Hknown |].
    exists parsed. split; [exact Hparsed |]. split.
    + apply for_each_Ok in Hscored. clear - Hknown Hscored.
      induction Hscored as [| task e parsed scored He _ IH]; constructor; [| exact IH].
      eapply score_task_Ok_scorable; eassumption.
    + exists cycles. rewrite Hgraph. exact Hcycles.
  - intros (Hknown & parsed & Hparsed & Hall & cycles & Hcycles).
    apply known_strategy_In in Hknown.
    unfold score_tasks. rewrite Hknown, Hparsed. cbn [negb mbind result_bind].
    destruct (build_dependency_graph parsed) as [graph dependents] eqn:Hbuild.
    cbn [fst] in Hcycles. rewrite Hcycles. cbn [mbind result_bind].
    destruct (compute_max_dep_spec parsed) as (max_dep & Hmax & _).
    rewrite Hbuild in Hmax. cbn [snd] in Hmax. rewrite Hmax. cbn [mbind result_bind].
    destruct (for_each_total (score_task strategy clock dependents cycles max_dep) parsed)
      as [scored Hscored].
    { eapply Forall_impl; [exact Hall |]. intros task Htask.
      destruct (score_task_outcome strategy clock dependents cycles max_dep task Hknown)
        as [[Hnot _] | [(_ & Hnot & _) | [_ H]]];
        [destruct Htask; contradiction | destruct Htask; contradiction | exact H]. }
    rewrite Hscored. cbn [mbind result_bind]. rewrite build_summary_spec.
    cbn [mbind result_bind]. eexists. reflexivity.
Qed.

(** The tasks of an analysis are the parsed records, each once, with the
    fields of the record unchanged. *)
Lemma scored_tasks_records (clock : Z) (payload : list raw_task) (strategy : string)
    (r : Analysis.t) (parsed : list TaskData) :
  score_tasks depth clock payload strategy = Ok r ->
  parse_tasks payload = Ok parsed ->
  Permutation (map record_of (Analysis.tasks r)) parsed
  /\ length (Analysis.tasks r) = length payload.
Proof.
  intros Hr Hparsed.
  destruct (score_tasks_Ok _ _ _ _ Hr)
    as (_ & parsed' & graph & dependents & cycles & max_dep & scored
        & Hparsed' & _ & _ & _ & Hscored & Htasks & _ & _).
  assert (parsed' = parsed) as -> by congruence.
  pose proof (scored_records _ _ _ _ _ _ _ Hscored) as Hrec.
  rewrite Htasks. split.
  - rewrite assign_ranks_record, <- Hrec.
    apply Permutation_map, sort_desc_perm.
  - rewrite assign_ranks_length, (Permutation_length (sort_desc_perm _ scored)).
    rewrite <- (parse_tasks_length _ _ Hparsed), <- Hrec, length_map. reflexivity.
Qed.

(** Where a scored entry comes from. *)
Lemma scored_entry_origin (clock : Z) (payload : list raw_task) (strategy : string)
    (r : Analysis.t) (e : Scored.t) :
  score_tasks depth clock payload strategy = Ok r ->
  In e (Analysis.tasks r) ->
  exists parsed graph dependents cycles max_dep task e0 k,
    parse_tasks payload = Ok parsed
    /\ build_dependency_graph parsed = (graph, dependents)
    /\ find_cycles depth graph = Ok cycles
    /\ compute_max_dep dependents = Ok max_dep
    /\ In task parsed
    /\ score_task strategy clock dependents cycles max_dep task = Ok e0
    /\ e = Scored.set_rank k e0.
Proof.
  intros Hr He.
  destruct (score_tasks_Ok _ _ _ _ Hr)
    as (_ & parsed & graph & dependents & cycles & max_dep & scored
        & Hparsed & Hgraph & Hcycles & Hmax & Hscored & Htasks & _ & _).
  rewrite Htasks in He.
  apply assign_ranks_In in He as (e0 & k & He0 & ->).
  apply (Permutation_in _ (sort_desc_perm Scored.score scored)) in He0.
  apply for_each_Ok in Hscored.
  destruct (Forall2_In_r _ _ _ _ Hscored He0) as (task & Htask & Hscore).
  exists parsed, graph, dependents, cycles, max_dep, task, e0, k. auto 10.
Qed.

(** ** The clock *)

Lemma scored_days_left (clock : Z) (payload : list raw_task) (strategy : string)
    (r : Analysis.t) (e : Scored.t) :
  score_tasks depth clock payload strategy = Ok r ->
  In e (Analysis.tasks r) ->
  match Scored.due_date e with
  | Some (Date d) => days_left (Scored.components e) = Some (d - clock)
  | Some (DateTime _ _) => False
  | None => days_left (Scored.components e) = None
  end.
Proof.
  intros Hr He.
  destruct (scored_entry_origin _ _ _ _ _ Hr He)
    as (parsed & graph & dependents & cycles & max_dep & task & e0 & k
        & _ & _ & _ & _ & _ & Hscore & ->).
  pose proof (score_task_days_left _ _ _ _ _ _ _ Hscore) as Hdays.
  apply score_task_Ok in Hscore as (_ & _ & Hrec & _).
  cbn. rewrite <- Hrec in Hdays. exact Hdays.
Qed.

Lemma due_dates_none_or_some (l : list Scored.t) :
  Forall (fun e => Scored.due_date e = None) l
  \/ exists e due, In e l /\ Scored.due_date e = Some due.
Proof.
  induction l as [| e l [IH | (e' & due & Hin & Hdue)]].
  - left. constructor.
  - destruct (Scored.due_date e) as [due |] eqn:Hdue.
    + right. exists e, due. split; [left; reflexivity | exact Hdue].
    + left. constructor; assumption.
  - right. exists e', due. split; [right; exact Hin | exact Hdue].
Qed.

(** C2, as the code has it.  [score_tasks] takes the payload and the
    strategy name and no evaluation date: the date is the one of the
    clock at the call.  The date decides neither whether a call returns
    nor what it raises.  When a call returns a result, a call with the
    same payload and strategy on another date returns the same result
    exactly when no task of the batch has a due date; whenever a task has
    one, the results of different dates differ. *)
Theorem score_tasks_reads_only_the_date (clock1 clock2 : Z)
    (payload : list raw_task) (strategy : string) :
  (forall e, score_tasks depth clock1 payload strategy = Raise e ->
             score_tasks depth clock2 payload strategy = Raise e)
  /\ (forall r, score_tasks depth clock1 payload strategy = Ok r ->
        (exists r', score_tasks depth clock2 payload strategy = Ok r')
        /\ (score_tasks depth clock2 payload strategy = Ok r
            <-> clock1 = clock2
                \/ Forall (fun e => Scored.due_date e = None) (Analysis.tasks r))).
Proof.
  split.
  - intros e. unfold score_tasks.
    destruct (known_strategy strategy); cbn [negb]; [| auto].
    destruct (parse_tasks payload) as [parsed | e'] eqn:Hparsed;
      cbn [mbind result_bind]; [| auto].
    destruct (build_dependency_graph parsed) as [graph dependents].
    destruct (find_cycles depth graph) as [cycles | e']; cbn [mbind result_bind];
      [| auto].
    destruct (compute_max_dep dependents) as [max_dep | e']; cbn [mbind result_bind];
      [| auto].
    destruct (for_each (score_task strategy clock1 dependents cycles max_dep) parsed)
      as [scored | e'] eqn:Hscored; cbn [mbind result_bind].
    + rewrite build_summary_spec. cbn [mbind result_bind]. discriminate.
    + intros [= ->].
      rewrite (for_each_Raise_ext (score_task strategy clock1 dependents cycles max_dep)
                 (score_task strategy clock2 dependents cycles max_dep) parsed e);
        [reflexivity | | exact Hscored].
      intros task _.
      destruct (score_task_other_day strategy clock1 clock2 dependents cycles max_dep task)
        as (Hraise & Hok & _).
      split; assumption.
  - intros r Hr. split.
    { apply (score_tasks_returns_iff clock2).
      apply (score_tasks_returns_iff clock1). exists r. exact Hr. }
    split.
    + intros Hr2.
      destruct (due_dates_none_or_some (Analysis.tasks r))
        as [Hall | (e & due & He & Hdue)]; [right; exact Hall | left].
      pose proof (scored_days_left _ _ _ _ _ Hr He) as H1.
      pose proof (scored_days_left _ _ _ _ _ Hr2 He) as H2.
      rewrite Hdue in H1, H2. destruct due as [d | d t]; [| contradiction].
      rewrite H1 in H2. injection H2 as H2. lia.
    + intros [-> | Hall]; [exact Hr |]. rewrite <- Hr.
      destruct (score_tasks_Ok _ _ _ _ Hr)
        as (_ & parsed & graph & dependents & cycles & max_dep & scored
            & Hparsed & Hgraph & Hcycles & Hmax & _).
      destruct (scored_tasks_records _ _ _ _ _ Hr Hparsed) as [Hperm _].
      unfold score_tasks. destruct (known_strategy strategy); cbn [negb]; [| reflexivity].
      rewrite Hparsed. cbn [mbind result_bind]. rewrite Hgraph, Hcycles.
      cbn [mbind result_bind]. rewrite Hmax. cbn [mbind result_bind].
      rewrite (for_each_ext_In
                 (score_task strategy clock2 dependents cycles max_dep)
                 (score_task strategy clock1 dependents cycles max_dep)); [reflexivity |].
      intros task Hin.
      destruct (score_task_other_day strategy clock2 clock1 dependents cycles max_dep task)
        as (_ & _ & Hsame).
      apply Hsame.
      apply (Permutation_in _ (Permutation_sym Hperm)) in Hin.
      apply in_map_iff in Hin as (e & <- & He).
      rewrite Forall_forall in Hall. apply (Hall e). apply list_elem_of_In, He.
Qed.


(** C10, where the code breaks it.  A payload whose one task has a
    [datetime] as due date is parsed, the record keeping the [datetime]
    as it is, and [score_tasks] then raises a [TypeError] from the
    subtraction of dates, under every strategy: the parsed task gets no
    scored entry.  (The traversal of the graph of one node needs one call
    of [dfs]; the depth allowed is one call or more.) *)
Theorem datetime_due_date_is_parsed_but_not_scored (clock : Z) :
  parse_tasks due_at_noon
  = Ok [{| id := 1; title := "meeting"; due_date := Some (DateTime 110 43200);
           estimated_hours := inject_Z 4; importance := 5; dependencies := [] |}]
  /\ Forall (fun strategy =>
               score_tasks (S depth) clock due_at_noon strategy = Raise TypeError)
       STRATEGY_CHOICES.
Proof.
  split; [reflexivity |].
  repeat constructor; vm_compute; reflexivity.
Qed.

End EngineProperties.

(** ** What [find_cycles] returns *)

(** The two graphs below come from batches that pass the validation of the
    service: ids are the positions, every dependency is the id of another
    task of the batch. *)
Lemma chain_into_loop_parsed :
  example_parse_tasks
    [raw_example (Some "t") None []; raw_example (Some "t") None [1; 3];
     raw_example (Some "t") None [2]]
  = Ok chain_into_loop.
Proof. reflexivity. Qed.

Lemma chord_loop_parsed :
  example_parse_tasks
    [raw_example (Some "t") None [2]; raw_example (Some "t") None [1; 3];
     raw_example (Some "t") None [1]]
  = Ok chord_loop.
Proof. reflexivity. Qed.

Lemma chain_into_loop_graph :
  fst (build_dependency_graph chain_into_loop) = [(1, [2]); (2, [3]); (3, [2])].
Proof. reflexivity. Qed.

Lemma chord_loop_graph :
  fst (build_dependency_graph chord_loop) = [(1, [2; 3]); (2, [1]); (3, [2])].
Proof. reflexivity. Qed.

(** C1, where the code breaks it.  On the graph [{1: [2], 2: [3], 3: [2]}]
    of a valid batch, [find_cycles] returns 1, 2 and 3, although no edge
    leads to node 1, which is therefore on no cycle; on the graph
    [{1: [2, 3], 2: [1], 3: [2]}] it returns 1 and 2 only, although node 3
    is on the cycle 3, 2, 1, 3.  This is so whenever the interpreter
    allows the three nested calls of [dfs] that the first graph needs, or
    more. *)
Theorem find_cycles_is_not_exact (spare : nat) :
  let g1 := fst (build_dependency_graph chain_into_loop) in
  let g2 := fst (build_dependency_graph chord_loop) in
  (find_cycles (3 + spare) g1 = Ok {[1; 2; 3]}
   /\ (1 ∈ ({[1; 2; 3]} : gset Z)) /\ ~ on_cycle g1 1)
  /\ (find_cycles (3 + spare) g2 = Ok {[1; 2]}
      /\ (3 ∉ ({[1; 2]} : gset Z)) /\ on_cycle g2 3).
Proof.
  cbv zeta. rewrite chain_into_loop_graph, chord_loop_graph. split; split.
  - apply (find_cycles_deeper _ 3); [lia | vm_compute; reflexivity].
  - split; [set_solver |].
    assert (forall z, ~ edge [(1, [2]); (2, [3]); (3, [2])] z 1) as Hno.
    { intros z. unfold edge, dict_get_default, dict_get.
      destruct (1 =? z); [simpl; intuition lia |].
      destruct (2 =? z); [simpl; intuition lia |].
      destruct (3 =? z); simpl; intuition lia. }
    intros Hcyc. apply clos_trans_tn1 in Hcyc.
    inversion Hcyc; subst; eapply Hno; eassumption.
  - apply (find_cycles_deeper _ 3); [lia | vm_compute; reflexivity].
  - split; [set_solver |].
    apply t_trans with 2; [apply t_step; unfold edge; simpl; auto |].
    apply t_trans with 1; apply t_step; unfold edge; simpl; auto.
Qed.

(** ** The properties on the examples *)

Lemma unknown_strategy_raises_witness :
  ~ In "bogus" STRATEGY_CHOICES
  /\ example_score_tasks 100 no_title_second "bogus"
     = Raise (ValueError "Unknown strategy 'bogus'.").
Proof.
  assert (~ In "bogus" STRATEGY_CHOICES) as H by (simpl; intuition congruence).
  split; [exact H |].
  exact (unknown_strategy_raises rejects_text rejects_text rejects_text prints_nothing
           prints_nothing example_depth 100 no_title_second "bogus" H).
Defined.

Lemma compute_urgency_cases_witness :
  compute_urgency 100 (Some (Date 99)) None = Ok (1%Q, Some (-1))
  /\ exists u,
       compute_urgency 100 (Some (Date 110)) None = Ok (u, Some 10)
       /\ (u == 1 - inject_Z 10 / 30)%Q.
Proof.
  destruct (compute_urgency_cases 100 None) as (_ & Hoverdue & Hdue).
  split.
  - apply (Hoverdue 99). lia.
  - destruct (Hdue 110) as (u & Hu & _ & Hlinear & _); [lia |].
    exists u. split; [exact Hu | apply Hlinear; lia].
Defined.




Lemma missing_title_aborts_batch_witness :
  (exists raw, In raw no_title_second /\ raw_title raw = None)
  /\ example_parse_tasks no_title_second = Raise (KeyError "title")
  /\ exists e, example_score_tasks 100 no_title_second "smart_balance" = Raise e.
Proof.
  assert (exists raw, In raw no_title_second /\ raw_title raw = None) as H.
  { exists (raw_example None None []). split; [right; left; reflexivity | reflexivity]. }
  split; [exact H |].
  destruct (missing_title_aborts_batch rejects_text rejects_text rejects_text
              prints_nothing prints_nothing example_depth no_title_second H)
    as (_ & Hscore & Htitle).
  split.
  - refine (Htitle [raw_example (Some "a") None []] (raw_example None None []) []
              _ None _ _ _ _); reflexivity.
  - apply Hscore.
Defined.

Lemma score_tasks_reads_only_the_date_witness :
  exists r,
    example_score_tasks 100 no_deadline "smart_balance" = Ok r
    /\ Forall (fun e => Scored.due_date e = None) (Analysis.tasks r)
    /\ example_score_tasks 200 no_deadline "smart_balance" = Ok r.
Proof.
  eexists. split; [vm_compute; reflexivity |].
  match goal with
  | |- context [Analysis.tasks ?r] =>
      assert (example_score_tasks 100 no_deadline "smart_balance" = Ok r) as Hr
        by (vm_compute; reflexivity)
  end.
  match goal with
  | |- ?none /\ _ =>
      assert none as Hnone by (repeat (constructor; [reflexivity |]); constructor)
  end.
  split; [exact Hnone |].
  apply (proj2 (proj2 (score_tasks_reads_only_the_date rejects_text rejects_text
                         rejects_text prints_nothing prints_nothing example_depth
                         100 200 no_deadline "smart_balance") _ Hr)).
  right. exact Hnone.
Defined.

(** ** Where the claims fail *)

(** C2: the same payload and strategy give different results on
    different days.  The task is due on day 110; on day 100 its urgency is
    1 - 10/30, on day 101 it is 1 - 9/30. *)
Lemma score_tasks_result_changes_with_date :
  example_score_tasks 100 due_on_110 "deadline_driven"
  <> example_score_tasks 101 due_on_110 "deadline_driven".
Proof.
  intros H.
  apply (f_equal (fun r => match r with
                           | Ok a => map (fun e => urgency (Scored.components e))
                                         (Analysis.tasks a)
                           | Raise _ => []
                           end)) in H.
  vm_compute in H. discriminate H.
Qed.

(** C6: a batch with a task without a title whose exception is not the
    one of a missing field.  The first task has [None] as hours, and
    [float(None)] raises a [TypeError] before the second task is looked
    at. *)
Lemma missing_title_other_exception :
  (exists raw, In raw bad_hours_then_no_title /\ raw_title raw = None)
  /\ example_parse_tasks bad_hours_then_no_title = Raise TypeError
  /\ forall key, example_parse_tasks bad_hours_then_no_title <> Raise (KeyError key).
Proof.
  split; [| split].
  - exists (raw_example None None []). split; [right; left; reflexivity | reflexivity].
  - reflexivity.
  - intros key H. discriminate H.
Qed.

(** * Further properties of the engine *)

(** ** The component scores *)

Ltac by_tenths :=
  unfold Qdiv;
  change (/ 8)%Q with (1 # 8)%Q; change (/ 10)%Q with (1 # 10)%Q;
  change (/ 30)%Q with (1 # 30)%Q.

Lemma clamped_tenth (value : Z) :
  (py_min (py_max (inject_Z value / 10) 0) 1
   == inject_Z (Z.max 0 (Z.min value 10)) / 10)%Q.
Proof.
  unfold py_min, py_max.
  destruct (Z.le_gt_cases value 0) as [Hneg | Hpos].
  - rewrite Z.max_l by lia.
    pose proof Hneg as Hq. rewrite Zle_Qle in Hq. change (inject_Z 0) with 0%Q in *.
    by_tenths.
    destruct (Qlt_le_dec (inject_Z value * (1 # 10)) 0);
      destruct (Qlt_le_dec 1 _); lra.
  - destruct (Z.le_gt_cases value 10) as [Hle | Hgt].
    + rewrite Z.min_l, Z.max_r by lia.
      assert (0 <= value) as H0 by lia.
      rewrite Zle_Qle in H0, Hle.
      change (inject_Z 0) with 0%Q in *. change (inject_Z 10) with 10%Q in *.
      by_tenths.
      destruct (Qlt_le_dec (inject_Z value * (1 # 10)) 0);
        destruct (Qlt_le_dec 1 _); lra.
    + rewrite Z.min_r, Z.max_r by lia.
      assert (10 <= value) as H10 by lia.
      rewrite Zle_Qle in H10. change (inject_Z 10) with 10%Q in *.
      by_tenths.
      destruct (Qlt_le_dec (inject_Z value * (1 # 10)) 0);
        destruct (Qlt_le_dec 1 _); lra.
Qed.

Lemma compute_importance_value (value : Z) (v : Q) :
  compute_importance value = Ok v ->
  (v == inject_Z (Z.max 0 (Z.min value 10)) / 10)%Q.
Proof.
  destruct (compute_importance_cases value) as [[_ ->] | [_ ->]]; [| discriminate].
  intros [= <-]. apply clamped_tenth.
Qed.

(** X1. [compute_importance] is the importance divided by 10 and clamped,
    for an importance that can be converted to a [float]: the result lies
    in [0,1], is [value / 10] for a value between 0 and 10, 0 for a value
    below and 1 for a value above, and it never decreases when the
    importance grows.  An importance of [2 ^ 1024 - 2 ^ 970] or more, or
    its opposite or less, raises [OverflowError]. *)
Theorem compute_importance_clamped (value : Z) :
  (in_float_range value ->
   exists v,
     compute_importance value = Ok v
     /\ unit_interval v
     /\ (0 <= value <= 10 -> (v == inject_Z value / 10)%Q)
     /\ (value <= 0 -> (v == 0)%Q)
     /\ (10 <= value -> (v == 1)%Q))
  /\ (~ in_float_range value -> compute_importance value = Raise OverflowError)
  /\ (forall greater v w,
        value <= greater ->
        compute_importance value = Ok v -> compute_importance greater = Ok w ->
        (v <= w)%Q).
Proof.
  assert (forall v, 0 <= inject_Z (Z.max 0 (Z.min v 10)) <= 10)%Q as Hrange.
  { intros v. assert (0 <= Z.max 0 (Z.min v 10) <= 10) as [H0 H1] by lia.
    rewrite Zle_Qle in H0, H1. split; assumption. }
  split; [| split].
  - intros Hin.
    destruct (compute_importance_cases value) as [[_ Hv] | [Hout _]]; [| contradiction].
    eexists. split; [exact Hv |].
    pose proof (compute_importance_value _ _ Hv) as Hval.
    split; [| split; [| split]].
    + unfold unit_interval. rewrite Hval.
      pose proof (Hrange value). by_tenths. lra.
    + intros H. rewrite Hval.
      replace (Z.max 0 (Z.min value 10)) with value by lia. reflexivity.
    + intros H. rewrite Hval.
      replace (Z.max 0 (Z.min value 10)) with 0 by lia. reflexivity.
    + intros H. rewrite Hval.
      replace (Z.max 0 (Z.min value 10)) with 10 by lia. reflexivity.
  - intros Hout.
    destruct (compute_importance_cases value) as [[Hin _] | [_ Hraise]];
      [contradiction | exact Hraise].
  - intros greater v w H Hv Hw.
    rewrite (compute_importance_value _ _ Hv), (compute_importance_value _ _ Hw).
    assert (Z.max 0 (Z.min value 10) <= Z.max 0 (Z.min greater 10)) as Hm by lia.
    rewrite Zle_Qle in Hm. by_tenths. lra.
Qed.

(** X2. For hours that are a finite number (the model has no other),
    [compute_quick_win] lies in [0,1]: it is 1 for no hours or fewer,
    [1 - hours / 8] up to eight hours and 0 from eight hours on, and it
    never increases when the hours grow. *)
Theorem compute_quick_win_clamped (hours : Q) :
  unit_interval (compute_quick_win hours)
  /\ ((hours <= 0)%Q -> (compute_quick_win hours == 1)%Q)
  /\ ((0 <= hours <= 8)%Q -> (compute_quick_win hours == 1 - hours / 8)%Q)
  /\ ((8 <= hours)%Q -> (compute_quick_win hours == 0)%Q)
  /\ (forall longer, (hours <= longer)%Q ->
        (compute_quick_win longer <= compute_quick_win hours)%Q).
Proof.
  unfold unit_interval, compute_quick_win, py_min, py_max.
  split; [| split; [| split; [| split]]].
  - destruct (Qlt_le_dec hours 0); destruct (Qlt_le_dec 8 _); by_tenths; lra.
  - intros H. destruct (Qlt_le_dec hours 0); destruct (Qlt_le_dec 8 _); by_tenths; lra.
  - intros H. destruct (Qlt_le_dec hours 0); destruct (Qlt_le_dec 8 _); by_tenths; lra.
  - intros H. destruct (Qlt_le_dec hours 0); destruct (Qlt_le_dec 8 _); by_tenths; lra.
  - intros longer H.
    destruct (Qlt_le_dec hours 0); destruct (Qlt_le_dec 8 _);
      destruct (Qlt_le_dec longer 0); destruct (Qlt_le_dec 8 _); by_tenths; lra.
Qed.

Lemma urgency_of_plain_date (clock : Z) (today : option Z) (d : Z) :
  let days := d - match today with Some t => t | None => clock end in
  exists u,
    compute_urgency clock (Some (Date d)) today = Ok (u, Some days)
    /\ (days < 0 -> u = 1%Q)
    /\ (0 <= days -> (u == 1 - inject_Z (Z.min days 30) / 30)%Q).
Proof.
  intros days. unfold compute_urgency. fold days.
  destruct (Z.ltb_spec days 0) as [Hneg | Hpos].
  - eexists. split; [reflexivity |]. split; [reflexivity | lia].
  - eexists. split; [reflexivity |]. split; [lia |]. intros _.
    unfold MAX_URGENCY_DAYS, py_max.
    assert (0 <= Z.min days 30 <= 30) as [H0 H30] by lia.
    rewrite Zle_Qle in H0, H30.
    change (inject_Z 0) with 0%Q in *. change (inject_Z 30) with 30%Q in *.
    destruct (Qlt_le_dec 0 _) as [Hlt | Hle]; [reflexivity |].
    revert Hle. by_tenths. intros Hle. lra.
Qed.

(** X3. For plain dates, [compute_urgency] returns an urgency in [0,1],
    and a later due date is never more urgent than an earlier one, whether
    the dates are past or to come. *)
Theorem later_deadline_is_never_more_urgent (clock : Z) (today : option Z)
    (earlier later : Z) :
  earlier <= later ->
  exists u1 u2 left1 left2,
    compute_urgency clock (Some (Date earlier)) today = Ok (u1, left1)
    /\ compute_urgency clock (Some (Date later)) today = Ok (u2, left2)
    /\ (0 <= u2)%Q /\ (u2 <= u1)%Q /\ (u1 <= 1)%Q.
Proof.
  intros Hle.
  destruct (urgency_of_plain_date clock today earlier) as (u1 & H1 & Hover1 & Hdue1).
  destruct (urgency_of_plain_date clock today later) as (u2 & H2 & Hover2 & Hdue2).
  cbv zeta in *.
  set (now := match today with Some t => t | None => clock end) in *.
  exists u1, u2, (Some (earlier - now)), (Some (later - now)).
  split; [exact H1 |]. split; [exact H2 |].
  assert (forall days : Z, 0 <= days ->
            (0 <= 1 - inject_Z (Z.min days 30) / 30 <= 1)%Q) as Hunit.
  { intros days Hd. assert (0 <= Z.min days 30 <= 30) as [H0 H30] by lia.
    rewrite Zle_Qle in H0, H30.
    change (inject_Z 0) with 0%Q in *. change (inject_Z 30) with 30%Q in *.
    by_tenths. lra. }
  destruct (Z.lt_ge_cases (earlier - now) 0) as [Hneg1 | Hpos1].
  - rewrite (Hover1 Hneg1).
    destruct (Z.lt_ge_cases (later - now) 0) as [Hneg2 | Hpos2].
    + rewrite (Hover2 Hneg2). repeat split; lra.
    + rewrite (Hdue2 Hpos2). pose proof (Hunit _ Hpos2). repeat split; lra.
  - assert (0 <= later - now) as Hpos2 by lia.
    rewrite (Hdue1 Hpos1), (Hdue2 Hpos2).
    pose proof (Hunit _ Hpos1). pose proof (Hunit _ Hpos2).
    assert (Z.min (earlier - now) 30 <= Z.min (later - now) 30) as Hm by lia.
    rewrite Zle_Qle in Hm. repeat split; try lra.
    revert Hm. by_tenths. intros Hm. lra.
Qed.

(** ** The range of the scores *)

Lemma py_round_between (a b : Z) (x : Q) (n : nat) :
  (inject_Z a <= x <= inject_Z b)%Q ->
  (inject_Z a <= py_round x n <= inject_Z b)%Q.
Proof.
  intros [Ha Hb]. unfold py_round.
  set (s := 10 ^ Z.of_nat n).
  assert (0 < s) as Hs by (apply Z.pow_pos_nonneg; lia).
  assert (0 < inject_Z s)%Q as Hsq.
  { change 0%Q with (inject_Z 0). rewrite <- Zlt_Qlt. exact Hs. }
  assert (a * s <= round_half_even (x * inject_Z s)) as Hlo.
  { apply round_half_even_lower. rewrite inject_Z_mult. nra. }
  assert (round_half_even (x * inject_Z s) <= b * s) as Hhi.
  { apply round_half_even_upper. rewrite inject_Z_mult. nra. }
  rewrite Zle_Qle, inject_Z_mult in Hlo, Hhi.
  split.
  - apply Qle_shift_div_l; [exact Hsq | exact Hlo].
  - apply Qle_shift_div_r; [exact Hsq | exact Hhi].
Qed.

Lemma round_half_even_monotone (x y : Q) :
  (x <= y)%Q -> round_half_even x <= round_half_even y.
Proof.
  intros Hxy.
  assert (Qfloor x <= Qfloor y) as Hf by (apply Qfloor_resp_le, Hxy).
  destruct (Z.eq_dec (Qfloor x) (Qfloor y)) as [Heq | Hne].
  - unfold round_half_even. rewrite Heq.
    destruct (Qcompare_spec (x - inject_Z (Qfloor y)) (1 # 2));
      destruct (Qcompare_spec (y - inject_Z (Qfloor y)) (1 # 2));
      try destruct (Z.even (Qfloor y)); try lia; lra.
  - assert (round_half_even x <= Qfloor x + 1) as Hx.
    { unfold round_half_even.
      destruct (x - inject_Z (Qfloor x) ?= 1 # 2)%Q; try destruct (Z.even _); lia. }
    assert (Qfloor y <= round_half_even y) as Hy.
    { unfold round_half_even.
      destruct (y - inject_Z (Qfloor y) ?= 1 # 2)%Q; try destruct (Z.even _); lia. }
    lia.
Qed.

Lemma py_round_monotone (x y : Q) (n : nat) :
  (x <= y)%Q -> (py_round x n <= py_round y n)%Q.
Proof.
  intros Hxy. unfold py_round.
  set (s := 10 ^ Z.of_nat n).
  assert (0 < s) as Hs by (apply Z.pow_pos_nonneg; lia).
  assert (0 < inject_Z s)%Q as Hsq.
  { change 0%Q with (inject_Z 0). rewrite <- Zlt_Qlt. exact Hs. }
  assert (round_half_even (x * inject_Z s) <= round_half_even (y * inject_Z s)) as H.
  { apply round_half_even_monotone. nra. }
  rewrite Zle_Qle in H.
  apply Qle_shift_div_l; [exact Hsq |].
  unfold Qdiv. rewrite <- Qmult_assoc, (Qmult_comm (/ inject_Z s)), Qmult_inv_r by lra.
  lra.
Qed.

Lemma strategy_function_cases (strategy : string) (f : components -> Q) :
  strategy_function STRATEGY_FUNCTIONS strategy = Ok f ->
  f = score_fastest \/ f = score_high_impact \/ f = score_deadline \/ f = score_smart.
Proof.
  unfold STRATEGY_FUNCTIONS, strategy_function.
  destruct (String.eqb "fastest_wins" strategy); [intros [= <-]; auto |].
  destruct (String.eqb "high_impact" strategy); [intros [= <-]; auto |].
  destruct (String.eqb "deadline_driven" strategy); [intros [= <-]; auto |].
  destruct (String.eqb "smart_balance" strategy); [intros [= <-]; auto 6 | discriminate].
Qed.

(** X4. Each of the four strategies is a weighted mean whose weights sum
    to 1: normalised components that all equal [v] give a base score
    within [10 ^ -9] of [v] (it is [v] in exact arithmetic; the bound
    leaves room for the rounding of floating point, under which the
    weights 0.7, 0.2 and 0.1 add up to 0.9999999999999999), normalised
    components give a normalised base score, and raising a component
    never lowers the base score. *)
Theorem strategy_scores_are_weighted_means (strategy : string) (f : components -> Q) :
  strategy_function STRATEGY_FUNCTIONS strategy = Ok f ->
  (forall c v,
      unit_interval v ->
      (urgency c == v)%Q -> (importance_norm c == v)%Q ->
      (quick_win c == v)%Q -> (dep_score c == v)%Q ->
      (Qabs (f c - v) <= 1 # 1000000000)%Q)
  /\ (forall c, unit_components c -> unit_interval (f c))
  /\ (forall c c',
        (urgency c <= urgency c')%Q -> (importance_norm c <= importance_norm c')%Q ->
        (quick_win c <= quick_win c')%Q -> (dep_score c <= dep_score c')%Q ->
        (f c <= f c')%Q).
Proof.
  intros Hf. apply strategy_function_cases in Hf.
  unfold unit_components, unit_interval.
  destruct Hf as [-> | [-> | [-> | ->]]];
    unfold score_fastest, score_high_impact, score_deadline, score_smart;
    (split; [| split]); intros;
    try (apply Qabs_Qle_condition; split); lra.
Qed.

Lemma compute_urgency_unit (clock : Z) (due : option pydate) (today : option Z)
    (u : Q) (left : option Z) :
  compute_urgency clock due today = Ok (u, left) -> unit_interval u.
Proof.
  destruct due as [[d | d t] |].
  - destruct (urgency_of_plain_date clock today d) as (u' & Hu & Hover & Hdue).
    cbv zeta in *. rewrite Hu. intros [= <- _].
    set (days := d - match today with Some t => t | None => clock end) in *.
    unfold unit_interval.
    destruct (Z.lt_ge_cases days 0) as [Hneg | Hpos].
    + rewrite (Hover Hneg). lra.
    + rewrite (Hdue Hpos).
      assert (0 <= Z.min days 30 <= 30) as [H0 H30] by lia.
      rewrite Zle_Qle in H0, H30.
      change (inject_Z 0) with 0%Q in *. change (inject_Z 30) with 30%Q in *.
      by_tenths. lra.
  - discriminate.
  - unfold compute_urgency. intros [= <- _]. unfold unit_interval. lra.
Qed.

Lemma final_score_range (base_score : Q) (cycle_issue : bool) :
  unit_interval base_score ->
  (0 <= final_score base_score cycle_issue <= 100)%Q
  /\ (cycle_issue = true -> (final_score base_score cycle_issue <= 20)%Q).
Proof.
  unfold unit_interval, final_score. intros [H0 H1]. split.
  - change 0%Q with (inject_Z 0). change 100%Q with (inject_Z 100).
    apply py_round_between.
    change (inject_Z 0) with 0%Q. change (inject_Z 100) with 100%Q.
    destruct cycle_issue; lra.
  - intros ->. change 20%Q with (inject_Z 20).
    apply (py_round_between 0 20).
    change (inject_Z 0) with 0%Q. change (inject_Z 20) with 20%Q. lra.
Qed.

(** X6. The cycle penalty never raises a score: for a base score that is
    not negative, the penalised final score is at most the final score
    without the penalty. *)
Theorem cycle_penalty_never_raises_the_score (base_score : Q) :
  (0 <= base_score)%Q ->
  (final_score base_score true <= final_score base_score false)%Q.
Proof.
  intros H. unfold final_score. apply py_round_monotone. lra.
Qed.

Lemma compute_importance_unit (value : Z) (v : Q) :
  compute_importance value = Ok v -> unit_interval v.
Proof.
  intros Hv. unfold unit_interval. rewrite (compute_importance_value _ _ Hv).
  assert (0 <= Z.max 0 (Z.min value 10) <= 10) as [H0 H1] by lia.
  rewrite Zle_Qle in H0, H1.
  change (inject_Z 0) with 0%Q in *. change (inject_Z 10) with 10%Q in *.
  by_tenths. lra.
Qed.

Lemma compute_quick_win_unit (hours : Q) : unit_interval (compute_quick_win hours).
Proof.
  unfold unit_interval, compute_quick_win, py_min, py_max.
  destruct (Qlt_le_dec hours 0); destruct (Qlt_le_dec 8 _); by_tenths; lra.
Qed.

Lemma strategy_function_unit (strategy : string) (f : components -> Q) (c : components) :
  strategy_function STRATEGY_FUNCTIONS strategy = Ok f ->
  unit_components c -> unit_interval (f c).
Proof.
  intros Hf. apply strategy_function_cases in Hf.
  unfold unit_components, unit_interval.
  destruct Hf as [-> | [-> | [-> | ->]]];
    unfold score_fastest, score_high_impact, score_deadline, score_smart;
    intros; lra.
Qed.

Section ScoreRange.

Variable date_fromisoformat : string -> result Z.
Variable float_of_str : string -> result Q.
Variable int_of_str : string -> result Z.
Variable repr_float : Q -> string.
Variable format_g : Q -> string.
Variable depth : nat.

Local Abbreviation parse_tasks :=
  (parse_tasks date_fromisoformat float_of_str int_of_str repr_float).
Local Abbreviation score_task := (score_task format_g).
Local Abbreviation score_tasks :=
  (score_tasks date_fromisoformat float_of_str int_of_str repr_float format_g).

Lemma scored_components_unit (strategy : string) (today : Z) (tasks : list TaskData)
    (graph : list (Z * list Z)) (dependents : list (Z * Z)) (cycles : gset Z)
    (max_dep : Z) (task : TaskData) (e : Scored.t) :
  build_dependency_graph tasks = (graph, dependents) ->
  compute_max_dep dependents = Ok max_dep ->
  score_task strategy today dependents cycles max_dep task = Ok e ->
  unit_components (Scored.components e).
Proof.
  intros Hbuild Hmax He.
  apply score_task_components in He as (u & left & i & q & Hu & Hi & Hq & ->).
  destruct (compute_max_dep_spec tasks) as (m & Hm & _ & Hle & _).
  pose proof (dependent_count_occurrences tasks (id task)) as Hocc.
  rewrite Hbuild in Hm, Hle, Hocc. cbn [snd] in Hm, Hle, Hocc.
  assert (m = max_dep) as -> by congruence.
  destruct (compute_dep_score_spec (dict_get_default dependents (id task) 0) max_dep)
    as (q' & Hq' & _ & _ & Hunit).
  { split; [rewrite Hocc; lia | apply Hle]. }
  assert (q' = q) as -> by congruence.
  unfold unit_components, unit_interval. cbn.
  repeat split; apply py_round_unit_interval.
  - apply (compute_urgency_unit _ _ _ _ _ Hu).
  - apply (compute_urgency_unit _ _ _ _ _ Hu).
  - apply (compute_importance_unit _ _ Hi).
  - apply (compute_importance_unit _ _ Hi).
  - apply (compute_quick_win_unit (estimated_hours task)).
  - apply (compute_quick_win_unit (estimated_hours task)).
  - exact Hunit.
  - exact Hunit.
Qed.

(** X5. In every analysis [score_tasks] returns, whatever the importances
    and the dates of the payload, and whatever its hours as long as
    they are finite numbers (the model has no other), the four
    components of every task lie in [0,1], every score lies in [0,100],
    and the score of a task flagged as cyclic is at most 20. *)
Theorem scores_are_percentages (clock : Z) (payload : list raw_task)
    (strategy : string) (r : Analysis.t) :
  score_tasks depth clock payload strategy = Ok r ->
  forall e, In e (Analysis.tasks r) ->
    unit_components (Scored.components e)
    /\ (0 <= Scored.score e <= 100)%Q
    /\ (Scored.cycle_issue e = true -> (Scored.score e <= 20)%Q).
Proof.
  intros Hr e He.
  destruct (scored_entry_origin _ _ _ _ _ _ _ _ _ _ _ Hr He)
    as (parsed & graph & dependents & cycles & max_dep & task & e0 & k
        & _ & Hgraph & _ & Hmax & _ & Htask & ->).
  pose proof (scored_components_unit _ _ _ _ _ _ _ _ _ Hgraph Hmax Htask) as Hunit.
  apply score_task_Ok in Htask as (f & Hf & _ & _ & _ & Hscore).
  cbn. split; [exact Hunit |]. rewrite Hscore.
  apply final_score_range.
  apply (strategy_function_unit strategy f _ Hf). exact Hunit.
Qed.

End ScoreRange.

(** ** What the traversal flags *)

Section Flags.

Variable graph : list (Z * list Z).

Lemma clos_t_rt (x y z : Z) :
  clos_trans Z (edge graph) x y -> reaches graph y z -> clos_trans Z (edge graph) x z.
Proof.
  intros Hxy Hyz. unfold reaches in Hyz. revert x Hxy.
  induction Hyz as [a b Hab | a | a b c _ IH1 _ IH2]; intros x Hxy.
  - eapply t_trans; [exact Hxy | apply t_step, Hab].
  - exact Hxy.
  - apply IH2, IH1, Hxy.
Qed.

Lemma reaches_step (x y z : Z) :
  reaches graph x y -> edge graph y z -> reaches graph x z.
Proof.
  intros Hxy Hyz. unfold reaches in *.
  eapply rt_trans; [exact Hxy | apply rt_step, Hyz].
Qed.

Lemma edge_back_is_cycle (node back : Z) :
  edge graph node back -> reaches graph back node -> on_cycle graph node.
Proof.
  intros Hedge Hback. unfold on_cycle.
  apply clos_t_rt with back; [apply t_step, Hedge | exact Hback].
Qed.

Lemma visit_neighbors_sound (call : Z -> dfs_state -> result dfs_state) (node : Z) :
  keeps_flags_sound graph call ->
  forall neighbors st st',
    visit_neighbors call neighbors st = Ok st' ->
    Forall (edge graph node) neighbors ->
    stack st ⊆ visited st ->
    (forall s, s ∈ stack st -> reaches graph s node) ->
    flags_sound graph st ->
    flags_sound graph st' /\ stack st' = stack st /\ visited st ⊆ visited st'.
Proof.
  intros Hcall neighbors.
  induction neighbors as [| nb rest IH]; intros st st' Hrun Hedges Hsub Hreach Hsound.
  - injection Hrun as <-. repeat split; [exact Hsound | set_solver].
  - apply Forall_cons in Hedges as [Hedge Hedges]. cbn [visit_neighbors] in Hrun.
    destruct (decide (nb ∉ visited st)) as [Hfresh | Hseen].
    + destruct (call nb st) as [st1 | e] eqn:Hcall1; cbn in Hrun; [| discriminate].
      destruct (Hcall nb st st1 Hcall1 Hfresh Hsub) as (Hs1 & Hstack1 & Hvis1);
        [intros s Hs; eapply reaches_step; [apply Hreach, Hs | exact Hedge]
        | exact Hsound |].
      destruct (IH st1 st' Hrun Hedges) as (Hs' & Hstack' & Hvis');
        [rewrite Hstack1; set_solver | rewrite Hstack1; exact Hreach | exact Hs1 |].
      repeat split; [exact Hs' | congruence | set_solver].
    + destruct (decide (nb ∈ stack st)) as [Hback | Hcross]; cbn in Hrun.
      * destruct (IH _ st' Hrun Hedges) as (Hs' & Hstack' & Hvis');
          [exact Hsub | exact Hreach | | repeat split; assumption].
        intros x Hx. cbn in Hx. apply elem_of_union in Hx as [Hx | Hx].
        -- apply Hsound, Hx.
        -- exists node. split; [apply Hreach, Hx |].
           apply edge_back_is_cycle with nb; [exact Hedge | apply Hreach, Hback].
      * apply (IH st st' Hrun Hedges Hsub Hreach Hsound).
Qed.

Lemma dfs_sound (depth : nat) : keeps_flags_sound graph (dfs depth graph).
Proof.
  induction depth as [| depth IH]; intros node st st' Hrun Hfresh Hsub Hreach Hsound;
    [discriminate |].
  cbn [dfs] in Hrun.
  destruct (visit_neighbors _ _ _) as [st2 | e] eqn:Hloop; cbn in Hrun; [| discriminate].
  injection Hrun as <-.
  apply (visit_neighbors_sound _ node IH) in Hloop as (Hs2 & Hstack2 & Hvis2).
  - cbn in *. repeat split; [exact Hs2 | rewrite Hstack2; set_solver | set_solver].
  - apply Forall_forall. intros nb Hnb. apply list_elem_of_In in Hnb. exact Hnb.
  - cbn. set_solver.
  - cbn. intros s Hs. apply elem_of_union in Hs as [Hs | Hs].
    + apply elem_of_singleton in Hs as ->. apply rt_refl.
    + apply Hreach, Hs.
  - exact Hsound.
Qed.

Lemma visit_roots_sound (depth : nat) (roots : list Z) (st st' : dfs_state) :
  visit_roots depth graph roots st = Ok st' ->
  stack st = ∅ -> flags_sound graph st ->
  flags_sound graph st' /\ stack st' = ∅.
Proof.
  revert st. induction roots as [| node rest IH]; intros st Hrun Hempty Hsound.
  - injection Hrun as <-. split; assumption.
  - cbn [visit_roots] in Hrun.
    destruct (decide (node ∉ visited st)) as [Hfresh | Hseen].
    + destruct (dfs depth graph node st) as [st1 | e] eqn:Hdfs; cbn in Hrun;
        [| discriminate].
      destruct (dfs_sound depth node st st1 Hdfs Hfresh) as (Hs1 & Hstack1 & _);
        [rewrite Hempty; set_solver | rewrite Hempty; set_solver | exact Hsound |].
      apply (IH st1 Hrun); [congruence | exact Hs1].
    + apply (IH st Hrun Hempty Hsound).
Qed.

Lemma find_cycles_sound (depth : nat) (cycles : gset Z) :
  find_cycles depth graph = Ok cycles -> forall x, x ∈ cycles -> leads_to_cycle graph x.
Proof.
  unfold find_cycles. intros Hrun.
  destruct (visit_roots _ _ _ _) as [st | e] eqn:Hroots; cbn in Hrun; [| discriminate].
  injection Hrun as <-.
  apply visit_roots_sound in Hroots as [Hsound _]; [exact Hsound | reflexivity |].
  intros x Hx. cbn in Hx. set_solver.
Qed.

(** X7. [find_cycles] flags no node without a cycle ahead of it: every
    node of the set it returns reaches, along the edges of the graph, a
    node that is on a cycle.  On a graph without cycles the set is
    empty. *)
Theorem find_cycles_flags_lead_to_cycles (depth : nat) (cycles : gset Z) :
  find_cycles depth graph = Ok cycles ->
  (forall x, x ∈ cycles -> leads_to_cycle graph x)
  /\ ((forall x, ~ on_cycle graph x) -> cycles = ∅).
Proof.
  intros Hrun. pose proof (find_cycles_sound depth cycles Hrun) as Hsound.
  split; [exact Hsound |].
  intros Hacyclic. apply set_eq. intros x. split; [| set_solver].
  intros Hx. destruct (Hsound x Hx) as (y & _ & Hy). destruct (Hacyclic y Hy).
Qed.

(** ** What the traversal does not miss *)

Lemma edge_within_target (U : gset Z) (x y : Z) :
  clos_trans Z (edge_within graph U) x y -> y ∈ U.
Proof.
  intros H. apply clos_trans_tn1 in H.
  inversion H; subst;
    match goal with Hstep : edge_within _ _ _ _ |- _ => apply Hstep end.
Qed.

Lemma no_cycle_through_new (U U' : gset Z) (n : Z) :
  n ∉ U -> U' ⊆ U ∪ {[n]} ->
  (forall p, ~ edge_within graph U' p n) ->
  (forall x, ~ clos_trans Z (edge_within graph U) x x) ->
  forall x, ~ clos_trans Z (edge_within graph U') x x.
Proof.
  intros Hn Hsub Hnone Hold.
  assert (forall a b, edge_within graph U' a b -> a <> n -> edge_within graph U a b)
    as Hconv.
  { intros a b (He & Ha & Hb) Hne.
    assert (b <> n) as Hbn.
    { intros ->. apply (Hnone a). split; [exact He |]. split; assumption. }
    assert (forall c, c ∈ U' -> c <> n -> c ∈ U) as Hin.
    { intros c Hc Hcn. apply Hsub, elem_of_union in Hc as [Hc | Hc]; [exact Hc |].
      apply elem_of_singleton in Hc. contradiction. }
    split; [exact He |]. split; apply Hin; assumption. }
  assert (forall a b, clos_trans Z (edge_within graph U') a b -> a <> n ->
                      clos_trans Z (edge_within graph U) a b) as Hpath.
  { intros a b Hab Ha. apply clos_trans_tn1 in Hab.
    induction Hab as [b Hstep | b c Hstep _ IH].
    - apply t_step, Hconv; assumption.
    - eapply t_trans; [exact IH |]. apply t_step, Hconv; [exact Hstep |].
      intros ->. apply edge_within_target in IH. contradiction. }
  intros x Hxx. destruct (decide (x = n)) as [-> | Hne].
  - apply clos_trans_tn1 in Hxx.
    inversion Hxx; subst; eapply Hnone; eassumption.
  - apply (Hold x), Hpath; assumption.
Qed.

Lemma flagging_the_stack (V S C : gset Z) : (V ∖ S) ∖ (C ∪ S) = (V ∖ S) ∖ C.
Proof. set_solver. Qed.

Lemma entering_a_node (V S : gset Z) (n : Z) :
  n ∉ V -> ({[n]} ∪ V) ∖ ({[n]} ∪ S) = V ∖ S.
Proof. set_solver. Qed.

Lemma leaving_a_node (S : gset Z) (n : Z) : n ∉ S -> ({[n]} ∪ S) ∖ {[n]} = S.
Proof. set_solver. Qed.

Lemma visit_neighbors_complete (call : Z -> dfs_state -> result dfs_state) (node : Z) :
  keeps_dfs_inv graph call ->
  forall neighbors st st',
    visit_neighbors call neighbors st = Ok st' ->
    node ∈ stack st -> dfs_inv graph st ->
    dfs_inv graph st' /\ stack st' = stack st /\ visited st ⊆ visited st'
    /\ cycle_nodes st ⊆ cycle_nodes st'
    /\ forall m, In m neighbors ->
         m ∈ visited st' /\ (m ∈ stack st -> node ∈ cycle_nodes st').
Proof.
  intros Hcall neighbors.
  induction neighbors as [| nb rest IH]; intros st st' Hrun Hnode Hinv.
  - injection Hrun as <-. split; [exact Hinv |]. split; [reflexivity |].
    split; [reflexivity |]. split; [reflexivity |]. intros m [].
  - cbn [visit_neighbors] in Hrun.
    assert (exists st1,
               visit_neighbors call rest st1 = Ok st'
               /\ dfs_inv graph st1 /\ stack st1 = stack st
               /\ visited st ⊆ visited st1 /\ cycle_nodes st ⊆ cycle_nodes st1
               /\ nb ∈ visited st1 /\ (nb ∈ stack st -> node ∈ cycle_nodes st1))
      as (st1 & Hrest & Hinv1 & Hstack1 & Hvis1 & Hcyc1 & Hnb1 & Hback1).
    { destruct (decide (nb ∉ visited st)) as [Hfresh | Hseen].
      - destruct (call nb st) as [st1 | e] eqn:Hcall1; cbn in Hrun; [| discriminate].
        destruct (Hcall nb st st1 Hcall1 Hfresh Hinv) as (Hi & Hs & Hv & Hn & Hc).
        exists st1. split; [exact Hrun |]. split; [exact Hi |]. split; [exact Hs |].
        split; [exact Hv |]. split; [exact Hc |]. split; [exact Hn |].
        intros Hin. exfalso. apply Hfresh. destruct Hinv as [Hsub _]. apply Hsub, Hin.
      - assert (nb ∈ visited st) as Hvis by (destruct (decide (nb ∈ visited st)); tauto).
        destruct (decide (nb ∈ stack st)) as [Hback | Hcross]; cbn in Hrun.
        + eexists. split; [exact Hrun |]. cbn.
          destruct Hinv as [Hsub Hleft].
          split.
          { split; [exact Hsub |]. unfold finished, unflagged in *. cbn.
            rewrite flagging_the_stack. exact Hleft. }
          split; [reflexivity |]. split; [reflexivity |].
          split; [apply union_subseteq_l |]. split; [exact Hvis |].
          intros _. apply elem_of_union. right. exact Hnode.
        + exists st. split; [exact Hrun |]. split; [exact Hinv |].
          split; [reflexivity |]. split; [reflexivity |]. split; [reflexivity |].
          split; [exact Hvis |]. intros Hm. contradiction. }
    destruct (IH st1 st' Hrest) as (Hinv' & Hstack' & Hvis' & Hcyc' & Hall');
      [rewrite Hstack1; exact Hnode | exact Hinv1 |].
    split; [exact Hinv' |]. split; [congruence |].
    split; [etrans; eassumption |]. split; [etrans; eassumption |].
    intros m [<- | Hin].
    + split; [apply Hvis', Hnb1 | intros Hm; apply Hcyc', Hback1, Hm].
    + destruct (Hall' m Hin) as [Hm1 Hm2].
      split; [exact Hm1 | intros Hm; apply Hm2; rewrite Hstack1; exact Hm].
Qed.

Lemma dfs_complete (depth : nat) : keeps_dfs_inv graph (dfs depth graph).
Proof.
  induction depth as [| depth IH]; intros node st st' Hrun Hfresh Hinv; [discriminate |].
  cbn [dfs] in Hrun.
  destruct (visit_neighbors _ _ _) as [st2 | e] eqn:Hloop; cbn in Hrun; [| discriminate].
  injection Hrun as <-.
  destruct Hinv as [Hsub Hleft].
  assert (node ∉ stack st) as Hnostack by (intros H; apply Hfresh, Hsub, H).
  apply (visit_neighbors_complete _ node IH) in Hloop
    as ([Hsub2 [Hedges2 Hnocycle2]] & Hstack2 & Hvis2 & Hcyc2 & Hnbrs).
  - cbn in Hstack2, Hvis2, Hcyc2, Hnbrs.
    assert (node ∈ visited st2) as Hnode2 by (apply Hvis2, elem_of_union_l, elem_of_singleton; reflexivity).
    assert (node ∈ stack st2) as Hin2 by (rewrite Hstack2; apply elem_of_union_l, elem_of_singleton; reflexivity).
    unfold dfs_post, dfs_inv, finished, unflagged in *. cbn.
    assert (forall c, c ∈ (visited st2 ∖ (stack st2 ∖ {[node]})) ∖ cycle_nodes st2 ->
                      c <> node -> c ∈ (visited st2 ∖ stack st2) ∖ cycle_nodes st2)
      as Hold.
    { intros c Hc Hne. clear - Hc Hne. set_solver. }
    split; [split; [| split] |].
    + clear - Hsub2. set_solver.
    + intros n m Hn Hedge. destruct (decide (n = node)) as [-> | Hne].
      * destruct (Hnbrs m Hedge) as [Hm Hback].
        assert (m ∉ stack st2) as Hm2.
        { intros Hin. rewrite Hstack2 in Hin. apply Hback in Hin.
          clear - Hn Hin. set_solver. }
        clear - Hm Hm2. set_solver.
      * pose proof (Hedges2 n m (Hold n Hn Hne) Hedge) as Hm.
        clear - Hm. set_solver.
    + apply (no_cycle_through_new ((visited st2 ∖ stack st2) ∖ cycle_nodes st2) _ node).
      * clear - Hin2. set_solver.
      * intros c Hc. destruct (decide (c = node)) as [-> | Hne];
          [apply elem_of_union_r, elem_of_singleton; reflexivity
          | apply elem_of_union_l, Hold; assumption].
      * intros p (Hedge & Hp & Hnode). destruct (decide (p = node)) as [-> | Hne].
        -- destruct (Hnbrs node Hedge) as [_ Hback].
           assert (node ∈ cycle_nodes st2) as Hflag.
           { apply Hback. apply elem_of_union_l, elem_of_singleton. reflexivity. }
           clear - Hp Hflag. set_solver.
        -- pose proof (Hedges2 p node (Hold p Hp Hne) Hedge) as Hfin.
           clear - Hfin Hin2. set_solver.
      * exact Hnocycle2.
    + split; [rewrite Hstack2; apply leaving_a_node, Hnostack |].
      split; [clear - Hvis2; set_solver |]. split; [exact Hnode2 | exact Hcyc2].
  - cbn. apply elem_of_union_l, elem_of_singleton. reflexivity.
  - split; [cbn; clear - Hsub; set_solver |].
    unfold finished, unflagged in *. cbn.
    rewrite (entering_a_node _ _ _ Hfresh). exact Hleft.
Qed.

Lemma visit_roots_complete (depth : nat) (roots : list Z) (st st' : dfs_state) :
  visit_roots depth graph roots st = Ok st' ->
  dfs_inv graph st ->
  dfs_inv graph st' /\ stack st' = stack st /\ visited st ⊆ visited st'
  /\ forall root, In root roots -> root ∈ visited st'.
Proof.
  revert st. induction roots as [| node rest IH]; intros st Hrun Hinv.
  - injection Hrun as <-. split; [exact Hinv |]. split; [reflexivity |].
    split; [reflexivity |]. intros root [].
  - cbn [visit_roots] in Hrun.
    assert (exists st1,
               visit_roots depth graph rest st1 = Ok st'
               /\ dfs_inv graph st1 /\ stack st1 = stack st
               /\ visited st ⊆ visited st1 /\ node ∈ visited st1)
      as (st1 & Hrest & Hinv1 & Hstack1 & Hvis1 & Hnode1).
    { destruct (decide (node ∉ visited st)) as [Hfresh | Hseen].
      - destruct (dfs depth graph node st) as [st1 | e] eqn:Hdfs; cbn in Hrun;
          [| discriminate].
        destruct (dfs_complete depth node st st1 Hdfs Hfresh Hinv)
          as (Hi & Hs & Hv & Hn & _).
        exists st1. split; [exact Hrun |]. split; [exact Hi |]. split; [exact Hs |].
        split; [exact Hv | exact Hn].
      - exists st. split; [exact Hrun |]. split; [exact Hinv |].
        split; [reflexivity |]. split; [reflexivity |].
        destruct (decide (node ∈ visited st)); tauto. }
    destruct (IH st1 Hrest Hinv1) as (Hinv' & Hstack' & Hvis' & Hall').
    split; [exact Hinv' |]. split; [congruence |]. split; [etrans; eassumption |].
    intros root [<- | Hin]; [apply Hvis', Hnode1 | apply Hall', Hin].
Qed.

Lemma edge_source_is_key (x y : Z) : edge graph x y -> In x (dict_keys graph).
Proof.
  unfold edge, dict_get_default.
  destruct (dict_get graph x) as [l |] eqn:Hget; [| intros []].
  intros _. apply dict_get_In in Hget. unfold dict_keys.
  change x with (fst (x, l)). apply in_map, Hget.
Qed.

Lemma find_cycles_complete (depth : nat) (cycles : gset Z) :
  find_cycles depth graph = Ok cycles ->
  forall x, on_cycle graph x ->
            exists y, y ∈ cycles /\ reaches graph x y /\ reaches graph y x.
Proof.
  unfold find_cycles. intros Hrun.
  destruct (visit_roots _ _ _ _) as [st | e] eqn:Hroots; cbn in Hrun; [| discriminate].
  injection Hrun as <-.
  apply visit_roots_complete in Hroots as ([_ [Hedges Hnocycle]] & Hstack & _ & Hkeys).
  - cbn in Hstack. unfold finished, unflagged in *. rewrite Hstack in *.
    assert (forall x z, clos_trans Z (edge graph) x z ->
              clos_trans Z (edge_within graph ((visited st ∖ ∅) ∖ cycle_nodes st)) x z
              \/ exists y, y ∈ cycle_nodes st /\ reaches graph x y /\ reaches graph y z)
      as Hsplit.
    { intros x z Hxz.
      induction Hxz as [x z Hedge | x y z Hxy IH1 Hyz IH2].
      - pose proof (Hkeys x (edge_source_is_key x z Hedge)) as Hx.
        destruct (decide (x ∈ cycle_nodes st)) as [Hflag | Hclean].
        { right. exists x. split; [exact Hflag |].
          split; [apply rt_refl | apply rt_step, Hedge]. }
        assert (x ∈ (visited st ∖ ∅) ∖ cycle_nodes st) as HxU
          by (clear - Hx Hclean; set_solver).
        pose proof (Hedges x z HxU Hedge) as Hz.
        destruct (decide (z ∈ cycle_nodes st)) as [Hflag | Hclean'].
        { right. exists z. split; [exact Hflag |].
          split; [apply rt_step, Hedge | apply rt_refl]. }
        left. apply t_step. split; [exact Hedge |]. split; [exact HxU |].
        clear - Hz Hclean'. set_solver.
      - destruct IH1 as [H1 | (w & Hw & Hxw & Hwy)].
        + destruct IH2 as [H2 | (w & Hw & Hyw & Hwz)].
          * left. eapply t_trans; eassumption.
          * right. exists w. split; [exact Hw |]. split; [| exact Hwz].
            eapply rt_trans; [| exact Hyw].
            apply clos_t_clos_rt, Hxy.
        + right. exists w. split; [exact Hw |]. split; [exact Hxw |].
          eapply rt_trans; [exact Hwy |].
          apply clos_t_clos_rt, Hyz. }
    intros x Hx. destruct (Hsplit x x Hx) as [Hin | Hy]; [| exact Hy].
    destruct (Hnocycle x Hin).
  - split; [cbn; set_solver |]. split.
    + intros n m Hn. unfold unflagged in Hn. cbn in Hn. clear - Hn. set_solver.
    + intros x Hx. apply edge_within_target in Hx.
      unfold unflagged in Hx. cbn in Hx. clear - Hx. set_solver.
Qed.

(** X8. [find_cycles] misses no cycle: every node on a cycle shares its
    cycle with a flagged node, one it reaches and that reaches it.  When
    the returned set is empty, the graph has no cycle. *)
Theorem find_cycles_flags_every_cycle (depth : nat) (cycles : gset Z) :
  find_cycles depth graph = Ok cycles ->
  (forall x, on_cycle graph x ->
             exists y, y ∈ cycles /\ reaches graph x y /\ reaches graph y x)
  /\ (cycles = ∅ -> forall x, ~ on_cycle graph x).
Proof.
  intros Hrun. pose proof (find_cycles_complete depth cycles Hrun) as Hall.
  split; [exact Hall |].
  intros Hempty x Hx. destruct (Hall x Hx) as (y & Hy & _).
  rewrite Hempty in Hy. clear - Hy. set_solver.
Qed.

End Flags.

(** ** The dependency graph of a batch *)

Lemma build_dependency_graph_pairs (tasks : list TaskData) :
  build_dependency_graph tasks
  = (fold_left add_dependent (dependency_pairs tasks)
       (fold_left (fun d task => dict_set d (id task) []) tasks []),
     fold_left count_dependency (map fst (dependency_pairs tasks))
       (fold_left (fun d task => dict_set d (id task) 0) tasks [])).
Proof.
  unfold build_dependency_graph.
  generalize (fold_left (fun d task => dict_set d (id task) (@nil Z)) tasks []).
  generalize (fold_left (fun d task => dict_set d (id task) 0) tasks []).
  induction tasks as [| task tasks IH]; intros counts adjacency; [reflexivity |].
  cbn [fold_left dependency_pairs flat_map].
  rewrite map_app, !fold_left_app.
  assert (forall deps adj cnt,
             fold_left
               (fun '(adjacency, dependent_counts) dependency =>
                  (dict_set adjacency dependency
                     (dict_get_default adjacency dependency [] ++ [id task]),
                   dict_set dependent_counts dependency
                     (dict_get_default dependent_counts dependency 0 + 1)))
               deps (adj, cnt)
             = (fold_left add_dependent
                  (map (fun dependency => (dependency, id task)) deps) adj,
                fold_left count_dependency
                  (map fst (map (fun dependency => (dependency, id task)) deps)) cnt))
    as Hinner.
  { induction deps as [| dep deps IHd]; intros adj cnt; [reflexivity |].
    cbn [fold_left map]. apply IHd. }
  rewrite Hinner. apply IH.
Qed.

Lemma dependency_pairs_fst (tasks : list TaskData) :
  map fst (dependency_pairs tasks) = concat (map dependencies tasks).
Proof.
  induction tasks as [| task tasks IH]; [reflexivity |].
  cbn [dependency_pairs flat_map map concat]. rewrite map_app. f_equal; [| exact IH].
  rewrite map_map. cbn. apply map_id.
Qed.

Lemma dependency_pairs_In (tasks : list TaskData) (d x : Z) :
  In (d, x) (dependency_pairs tasks) <-> depends_on tasks x d.
Proof.
  unfold dependency_pairs, depends_on. rewrite in_flat_map. split.
  - intros (task & Htask & Hin). apply in_map_iff in Hin as (dep & [= <- <-] & Hdep).
    exists task. auto.
  - intros (task & Htask & <- & Hdep). exists task. split; [exact Htask |].
    apply in_map_iff. exists d. auto.
Qed.

Lemma add_dependent_lookup (pairs : list (Z * Z)) (adjacency : list (Z * list Z)) (d : Z) :
  dict_get_default (fold_left add_dependent pairs adjacency) d []
  = dict_get_default adjacency d []
    ++ map snd (List.filter (fun pair => fst pair =? d) pairs).
Proof.
  revert adjacency. induction pairs as [| [dep x] pairs IH]; intros adjacency.
  - cbn. rewrite app_nil_r. reflexivity.
  - cbn [fold_left List.filter fst]. rewrite IH. unfold add_dependent.
    cbn [fst snd]. rewrite dict_get_default_set.
    destruct (Z.eqb_spec dep d) as [-> | Hne].
    + cbn [map snd]. rewrite <- app_assoc. reflexivity.
    + reflexivity.
Qed.

Lemma initial_adjacency_empty (tasks : list TaskData) (k : Z) :
  dict_get_default (fold_left (fun d task => dict_set d (id task) (@nil Z)) tasks []) k []
  = [].
Proof.
  apply (fold_left_invariant (fun d => dict_get_default d k (@nil Z) = [])).
  - reflexivity.
  - intros d task Hd. rewrite dict_get_default_set. destruct (Z.eqb _ _); auto.
Qed.

(** The adjacency list of an id: the tasks that name it, in batch order,
    once per mention. *)
Lemma adjacency_lookup (tasks : list TaskData) (d : Z) :
  dict_get_default (fst (build_dependency_graph tasks)) d []
  = map snd (List.filter (fun pair => fst pair =? d) (dependency_pairs tasks)).
Proof.
  rewrite build_dependency_graph_pairs. cbn [fst].
  rewrite add_dependent_lookup, initial_adjacency_empty. reflexivity.
Qed.

Lemma edge_depends_on (tasks : list TaskData) (d x : Z) :
  edge (fst (build_dependency_graph tasks)) d x <-> depends_on tasks x d.
Proof.
  unfold edge. rewrite adjacency_lookup, <- dependency_pairs_In, in_map_iff. split.
  - intros ([d' x'] & Hx & Hin). apply filter_In in Hin as [Hin Hd].
    cbn in Hx, Hd. apply Z.eqb_eq in Hd. subst. exact Hin.
  - intros Hin. exists (d, x). split; [reflexivity |].
    apply filter_In. split; [exact Hin | apply Z.eqb_refl].
Qed.

(** X10. The graph [build_dependency_graph] returns is the dependency
    relation of the batch, reversed: it has an edge from [d] to [x]
    exactly when a task with id [x] names [d] as a dependency, and the
    dependent count of [d] is the length of its adjacency list. *)
Theorem graph_reverses_dependencies (tasks : list TaskData) (d x : Z) :
  (edge (fst (build_dependency_graph tasks)) d x <-> depends_on tasks x d)
  /\ dict_get_default (snd (build_dependency_graph tasks)) d 0
     = Z.of_nat (length (dict_get_default (fst (build_dependency_graph tasks)) d [])).
Proof.
  split; [apply edge_depends_on |].
  rewrite dependent_count_occurrences, adjacency_lookup, <- dependency_pairs_fst.
  f_equal. rewrite length_map.
  induction (dependency_pairs tasks) as [| [dep y] pairs IH]; [reflexivity |].
  cbn [map fst count_occ List.filter].
  destruct (Z.eq_dec dep d) as [-> | Hne].
  - rewrite Z.eqb_refl. cbn [length]. f_equal. exact IH.
  - destruct (Z.eqb_spec dep d); [contradiction | exact IH].
Qed.

Lemma dict_set_keys_In {V : Type} (d : list (Z * V)) (k k' : Z) (v : V) :
  In k' (dict_keys (dict_set d k v)) <-> k' = k \/ In k' (dict_keys d).
Proof.
  induction d as [| [k0 v0] d IH]; cbn.
  - intuition.
  - destruct (Z.eqb_spec k0 k) as [-> | Hne]; cbn.
    + intuition.
    + rewrite IH. intuition.
Qed.

Lemma dict_set_keys_NoDup {V : Type} (d : list (Z * V)) (k : Z) (v : V) :
  List.NoDup (dict_keys d) -> List.NoDup (dict_keys (dict_set d k v)).
Proof.
  induction d as [| [k0 v0] d IH]; cbn; intros Hnd.
  - constructor; [intros [] | constructor].
  - inversion Hnd as [| ? ? Hnotin Hrest]; subst.
    destruct (Z.eqb_spec k0 k) as [-> | Hne]; cbn; [exact Hnd |].
    constructor; [| apply IH, Hrest].
    intros Hin. apply dict_set_keys_In in Hin as [-> | Hin]; [congruence | contradiction].
Qed.

Lemma dict_set_keys_same {V W : Type} (d : list (Z * V)) (d' : list (Z * W))
    (k : Z) (v : V) (w : W) :
  dict_keys d = dict_keys d' ->
  dict_keys (dict_set d k v) = dict_keys (dict_set d' k w).
Proof.
  revert d'. induction d as [| [k0 v0] d IH]; intros [| [k1 w1] d'] Hkeys;
    try discriminate; [reflexivity |].
  cbn in Hkeys. injection Hkeys as <- Hkeys. cbn.
  destruct (Z.eqb k0 k); cbn; f_equal; [exact Hkeys | apply IH, Hkeys].
Qed.

Lemma dict_get_key {V : Type} (d : list (Z * V)) (k : Z) :
  In k (dict_keys d) <-> exists v, dict_get d k = Some v.
Proof.
  induction d as [| [k0 v0] d IH]; cbn.
  - split; [intros [] | intros [v Hv]; discriminate].
  - destruct (Z.eqb_spec k0 k) as [-> | Hne].
    + split; [eauto | auto].
    + rewrite <- IH. intuition.
Qed.

Lemma initial_keys_same (tasks : list TaskData) (d : list (Z * list Z))
    (d' : list (Z * Z)) :
  dict_keys d = dict_keys d' ->
  dict_keys (fold_left (fun d task => dict_set d (id task) []) tasks d)
  = dict_keys (fold_left (fun d task => dict_set d (id task) 0) tasks d').
Proof.
  revert d d'. induction tasks as [| task tasks IH]; intros d d' Hd; [exact Hd |].
  cbn [fold_left]. apply IH, dict_set_keys_same, Hd.
Qed.

Lemma initial_keys_In (tasks : list TaskData) (d : list (Z * list Z)) (k : Z) :
  In k (dict_keys (fold_left (fun d task => dict_set d (id task) []) tasks d))
  <-> In k (dict_keys d) \/ exists task, In task tasks /\ id task = k.
Proof.
  revert d. induction tasks as [| task tasks IH]; intros d; cbn [fold_left].
  - split; [auto | intros [H | (t & [] & _)]; exact H].
  - rewrite IH, dict_set_keys_In. split.
    + intros [[-> | H] | (t & Ht & Hid)].
      * right. exists task. split; [left |]; reflexivity.
      * left. exact H.
      * right. exists t. split; [right |]; assumption.
    + intros [H | (t & [<- | Ht] & Hid)].
      * left. right. exact H.
      * left. left. symmetry. exact Hid.
      * right. exists t. split; assumption.
Qed.

Lemma add_dependent_keys_same (pairs : list (Z * Z)) (adj : list (Z * list Z))
    (cnt : list (Z * Z)) :
  dict_keys adj = dict_keys cnt ->
  dict_keys (fold_left add_dependent pairs adj)
  = dict_keys (fold_left count_dependency (map fst pairs) cnt).
Proof.
  revert adj cnt. induction pairs as [| [dep x] pairs IH]; intros adj cnt H; [exact H |].
  cbn [fold_left map]. apply IH. unfold add_dependent, count_dependency.
  apply dict_set_keys_same, H.
Qed.

Lemma add_dependent_keys_In (pairs : list (Z * Z)) (adj : list (Z * list Z)) (k : Z) :
  In k (dict_keys (fold_left add_dependent pairs adj))
  <-> In k (dict_keys adj) \/ In k (map fst pairs).
Proof.
  revert adj. induction pairs as [| [dep x] pairs IH]; intros adj; cbn [fold_left map].
  - cbn. intuition.
  - rewrite IH. unfold add_dependent. rewrite dict_set_keys_In. cbn. intuition.
Qed.

(** X11. The two dictionaries of [build_dependency_graph] have the same
    keys in the same order, each once: the ids of the tasks and the ids
    the tasks name as dependencies, so that every task of the batch finds
    its entry in both. *)
Theorem graph_keys (tasks : list TaskData) :
  dict_keys (fst (build_dependency_graph tasks))
  = dict_keys (snd (build_dependency_graph tasks))
  /\ List.NoDup (dict_keys (fst (build_dependency_graph tasks)))
  /\ (forall k,
        In k (dict_keys (fst (build_dependency_graph tasks)))
        <-> exists task, In task tasks /\ (id task = k \/ In k (dependencies task)))
  /\ (forall task, In task tasks ->
        exists dependents count,
          dict_get (fst (build_dependency_graph tasks)) (id task) = Some dependents
          /\ dict_get (snd (build_dependency_graph tasks)) (id task) = Some count).
Proof.
  rewrite build_dependency_graph_pairs. cbn [fst snd].
  pose proof (add_dependent_keys_same (dependency_pairs tasks) _ _
                (initial_keys_same tasks [] [] eq_refl)) as Hsame.
  assert (forall k,
             In k (dict_keys (fold_left add_dependent (dependency_pairs tasks)
                                (fold_left (fun d task => dict_set d (id task) [])
                                   tasks [])))
             <-> exists task, In task tasks /\ (id task = k \/ In k (dependencies task)))
    as Hall.
  { intros k.
    rewrite add_dependent_keys_In, initial_keys_In, dependency_pairs_fst, in_concat.
    split.
    - intros [[[] | (t & Ht & Hid)] | (l & Hl & Hk)]; [eauto |].
      apply in_map_iff in Hl as (t & <- & Ht). eauto.
    - intros (t & Ht & [Hid | Hdep]); [left; right; eauto |].
      right. exists (dependencies t). split; [apply in_map, Ht | exact Hdep]. }
  split; [exact Hsame |]. split; [| split; [exact Hall |]].
  - apply (fold_left_invariant (fun d => List.NoDup (dict_keys d))).
    + apply (fold_left_invariant (fun d => List.NoDup (dict_keys d))).
      * constructor.
      * intros d task Hd. apply dict_set_keys_NoDup, Hd.
    + intros d pair Hd. apply dict_set_keys_NoDup, Hd.
  - intros task Htask.
    assert (In (id task)
              (dict_keys (fold_left add_dependent (dependency_pairs tasks)
                            (fold_left (fun d task => dict_set d (id task) [])
                               tasks [])))) as Hk.
    { apply Hall. exists task. auto. }
    pose proof Hk as Hk'. rewrite Hsame in Hk'.
    apply dict_get_key in Hk as [l Hl]. apply dict_get_key in Hk' as [c Hc].
    exists l, c. split; assumption.
Qed.

(** ** The nodes of the graph of a batch *)

Lemma dict_get_In_NoDup {V : Type} (d : list (Z * V)) (k : Z) (v : V) :
  List.NoDup (dict_keys d) -> In (k, v) d -> dict_get d k = Some v.
Proof.
  induction d as [| [k0 v0] d IH]; cbn; [intros _ [] |].
  intros Hnd [[= -> ->] | Hin].
  - rewrite Z.eqb_refl. reflexivity.
  - inversion Hnd as [| ? ? Hnotin Hrest]; subst.
    destruct (Z.eqb_spec k0 k) as [-> | Hne]; [| apply IH; assumption].
    exfalso. apply Hnotin. unfold dict_keys.
    change k with (fst (k, v)). apply in_map, Hin.
Qed.

Lemma dict_value_has_key {V : Type} (d : list (Z * V)) (v : V) :
  List.NoDup (dict_keys d) -> In v (dict_values d) -> exists k, dict_get d k = Some v.
Proof.
  intros Hnd Hin. unfold dict_values in Hin.
  apply in_map_iff in Hin as ([k v'] & Hv & Hin). cbn in Hv. subst v'.
  exists k. apply dict_get_In_NoDup; assumption.
Qed.

Lemma graph_keys_same (tasks : list TaskData) :
  dict_keys (fst (build_dependency_graph tasks))
  = dict_keys (snd (build_dependency_graph tasks)).
Proof.
  rewrite build_dependency_graph_pairs. cbn [fst snd].
  apply add_dependent_keys_same, initial_keys_same. reflexivity.
Qed.

Lemma graph_keys_NoDup (tasks : list TaskData) :
  List.NoDup (dict_keys (fst (build_dependency_graph tasks))).
Proof.
  rewrite build_dependency_graph_pairs. cbn [fst].
  apply (fold_left_invariant (fun d => List.NoDup (dict_keys d))).
  - apply (fold_left_invariant (fun d => List.NoDup (dict_keys d))).
    + constructor.
    + intros d task Hd. apply dict_set_keys_NoDup, Hd.
  - intros d pair Hd. apply dict_set_keys_NoDup, Hd.
Qed.

Lemma graph_key_origin (tasks : list TaskData) (k : Z) :
  In k (dict_keys (fst (build_dependency_graph tasks)))
  <-> exists task, In task tasks /\ (id task = k \/ In k (dependencies task)).
Proof.
  rewrite build_dependency_graph_pairs. cbn [fst].
  rewrite add_dependent_keys_In, initial_keys_In, dependency_pairs_fst, in_concat.
  split.
  - intros [[[] | (t & Ht & Hid)] | (l & Hl & Hk)]; [eauto |].
    apply in_map_iff in Hl as (t & <- & Ht). eauto.
  - intros (t & Ht & [Hid | Hdep]); [left; right; eauto |].
    right. exists (dependencies t). split; [apply in_map, Ht | exact Hdep].
Qed.

(** Every node of the graph of a batch is the id of a task or one of the
    dependencies of a task. *)
Lemma graph_node_origin (tasks : list TaskData) (k : Z) :
  k ∈ graph_nodes (fst (build_dependency_graph tasks)) ->
  exists task, In task tasks /\ (id task = k \/ In k (dependencies task)).
Proof.
  unfold graph_nodes. intros Hk.
  apply elem_of_list_to_set, list_elem_of_In, in_app_or in Hk as [Hkey | Hval].
  - apply graph_key_origin, Hkey.
  - apply in_concat in Hval as (l & Hl & Hk). unfold dict_values in Hl.
    apply in_map_iff in Hl as ([d l'] & Heq & Hin). cbn in Heq. subst l'.
    apply (dict_get_In_NoDup _ _ _ (graph_keys_NoDup tasks)) in Hin.
    assert (edge (fst (build_dependency_graph tasks)) d k) as Hedge
        by (unfold edge, dict_get_default; rewrite Hin; exact Hk).
    apply edge_depends_on in Hedge as (task & Htask & Hid & _). eauto.
Qed.

(** A batch whose ids and dependencies lie between 1 and [n] has a graph
    of [n] nodes at most. *)
Lemma graph_nodes_within (tasks : list TaskData) (n : nat) :
  (forall task, In task tasks ->
                1 <= id task <= Z.of_nat n
                /\ Forall (fun dep => 1 <= dep <= Z.of_nat n) (dependencies task)) ->
  (size (graph_nodes (fst (build_dependency_graph tasks))) <= n)%nat.
Proof.
  intros Hall.
  assert (graph_nodes (fst (build_dependency_graph tasks))
            ⊆ list_to_set (seqZ 1 (Z.of_nat n))) as Hsub.
  { intros k Hk. apply elem_of_list_to_set, elem_of_seqZ.
    apply graph_node_origin in Hk as (task & Htask & [<- | Hdep]).
    - destruct (Hall task Htask) as [Hid _]. lia.
    - destruct (Hall task Htask) as [_ Hdeps].
      rewrite Forall_forall in Hdeps. apply list_elem_of_In, Hdeps in Hdep. lia. }
  apply subseteq_size in Hsub.
  rewrite size_list_to_set in Hsub by apply NoDup_seqZ.
  rewrite length_seqZ in Hsub. lia.
Qed.

(** ** Flags and dependency cycles of a batch *)




Section FlagsOfABatch.

Variable date_fromisoformat : string -> result Z.
Variable float_of_str : string -> result Q.
Variable int_of_str : string -> result Z.
Variable repr_float : Q -> string.
Variable format_g : Q -> string.
Variable depth : nat.

Local Abbreviation parse_tasks :=
  (parse_tasks date_fromisoformat float_of_str int_of_str repr_float).
Local Abbreviation score_task := (score_task format_g).
Local Abbreviation score_tasks :=
  (score_tasks date_fromisoformat float_of_str int_of_str repr_float format_g).


End FlagsOfABatch.

(** ** When [score_tasks] returns and what it raises *)

Section Outcomes.

Variable date_fromisoformat : string -> result Z.
Variable float_of_str : string -> result Q.
Variable int_of_str : string -> result Z.
Variable repr_float : Q -> string.
Variable format_g : Q -> string.
Variable depth : nat.

Local Abbreviation _coerce_date := (_coerce_date date_fromisoformat repr_float).
Local Abbreviation parse_task :=
  (parse_task date_fromisoformat float_of_str int_of_str repr_float).
Local Abbreviation parse_tasks :=
  (parse_tasks date_fromisoformat float_of_str int_of_str repr_float).
Local Abbreviation score_task := (score_task format_g).
Local Abbreviation score_tasks :=
  (score_tasks date_fromisoformat float_of_str int_of_str repr_float format_g).

(** X13. [score_tasks] returns exactly when the strategy is one of the
    four names, the payload parses, no parsed due date is a [datetime],
    every parsed importance can be converted to a [float], and the
    traversal of the dependency graph stays within the depth that the
    interpreter allows; as many nested calls as the graph has nodes are
    enough.  The date of the call plays no part, nor does the choice
    among the four strategies: a payload scored once is scored under
    each of them, on any day. *)
Theorem score_tasks_returns_exactly_when (clock : Z) (payload : list raw_task)
    (strategy : string) :
  ((exists r, score_tasks depth clock payload strategy = Ok r)
   <-> In strategy STRATEGY_CHOICES
       /\ exists parsed,
            parse_tasks payload = Ok parsed
            /\ Forall scorable parsed
            /\ exists cycles,
                 find_cycles depth (fst (build_dependency_graph parsed)) = Ok cycles)
  /\ (forall parsed,
        parse_tasks payload = Ok parsed ->
        (size (graph_nodes (fst (build_dependency_graph parsed))) <= depth)%nat ->
        exists cycles,
          find_cycles depth (fst (build_dependency_graph parsed)) = Ok cycles)
  /\ (forall r clock' strategy',
        score_tasks depth clock payload strategy = Ok r ->
        In strategy' STRATEGY_CHOICES ->
        exists r', score_tasks depth clock' payload strategy' = Ok r').
Proof.
  split; [apply score_tasks_returns_iff |]. split.
  - intros parsed _ Hdepth. apply find_cycles_total, Hdepth.
  - intros r clock' strategy' Hr Hknown.
    apply score_tasks_returns_iff.
    destruct (proj1 (score_tasks_returns_iff _ _ _ _ _ _ clock payload strategy)
                (ex_intro _ r Hr)) as [_ Hrest].
    split; [exact Hknown | exact Hrest].
Qed.

(** X14. What [score_tasks] raises under a recognised strategy: the
    exception of [parse_tasks] when the payload does not parse; else
    [RecursionError] when the traversal of the graph exceeds the depth
    that the interpreter allows; else the exception of the first record
    that the scoring loop cannot score, [TypeError] for a [datetime] as
    due date and [OverflowError] for an importance beyond the range of
    [float].  No division by zero and no missing key comes from the
    scoring itself. *)
Theorem score_tasks_raises_only (clock : Z) (payload : list raw_task)
    (strategy : string) (e : exn) :
  In strategy STRATEGY_CHOICES ->
  score_tasks depth clock payload strategy = Raise e ->
  parse_tasks payload = Raise e
  \/ exists parsed,
       parse_tasks payload = Ok parsed
       /\ ((e = RecursionError
            /\ find_cycles depth (fst (build_dependency_graph parsed))
               = Raise RecursionError)
           \/ ((exists cycles,
                   find_cycles depth (fst (build_dependency_graph parsed)) = Ok cycles)
               /\ exists pre task post,
                    parsed = pre ++ task :: post
                    /\ Forall scorable pre
                    /\ ((e = TypeError /\ ~ plain_due task)
                        \/ (e = OverflowError /\ plain_due task
                            /\ ~ in_float_range (importance task))))).
Proof.
  intros Hknown. apply known_strategy_In in Hknown.
  unfold score_tasks. rewrite Hknown. cbn [negb].
  destruct (parse_tasks payload) as [parsed | e'] eqn:Hparsed; cbn [mbind result_bind];
    [| intros [= ->]; left; reflexivity].
  intros Hraise. right. exists parsed. split; [reflexivity |]. revert Hraise.
  destruct (build_dependency_graph parsed) as [graph dependents] eqn:Hbuild.
  cbn [fst].
  destruct (find_cycles depth graph) as [cycles | e'] eqn:Hcycles;
    cbn [mbind result_bind].
  2: { intros [= ->]. left. apply find_cycles_raises in Hcycles as Heq. subst e.
       split; reflexivity. }
  destruct (compute_max_dep_spec parsed) as (max_dep & Hmax & _).
  rewrite Hbuild in Hmax. cbn [snd] in Hmax. rewrite Hmax. cbn [mbind result_bind].
  intros Hraise. right. split; [eauto |].
  destruct (for_each_score_task format_g strategy clock dependents cycles max_dep parsed
              Hknown)
    as [[_ [scored Hscored]] | (pre & task & post & Hsplit & Hpre & Hcase)].
  - rewrite Hscored in Hraise. cbn [mbind result_bind] in Hraise.
    rewrite build_summary_spec in Hraise. discriminate Hraise.
  - exists pre, task, post. split; [exact Hsplit |]. split; [exact Hpre |].
    destruct Hcase as [[Hnot Hfail] | (Hplain & Hnot & Hfail)];
      rewrite Hfail in Hraise; cbn [mbind result_bind] in Hraise;
      injection Hraise as <-; [left | right]; auto.
Qed.

(** ** The records of a payload *)

Lemma parse_task_Ok (idx : Z) (raw : raw_task) (task : TaskData) :
  parse_task idx raw = Ok task ->
  id task = match raw_id raw with Some 0 | None => idx | Some k => k end
  /\ raw_title raw = Some (title task)
  /\ _coerce_date (py_get (raw_due_date raw)) = Ok (due_date task)
  /\ (exists hours, raw_estimated_hours raw = Some hours
                    /\ py_float float_of_str hours = Ok (estimated_hours task))
  /\ (exists value, raw_importance raw = Some value
                    /\ py_int int_of_str value = Ok (importance task))
  /\ dependencies task = match raw_dependencies raw with Some deps => deps | None => [] end.
Proof.
  unfold parse_task.
  destruct (_coerce_date _) as [due | e]; cbn; [| discriminate].
  destruct (raw_title raw) as [t |]; cbn; [| discriminate].
  destruct (raw_estimated_hours raw) as [h |]; cbn; [| discriminate].
  destruct (py_float _ h) as [hours | e] eqn:Hh; cbn; [| discriminate].
  destruct (raw_importance raw) as [v |]; cbn; [| discriminate].
  destruct (py_int _ v) as [imp | e] eqn:Hv; cbn; [| discriminate].
  intros [= <-]. cbn. repeat split; eauto.
Qed.

(** X15. A parsed payload gives one record per raw task, in the order of
    the payload.  The record at a place has the id of its raw task, or
    the 1-based place when the raw task has no id or the id 0; it has
    its title, its dependencies (none when the key is absent) and its
    coerced due date.  A payload without ids gets the ids 1, 2, ..., n. *)
Theorem parse_tasks_keeps_order (payload : list raw_task) (parsed : list TaskData) :
  parse_tasks payload = Ok parsed ->
  length parsed = length payload
  /\ (forall (i : nat) (raw : raw_task),
        payload !! i = Some raw ->
        exists task,
          parsed !! i = Some task
          /\ id task = id_at i raw
          /\ raw_title raw = Some (title task)
          /\ _coerce_date (py_get (raw_due_date raw)) = Ok (due_date task)
          /\ dependencies task
             = match raw_dependencies raw with Some deps => deps | None => [] end)
  /\ (Forall (fun raw => raw_id raw = None) payload ->
      map id parsed = seqZ 1 (Z.of_nat (length payload))).
Proof.
  intros Hparsed.
  pose proof (for_each_Ok _ _ _ Hparsed) as Hall.
  pose proof (Forall2_length_eq _ _ _ Hall) as Hlen. rewrite enumerate_length in Hlen.
  assert (forall (i : nat) (raw : raw_task),
             payload !! i = Some raw ->
             exists task, parsed !! i = Some task
                          /\ parse_task (1 + Z.of_nat i) raw = Ok task) as Hat.
  { intros i raw Hraw.
    destruct (Forall2_lookup_l _ _ _ i (1 + Z.of_nat i, raw) Hall) as (task & Htask & Hp).
    - rewrite enumerate_lookup, Hraw. reflexivity.
    - exists task. split; assumption. }
  split; [congruence |]. split.
  - intros i raw Hraw. destruct (Hat i raw Hraw) as (task & Htask & Hp).
    apply parse_task_Ok in Hp as (Hid & Htitle & Hdue & _ & _ & Hdeps).
    exists task. split; [exact Htask |]. split; [| auto].
    rewrite Hid. unfold id_at. destruct (raw_id raw) as [[| k | k] |]; lia.
  - intros Hnoid. apply list_eq. intros i.
    change (map id parsed) with (id <$> parsed). rewrite list_lookup_fmap.
    destruct (payload !! i) as [raw |] eqn:Hraw.
    + destruct (Hat i raw Hraw) as (task & Htask & Hp).
      apply parse_task_Ok in Hp as (Hid & _).
      rewrite Forall_forall in Hnoid.
      rewrite (Hnoid raw) in Hid by (eapply list_elem_of_lookup_2, Hraw).
      rewrite Htask. cbn. rewrite Hid.
      apply lookup_lt_Some in Hraw.
      rewrite lookup_seqZ_lt by lia. reflexivity.
    + apply lookup_ge_None in Hraw.
      rewrite (proj2 (lookup_ge_None parsed i)) by lia. cbn.
      symmetry. apply lookup_seqZ_ge. lia.
Qed.

End Outcomes.

(** ** The dependency score of a scored task *)

Section DependencyScore.

Variable date_fromisoformat : string -> result Z.
Variable float_of_str : string -> result Q.
Variable int_of_str : string -> result Z.
Variable repr_float : Q -> string.
Variable format_g : Q -> string.
Variable depth : nat.

Local Abbreviation parse_tasks :=
  (parse_tasks date_fromisoformat float_of_str int_of_str repr_float).
Local Abbreviation score_task := (score_task format_g).
Local Abbreviation score_tasks :=
  (score_tasks date_fromisoformat float_of_str int_of_str repr_float format_g).

(** The maximum [score_tasks] divides by is the greatest number of
    dependents in the batch. *)
Lemma max_dep_is_the_maximum (parsed : list TaskData) (max_dep : Z) :
  compute_max_dep (snd (build_dependency_graph parsed)) = Ok max_dep ->
  (forall k, 0 <= count_dependents parsed k <= max_dep)
  /\ (parsed <> [] -> exists k, count_dependents parsed k = max_dep).
Proof.
  intros Hmax.
  destruct (compute_max_dep_spec parsed) as (m & Hm & _ & Hle & Hin).
  assert (m = max_dep) as -> by congruence.
  split.
  - intros k. unfold count_dependents.
    rewrite <- dependent_count_occurrences. split; [| apply Hle].
    rewrite dependent_count_occurrences. lia.
  - intros Hne. destruct parsed as [| task parsed]; [contradiction |].
    assert (In (id task) (dict_keys (snd (build_dependency_graph (task :: parsed)))))
      as Hkey.
    { rewrite <- graph_keys_same. apply graph_key_origin.
      exists task. split; [left; reflexivity | left; reflexivity]. }
    assert (snd (build_dependency_graph (task :: parsed)) <> []) as Hnonempty.
    { intros Hnil. rewrite Hnil in Hkey. destruct Hkey. }
    destruct (dict_value_has_key _ _
                ltac:(rewrite <- graph_keys_same; apply graph_keys_NoDup)
                (Hin Hnonempty)) as [k Hk].
    exists k. unfold count_dependents. rewrite <- dependent_count_occurrences.
    unfold dict_get_default. rewrite Hk. reflexivity.
Qed.

(** C8. The dependency score never divides by zero: [score_tasks] raises
    no [ZeroDivisionError] of its own, and in every analysis it returns,
    each task has the number of times the batch names it as a dependency
    as [num_dependents], and a [dep_score] that is 0 when the greatest of
    these numbers in the batch is 0, and otherwise [num_dependents]
    divided by that maximum, up to the rounding to four decimals with
    which the components are stored (0.00005, stated as 0.00006 to cover
    the rounding of floating point).  In both cases it lies in [0,1]. *)
Theorem dep_score_never_divides_by_zero (clock : Z) (payload : list raw_task)
    (strategy : string) :
  (score_tasks depth clock payload strategy = Raise ZeroDivisionError ->
   parse_tasks payload = Raise ZeroDivisionError)
  /\ forall r parsed,
       score_tasks depth clock payload strategy = Ok r ->
       parse_tasks payload = Ok parsed ->
       exists max_dep,
         (forall k, count_dependents parsed k <= max_dep)
         /\ (parsed <> [] -> exists k, count_dependents parsed k = max_dep)
         /\ forall e, In e (Analysis.tasks r) ->
              let c := Scored.components e in
              num_dependents c = count_dependents parsed (Scored.id e)
              /\ (max_dep = 0 -> (dep_score c == 0)%Q)
              /\ (max_dep <> 0 ->
                  (Qabs (dep_score c - inject_Z (num_dependents c) / inject_Z max_dep)
                   <= 6 # 100000)%Q)
              /\ (0 <= dep_score c <= 1)%Q.
Proof.
  split.
  - unfold score_tasks.
    destruct (known_strategy strategy) eqn:Hknown; cbn [negb]; [| discriminate].
    destruct (parse_tasks payload) as [parsed | e] eqn:Hparsed;
      cbn [mbind result_bind]; [| intros [= ->]; reflexivity].
    destruct (build_dependency_graph parsed) as [graph dependents] eqn:Hbuild.
    destruct (find_cycles depth graph) as [cycles | e] eqn:Hcycles;
      cbn [mbind result_bind].
    2: { intros [= ->]. apply find_cycles_raises in Hcycles. discriminate Hcycles. }
    destruct (compute_max_dep_spec parsed) as (max_dep & Hmax & _).
    rewrite Hbuild in Hmax. cbn [snd] in Hmax. rewrite Hmax. cbn [mbind result_bind].
    destruct (for_each_score_task format_g strategy clock dependents cycles max_dep parsed
                Hknown)
      as [[_ [scored ->]] | (pre & task & post & _ & _ & [[_ ->] | (_ & _ & ->)])];
      cbn [mbind result_bind]; [| discriminate | discriminate].
    rewrite build_summary_spec. discriminate.
  - intros r parsed Hr Hparsed.
    destruct (score_tasks_Ok _ _ _ _ _ _ _ _ _ _ Hr)
      as (_ & parsed' & graph & dependents & cycles & max_dep & scored
          & Hparsed' & Hgraph & _ & Hmax & _).
    assert (parsed' = parsed) as -> by congruence.
    assert (dependents = snd (build_dependency_graph parsed)) as Hdependents
        by (rewrite Hgraph; reflexivity).
    rewrite Hdependents in Hmax.
    destruct (max_dep_is_the_maximum parsed max_dep Hmax) as [Hbound Hattained].
    exists max_dep. split; [intros k; apply Hbound |]. split; [exact Hattained |].
    intros e He.
    destruct (scored_entry_origin _ _ _ _ _ _ _ _ _ _ _ Hr He)
      as (parsed' & graph' & dependents' & cycles' & max_dep' & task & e0 & k
          & Hparsed'' & Hgraph' & _ & Hmax' & _ & Hscore & ->).
    assert (parsed' = parsed) as -> by congruence.
    assert (dependents' = snd (build_dependency_graph parsed)) as ->
        by (rewrite Hgraph'; reflexivity).
    assert (max_dep' = max_dep) as -> by congruence.
    pose proof (score_task_components _ _ _ _ _ _ _ _ Hscore)
      as (u & left & i & q & _ & _ & Hq & Hcomponents).
    apply score_task_Ok in Hscore as (_ & _ & Hrec & _).
    assert (Scored.id e0 = id task) as Hid by (rewrite <- Hrec; reflexivity).
    cbv zeta. cbn [Scored.components Scored.id Scored.set_rank].
    rewrite Hcomponents. cbn [num_dependents dep_score]. rewrite Hid.
    assert (dict_get_default (snd (build_dependency_graph parsed)) (id task) 0
            = count_dependents parsed (id task)) as Hcount
        by apply dependent_count_occurrences.
    rewrite Hcount in *.
    destruct (compute_dep_score_spec (count_dependents parsed (id task)) max_dep
                (Hbound (id task))) as (q' & Hq' & Hzero & Hratio & Hunit).
    assert (q' = q) as -> by congruence.
    split; [reflexivity |]. split; [| split].
    + intros Hz. rewrite (Hzero Hz). vm_compute. reflexivity.
    + intros Hnz. rewrite <- (Hratio Hnz).
      pose proof (py_round_close_4 q) as Hclose.
      apply Qabs_Qle_condition in Hclose. apply Qabs_Qle_condition. lra.
    + apply py_round_unit_interval, Hunit.
Qed.

End DependencyScore.

(** ** The explanation *)

Lemma string_app_assoc (s t u : string) : ((s ++ t) ++ u = s ++ (t ++ u))%string.
Proof.
  induction s as [| a s IH]; [reflexivity |].
  change (String a ((s ++ t) ++ u) = String a (s ++ (t ++ u)))%string.
  rewrite IH. reflexivity.
Qed.

Lemma prefix_app (s t : string) : String.prefix s (s ++ t) = true.
Proof.
  induction s as [| a s IH]; [destruct t; reflexivity |].
  change (String.prefix (String a s) (String a (s ++ t)) = true).
  cbn [String.prefix].
  destruct (Ascii.ascii_dec a a); [exact IH | contradiction].
Qed.

Lemma join_parts_snoc (parts : list string) (last : string) :
  parts <> [] ->
  join_parts (parts ++ [last]) = (join_parts parts ++ "; " ++ last)%string.
Proof.
  induction parts as [| p parts IH]; [contradiction |]. intros _.
  destruct parts as [| q parts]; [reflexivity |].
  change (join_parts ((p :: q :: parts) ++ [last]))
    with (p ++ "; " ++ join_parts ((q :: parts) ++ [last]))%string.
  rewrite IH by discriminate.
  change (join_parts (p :: q :: parts)) with (p ++ "; " ++ join_parts (q :: parts))%string.
  rewrite !string_app_assoc. reflexivity.
Qed.

Lemma join_parts_flag (a b : string) (effort blocks : list string) (last : string) :
  join_parts ([a; b] ++ effort ++ blocks ++ [last])
  = (join_parts ([a; b] ++ effort ++ blocks ++ []) ++ "; " ++ last)%string.
Proof.
  rewrite app_nil_r.
  replace ([a; b] ++ effort ++ blocks ++ [last])
    with (([a; b] ++ effort ++ blocks) ++ [last])
    by (rewrite <- !app_assoc; reflexivity).
  apply join_parts_snoc. discriminate.
Qed.

Section Explanation.

Variable format_g : Q -> string.

(** X16. The explanation of a task begins with the clause "No deadline
    (low urgency)" exactly when the task has no due date, and the cycle
    flag does nothing but append the clause "Part of dependency cycle" to
    the explanation the task has without the flag. *)
Theorem explanation_clauses (task : TaskData) (c : components) :
  build_explanation format_g task c true
  = (build_explanation format_g task c false ++ "; Part of dependency cycle")%string
  /\ forall cycle_issue,
      String.prefix "No deadline (low urgency)"
        (build_explanation format_g task c cycle_issue) = true
      <-> due_date task = None.
Proof.
  split.
  - unfold build_explanation. apply join_parts_flag.
  - intros cycle_issue. unfold build_explanation.
    set (rest := _ ++ _ ++ _).
    destruct (due_date task) as [due |].
    + split; [| discriminate]. intros Hprefix. exfalso. revert Hprefix.
      destruct (Qle_bool 0.8 (urgency c)); [cbn; discriminate |].
      destruct (Qle_bool 0.5 (urgency c)); cbn; discriminate.
    + split; [reflexivity |]. intros _.
      change (join_parts (["No deadline (low urgency)"; _] ++ rest))
        with ("No deadline (low urgency)"
              ++ "; " ++ join_parts (("Importance " ++ format_int (importance task)
                                      ++ "/10")%string :: rest))%string.
      apply prefix_app.
Qed.

End Explanation.

(** ** The traversal returns *)

Lemma leads_to_cycle_has_edge (graph : list (Z * list Z)) (x : Z) :
  leads_to_cycle graph x -> exists z, edge graph x z.
Proof.
  intros (y & Hreach & Hcycle). unfold reaches in Hreach.
  apply clos_rt_rt1n in Hreach. inversion Hreach; subst; [| eauto].
  apply clos_trans_t1n in Hcycle. inversion Hcycle; subst; eauto.
Qed.

(** X9. [find_cycles] returns whenever the interpreter allows as many
    nested calls of [dfs] as the graph has nodes, with self-loops,
    repeated edges or ids that are no key: no node is entered twice, so
    the nesting stays within the number of nodes.  It raises nothing but
    [RecursionError], and only with less depth than the graph has nodes.
    What it returns does not depend on the depth: more depth gives the
    same set.  The ids it returns are keys of the graph. *)
Theorem find_cycles_returns_within_depth (depth : nat) (graph : list (Z * list Z)) :
  ((size (graph_nodes graph) <= depth)%nat ->
   exists cycles, find_cycles depth graph = Ok cycles)
  /\ (forall e,
        find_cycles depth graph = Raise e ->
        e = RecursionError /\ (depth < size (graph_nodes graph))%nat)
  /\ (forall cycles,
        find_cycles depth graph = Ok cycles ->
        (forall x, x ∈ cycles -> In x (dict_keys graph))
        /\ (forall deeper, (depth <= deeper)%nat ->
                           find_cycles deeper graph = Ok cycles)).
Proof.
  split; [apply find_cycles_total |]. split.
  - intros e Hraise. split; [eapply find_cycles_raises, Hraise |].
    destruct (le_lt_dec (size (graph_nodes graph)) depth) as [Hle | Hlt]; [| exact Hlt].
    destruct (find_cycles_total graph depth Hle) as [cycles Hcycles]. congruence.
  - intros cycles Hcycles. split.
    + intros x Hx.
      destruct (leads_to_cycle_has_edge graph x
                  (find_cycles_sound graph depth cycles Hcycles x Hx)) as [z Hedge].
      eapply edge_source_is_key, Hedge.
    + intros deeper Hle. eapply find_cycles_deeper; eassumption.
Qed.

(** * Properties of the service *)

(** ** The serializers *)

Lemma clean_dependencies_Valid (n idx : Z) (deps cleaned : list Z) :
  AnalyzeRequestSerializer.clean_dependencies n idx deps = Valid cleaned
  <-> cleaned = deps /\ dependencies_ok n idx deps.
Proof.
  unfold dependencies_ok. revert cleaned.
  induction deps as [| dep deps IH]; intros cleaned; cbn.
  - split; [intros [= <-]; split; [reflexivity | constructor] | intros [-> _]; reflexivity].
  - destruct (Z.leb_spec 1 dep) as [Hlo | Hlo];
      destruct (Z.leb_spec dep n) as [Hhi | Hhi]; cbn;
      try (split; [discriminate | intros [_ H]; apply Forall_cons in H as [H _]; lia]).
    destruct (Z.eqb_spec dep idx) as [-> | Hne];
      [split; [discriminate | intros [_ H]; apply Forall_cons in H as [H _]; lia] |].
    destruct (AnalyzeRequestSerializer.clean_dependencies n idx deps) as [c |] eqn:Hc; cbn.
    + destruct (proj1 (IH c) eq_refl) as [-> Hok]. split.
      * intros [= <-]. split; [reflexivity |]. constructor; [lia | exact Hok].
      * intros [-> _]. reflexivity.
    + split; [discriminate |]. intros [_ H]. apply Forall_cons in H as [_ H].
      assert (@Invalid (list Z) field message = Valid deps) as Habs
        by (apply (IH deps); split; [reflexivity | exact H]).
      discriminate Habs.
Qed.

Lemma validate_tasks_Valid (n : Z) (tasks : list (Z * raw_task)) (out : list raw_task) :
  AnalyzeRequestSerializer.validate_tasks n tasks = Valid out
  <-> out = map (fun '(idx, task) => with_id idx task) tasks
      /\ Forall (fun '(idx, task) =>
                   dependencies_ok n idx
                     (match raw_dependencies task with Some deps => deps | None => [] end))
           tasks.
Proof.
  revert out. induction tasks as [| [idx task] tasks IH]; intros out; cbn.
  - split; [intros [= <-]; split; [reflexivity | constructor] | intros [-> _]; reflexivity].
  - destruct (AnalyzeRequestSerializer.clean_dependencies n idx _) as [c |] eqn:Hc; cbn.
    + apply clean_dependencies_Valid in Hc as [-> Hok].
      destruct (AnalyzeRequestSerializer.validate_tasks n tasks) as [rest |] eqn:Hrest; cbn.
      * destruct (proj1 (IH rest) eq_refl) as [-> Hall]. split.
        -- intros [= <-]. split; [reflexivity |]. constructor; assumption.
        -- intros [-> _]. reflexivity.
      * split; [discriminate |]. intros [_ H]. apply Forall_cons in H as [_ H].
        assert (@Invalid (list raw_task) field message
                = Valid (map (fun '(idx, task) => with_id idx task) tasks)) as Habs
          by (apply IH; split; [reflexivity | exact H]).
        discriminate Habs.
    + split; [discriminate |]. intros [_ H]. apply Forall_cons in H as [H _].
      assert (AnalyzeRequestSerializer.clean_dependencies n idx
                (match raw_dependencies task with Some deps => deps | None => [] end)
              = Valid (match raw_dependencies task with Some deps => deps | None => [] end))
        as Habs by (apply clean_dependencies_Valid; split; [reflexivity | exact H]).
      rewrite Hc in Habs. discriminate Habs.
Qed.

(** X17. [AnalyzeRequestSerializer.validate] accepts a request exactly
    when it has a task and every dependency of the task at place [i] is
    the place of another task of the request.  It then returns the tasks
    in their order, each with its place as id and its dependencies
    unchanged, and the strategy of the request, or the default one when
    the request names none.  A request without tasks is refused on the
    field ["tasks"]. *)
Theorem request_validation (strategy : option string) (tasks : list raw_task) :
  (forall name out,
      AnalyzeRequestSerializer.validate strategy tasks = Valid (name, out)
      <-> tasks <> []
          /\ name = strategy_or_default strategy
          /\ out = map (fun '(idx, task) => with_id idx task) (enumerate 1 tasks)
          /\ Forall (fun '(idx, task) =>
                       dependencies_ok (Z.of_nat (length tasks)) idx
                         (match raw_dependencies task with
                          | Some deps => deps
                          | None => []
                          end))
               (enumerate 1 tasks))
  /\ (tasks = [] ->
      AnalyzeRequestSerializer.validate strategy tasks
      = Invalid "tasks" "Provide at least one task.").
Proof.
  split; [| intros ->; reflexivity].
  intros name out. unfold AnalyzeRequestSerializer.validate, strategy_or_default.
  destruct tasks as [| task tasks]; [split; [discriminate | intros [H _]; congruence] |].
  destruct (AnalyzeRequestSerializer.validate_tasks _ _) as [vs |] eqn:Hvs;
    cbn [mbind validated_bind].
  - apply validate_tasks_Valid in Hvs as [-> Hall]. split.
    + intros [= <- <-]. split; [discriminate |]. repeat split. exact Hall.
    + intros (_ & -> & -> & _). reflexivity.
  - split; [discriminate |]. intros (_ & _ & _ & Hall).
    assert (AnalyzeRequestSerializer.validate_tasks
              (Z.of_nat (length (task :: tasks))) (enumerate 1 (task :: tasks))
            = Valid (map (fun '(idx, task) => with_id idx task)
                       (enumerate 1 (task :: tasks)))) as Habs
      by (apply validate_tasks_Valid; split; [reflexivity | exact Hall]).
    rewrite Hvs in Habs. discriminate Habs.
Qed.

Lemma enumerate_map_indexed {A B : Type} (g : Z -> A -> B) (start : Z) (l : list A) :
  enumerate start (map (fun '(idx, a) => g idx a) (enumerate start l))
  = map (fun '(idx, a) => (idx, g idx a)) (enumerate start l).
Proof.
  revert start. induction l as [| a l IH]; intros start; [reflexivity |].
  cbn [enumerate map]. f_equal. apply IH.
Qed.

Lemma enumerate_map {A B : Type} (f : A -> B) (start : Z) (l : list A) :
  enumerate start (map f l) = map (fun '(idx, a) => (idx, f a)) (enumerate start l).
Proof.
  revert start. induction l as [| a l IH]; intros start; [reflexivity |].
  cbn [enumerate map]. f_equal. apply IH.
Qed.

Lemma enumerate_fst {A : Type} (start : Z) (l : list A) :
  map fst (enumerate start l) = seqZ start (Z.of_nat (length l)).
Proof.
  revert start. induction l as [| a l IH]; intros start; [reflexivity |].
  cbn [enumerate map length fst]. rewrite Nat2Z.inj_succ, seqZ_cons by lia.
  f_equal. rewrite IH. f_equal; lia.
Qed.

Lemma for_each_map_Ok {A B C : Type} (body : B -> result C) (f : A -> B) (g : A -> C)
    (l : list A) :
  (forall a, In a l -> body (f a) = Ok (g a)) -> for_each body (map f l) = Ok (map g l).
Proof.
  induction l as [| a l IH]; intros H; [reflexivity |].
  cbn [map for_each]. rewrite (H a) by (left; reflexivity). cbn.
  rewrite IH by (intros a' Ha'; apply H; right; exact Ha'). reflexivity.
Qed.

Section Pipeline.

Variable date_fromisoformat : string -> result Z.
Variable float_of_str : string -> result Q.
Variable int_of_str : string -> result Z.
Variable repr_float : Q -> string.
Variable format_g : Q -> string.
Variable depth : nat.

Local Abbreviation parse_task :=
  (parse_task date_fromisoformat float_of_str int_of_str repr_float).
Local Abbreviation parse_tasks :=
  (parse_tasks date_fromisoformat float_of_str int_of_str repr_float).
Local Abbreviation score_tasks :=
  (score_tasks date_fromisoformat float_of_str int_of_str repr_float format_g).

Lemma parse_validated_task (idx : Z) (attrs : TaskAttrs.t) :
  parse_task idx (with_id idx (TaskSerializer.validate attrs))
  = Ok (record_of_attrs idx attrs).
Proof.
  unfold parse_task, with_id, TaskSerializer.validate, record_of_attrs. cbn.
  destruct (TaskAttrs.due_date attrs) as [[d |] |]; cbn; destruct idx; reflexivity.
Qed.

Lemma record_of_attrs_plain (idx : Z) (attrs : TaskAttrs.t) :
  plain_due (record_of_attrs idx attrs).
Proof.
  unfold plain_due, record_of_attrs. cbn.
  destruct (TaskAttrs.due_date attrs) as [[d |] |]; exact I.
Qed.


Lemma validated_payload_parses (strategy : option string) (tasks : list TaskAttrs.t)
    (name : string) (payload : list raw_task) :
  AnalyzeRequestSerializer.validate strategy (map TaskSerializer.validate tasks)
  = Valid (name, payload) ->
  name = strategy_or_default strategy
  /\ parse_tasks payload
     = Ok (map (fun '(idx, attrs) => record_of_attrs idx attrs) (enumerate 1 tasks))
  /\ Forall (fun '(idx, attrs) =>
               dependencies_ok (Z.of_nat (length tasks)) idx
                 (dependencies (record_of_attrs idx attrs)))
       (enumerate 1 tasks).
Proof.
  unfold AnalyzeRequestSerializer.validate.
  destruct (map TaskSerializer.validate tasks) as [| v vs] eqn:Hmap; [discriminate |].
  destruct (AnalyzeRequestSerializer.validate_tasks _ _) as [out |] eqn:Hout;
    cbn [mbind validated_bind]; [| discriminate].
  intros [= <- <-]. split; [reflexivity |].
  apply validate_tasks_Valid in Hout as [-> Hall].
  rewrite <- Hmap in *. clear Hmap v vs. rewrite length_map in Hall.
  assert (forall start,
             map (fun '(idx, task) => with_id idx task)
               (enumerate start (map TaskSerializer.validate tasks))
             = map (fun '(idx, attrs) => with_id idx (TaskSerializer.validate attrs))
                 (enumerate start tasks)) as Hpayload.
  { clear. induction tasks as [| a l IH]; intros start; [reflexivity |].
    cbn [map enumerate]. f_equal. apply IH. }
  split.
  - unfold parse_tasks. rewrite Hpayload.
    rewrite (enumerate_map_indexed
               (fun idx attrs => with_id idx (TaskSerializer.validate attrs))).
    apply for_each_map_Ok. intros [idx attrs] _. apply parse_validated_task.
  - clear - Hall. revert Hall. generalize (Z.of_nat (length tasks)) as n. generalize 1.
    induction tasks as [| a l IH]; intros start n Hall; [constructor |].
    cbn [map enumerate] in *. apply Forall_cons in Hall as [Ha Hl].
    constructor; [exact Ha | apply IH, Hl].
Qed.

Lemma record_of_attrs_scorable (idx : Z) (attrs : TaskAttrs.t) :
  (forall value, TaskAttrs.importance attrs = Some value -> in_float_range value) ->
  scorable (record_of_attrs idx attrs).
Proof.
  intros Hrange. split; [apply record_of_attrs_plain |].
  unfold record_of_attrs. cbn [importance].
  destruct (TaskAttrs.importance attrs) as [value |]; [| reflexivity].
  destruct (value =? 0); [reflexivity | apply Hrange; reflexivity].
Qed.

(** X19. A request that passes the validation is scored whenever its
    importances can be converted to a [float] and the interpreter allows
    as many nested calls of [dfs] as the request has tasks: when the
    strategy of the request, if any, is one of the four names,
    [score_tasks] returns on the validated payload, on any day, with one
    scored task per task of the request.  The ids of the scored tasks
    are the places 1, ..., n, and every dependency of a scored task is
    the id of another task of the batch. *)
Theorem validated_request_is_scored (clock : Z) (strategy : option string)
    (tasks : list TaskAttrs.t) (name : string) (payload : list raw_task) :
  AnalyzeRequestSerializer.validate strategy (map TaskSerializer.validate tasks)
  = Valid (name, payload) ->
  (forall given, strategy = Some given -> given = "" \/ In given STRATEGY_CHOICES) ->
  Forall (fun attrs =>
            forall value, TaskAttrs.importance attrs = Some value ->
                          in_float_range value) tasks ->
  (length tasks <= depth)%nat ->
  exists r,
    score_tasks depth clock payload name = Ok r
    /\ length (Analysis.tasks r) = length tasks
    /\ Permutation (map Scored.id (Analysis.tasks r))
         (seqZ 1 (Z.of_nat (length tasks)))
    /\ forall e, In e (Analysis.tasks r) ->
         Forall (fun dep => 1 <= dep <= Z.of_nat (length tasks) /\ dep <> Scored.id e)
           (Scored.dependencies e).
Proof.
  intros Hvalid Hstrategy Hrange Hdepth.
  pose proof (validated_payload_parses _ _ _ _ Hvalid) as (Hname & Hparsed & Hdeps).
  assert (In name STRATEGY_CHOICES) as Hknown.
  { rewrite Hname. unfold strategy_or_default.
    destruct strategy as [given |]; [| cbn; auto 6].
    destruct (Hstrategy given eq_refl) as [-> | Hin]; [cbn; auto 6 |].
    destruct given; [cbn; auto 6 | exact Hin]. }
  set (parsed := map (fun '(idx, attrs) => record_of_attrs idx attrs)
                   (enumerate 1 tasks)) in *.
  assert (forall task, In task parsed ->
             exists idx attrs, In (idx, attrs) (enumerate 1 tasks)
                               /\ In attrs tasks /\ 1 <= idx <= Z.of_nat (length tasks)
                               /\ task = record_of_attrs idx attrs) as Horigin.
  { intros task Htask. apply in_map_iff in Htask as ([idx attrs] & <- & Hin).
    exists idx, attrs. split; [exact Hin |].
    split; [eapply enumerate_In_inv, Hin |]. split; [| reflexivity].
    assert (In idx (map fst (enumerate 1 tasks))) as Hidx
        by (change idx with (fst (idx, attrs)); apply in_map, Hin).
    rewrite enumerate_fst in Hidx. apply list_elem_of_In, elem_of_seqZ in Hidx. lia. }
  assert (Forall scorable parsed) as Hscorable.
  { apply Forall_forall. intros task Htask. apply list_elem_of_In in Htask.
    destruct (Horigin task Htask) as (idx & attrs & _ & Hattrs & _ & ->).
    apply record_of_attrs_scorable.
    rewrite Forall_forall in Hrange. apply Hrange, list_elem_of_In, Hattrs. }
  assert (size (graph_nodes (fst (build_dependency_graph parsed))) <= depth)%nat
    as Hnodes.
  { etransitivity; [| exact Hdepth]. apply graph_nodes_within.
    intros task Htask.
    destruct (Horigin task Htask) as (idx & attrs & Hin & _ & Hidx & ->).
    split; [exact Hidx |].
    rewrite Forall_forall in Hdeps. apply list_elem_of_In, Hdeps in Hin.
    unfold dependencies_ok in Hin. eapply Forall_impl; [exact Hin |].
    cbn. intros dep [Hdep _]. exact Hdep. }
  destruct (find_cycles_total _ depth Hnodes) as [cycles Hcycles].
  destruct (proj2 (score_tasks_returns_iff date_fromisoformat float_of_str int_of_str
                     repr_float format_g depth clock payload name)) as [r Hr].
  { split; [exact Hknown |]. exists parsed. eauto. }
  exists r. split; [exact Hr |].
  destruct (scored_tasks_records date_fromisoformat float_of_str int_of_str repr_float
              format_g depth clock payload name r parsed Hr Hparsed) as [Hperm Hlen].
  pose proof (parse_tasks_length _ _ _ _ _ _ Hparsed) as Hlen'.
  unfold parsed in Hlen'. rewrite length_map, enumerate_length in Hlen'.
  split; [congruence |]. split.
  - apply (Permutation_map id) in Hperm.
    rewrite map_map in Hperm.
    replace (map id parsed) with (seqZ 1 (Z.of_nat (length tasks))) in Hperm;
      [exact Hperm |].
    unfold parsed. rewrite <- enumerate_fst, map_map. apply map_ext.
    intros [idx attrs]. reflexivity.
  - intros e He.
    assert (In (record_of e) parsed) as Hin.
    { eapply Permutation_in; [exact Hperm |]. apply in_map, He. }
    apply in_map_iff in Hin as ([idx attrs] & Hrec & Hin).
    rewrite Forall_forall in Hdeps. apply list_elem_of_In, Hdeps in Hin.
    assert (Scored.id e = idx) as ->
        by (change (id (record_of e) = idx); rewrite <- Hrec; reflexivity).
    assert (Scored.dependencies e = dependencies (record_of_attrs idx attrs)) as ->
      by (change (dependencies (record_of e) = dependencies (record_of_attrs idx attrs));
          rewrite <- Hrec; reflexivity).
    exact Hin.
Qed.

End Pipeline.

(** ** The views *)

Section Views.

Variable date_fromisoformat : string -> result Z.
Variable float_of_str : string -> result Q.
Variable int_of_str : string -> result Z.
Variable repr_float : Q -> string.
Variable format_g : Q -> string.
Variable depth : nat.

Local Abbreviation parse_tasks :=
  (parse_tasks date_fromisoformat float_of_str int_of_str repr_float).
Local Abbreviation score_tasks :=
  (score_tasks date_fromisoformat float_of_str int_of_str repr_float format_g).
Local Abbreviation post :=
  (TaskAnalyzeView_post date_fromisoformat float_of_str int_of_str repr_float format_g
     depth).
Local Abbreviation get :=
  (TaskSuggestView_get date_fromisoformat float_of_str int_of_str repr_float format_g
     depth).
Local Abbreviation handle :=
  (handle date_fromisoformat float_of_str int_of_str repr_float format_g
     depth).
Local Abbreviation run :=
  (run date_fromisoformat float_of_str int_of_str repr_float format_g
     depth).
Local Abbreviation cache_ok :=
  (cache_ok date_fromisoformat float_of_str int_of_str repr_float format_g depth).

Lemma post_cases (st : service_state) (clock now : Z) (strategy : option string)
    (tasks : list TaskAttrs.t) :
  (exists name payload analysis,
      AnalyzeRequestSerializer.validate strategy (map TaskSerializer.validate tasks)
      = Valid (name, payload)
      /\ score_tasks depth clock payload name = Ok analysis
      /\ post st clock now strategy tasks
         = ({| latest_analysis := Some (now, analysis); latest_input := Some payload |},
            Responds (AnalysisResponse now analysis)))
  \/ (fst (post st clock now strategy tasks) = st
      /\ forall generated_at analysis,
           snd (post st clock now strategy tasks)
           <> Responds (AnalysisResponse generated_at analysis)).
Proof.
  unfold post.
  destruct (AnalyzeRequestSerializer.validate _ _) as [[name payload] | field message];
    [| right; split; [reflexivity | discriminate]].
  destruct (score_tasks depth clock payload name) as [analysis | e] eqn:Hscore;
    [| right; split; [reflexivity | discriminate]].
  left. exists name, payload, analysis. repeat split. exact Hscore.
Qed.

Lemma get_keeps_state (st : service_state) (clock now : Z)
    (limit_param strategy_param : option string) :
  fst (get st clock now limit_param strategy_param) = st.
Proof.
  unfold get. destruct (latest_input st); [| reflexivity].
  destruct (negb _); [reflexivity |].
  destruct (match limit_param with Some text => int_of_str text | None => Ok 3 end)
    as [limit | []]; try reflexivity.
  destruct (score_tasks _ _ _); reflexivity.
Qed.

(** X20. Only a successful analysis changes the cache.  A request either
    is an analysis whose tasks pass the validation and are scored, and
    then both slots are replaced by the validated payload and by the
    result, stamped with the time of the request, which is also what the
    view answers; or it leaves the state as it was: a refused request, an
    exception of the engine and every suggestion do. *)
Theorem cache_changes_only_on_success (st : service_state) (req : request) :
  (exists clock now strategy tasks name payload analysis,
      req = Analyze clock now strategy tasks
      /\ AnalyzeRequestSerializer.validate strategy (map TaskSerializer.validate tasks)
         = Valid (name, payload)
      /\ score_tasks depth clock payload name = Ok analysis
      /\ handle st req
         = ({| latest_analysis := Some (now, analysis); latest_input := Some payload |},
            Responds (AnalysisResponse now analysis)))
  \/ (fst (handle st req) = st
      /\ forall generated_at analysis,
           snd (handle st req) <> Responds (AnalysisResponse generated_at analysis)).
Proof.
  destruct req as [clock now strategy tasks | clock now limit_param strategy_param].
  - destruct (post_cases st clock now strategy tasks)
      as [(name & payload & analysis & Hvalid & Hscore & Hpost) | Hsame].
    + left. exists clock, now, strategy, tasks, name, payload, analysis. auto.
    + right. exact Hsame.
  - right. split; [apply get_keeps_state |].
    intros generated_at analysis. unfold handle, get.
    destruct (latest_input st); [| discriminate].
    destruct (negb _); [discriminate |].
    destruct (match limit_param with Some text => int_of_str text | None => Ok 3 end)
      as [limit | []]; try discriminate.
    destruct (score_tasks _ _ _); discriminate.
Qed.

Lemma validate_Valid_nonempty (strategy : option string) (tasks : list raw_task)
    (name : string) (payload : list raw_task) :
  AnalyzeRequestSerializer.validate strategy tasks = Valid (name, payload) ->
  payload <> [].
Proof.
  unfold AnalyzeRequestSerializer.validate.
  destruct tasks as [| task tasks]; [discriminate |].
  destruct (AnalyzeRequestSerializer.validate_tasks _ _) as [out |] eqn:Hout;
    cbn [mbind validated_bind]; [| discriminate].
  intros [= _ <-]. apply validate_tasks_Valid in Hout as [-> _]. discriminate.
Qed.

Lemma handle_keeps_cache_ok (st : service_state) (req : request) :
  cache_ok st -> cache_ok (fst (handle st req)).
Proof.
  intros Hok.
  destruct req as [clock now strategy tasks | clock now limit_param strategy_param].
  - destruct (post_cases st clock now strategy tasks)
      as [(name & payload & analysis & Hvalid & Hscore & Hpost) | [Hsame _]].
    + unfold handle. rewrite Hpost. unfold cache_ok. cbn.
      split; [eauto |]. split; [eapply validate_Valid_nonempty, Hvalid |].
      eauto.
    + unfold handle. rewrite Hsame. exact Hok.
  - unfold handle. rewrite get_keeps_state. exact Hok.
Qed.

Lemma run_keeps_cache_ok (st : service_state) (reqs : list request) :
  cache_ok st -> cache_ok (run st reqs).
Proof.
  revert st. induction reqs as [| req reqs IH]; intros st Hok; [exact Hok |].
  cbn [run]. apply IH, handle_keeps_cache_ok, Hok.
Qed.

Lemma cached_payload_is_scored (st : service_state) (payload : list raw_task)
    (clock : Z) (strategy : string) :
  cache_ok st -> latest_input st = Some payload -> In strategy STRATEGY_CHOICES ->
  exists analysis,
    score_tasks depth clock payload strategy = Ok analysis
    /\ length (Analysis.tasks analysis) = length payload
    /\ payload <> []
    /\ exists generated_at cached, latest_analysis st = Some (generated_at, cached).
Proof.
  unfold cache_ok. intros Hok Hinput Hknown. rewrite Hinput in Hok.
  destruct Hok as (Hcached & Hne & clock0 & strategy0 & analysis0 & Hscored).
  destruct (proj1 (score_tasks_returns_iff date_fromisoformat float_of_str int_of_str
                     repr_float format_g depth clock0 payload strategy0)
              (ex_intro _ analysis0 Hscored)) as [_ Hrest].
  destruct (proj2 (score_tasks_returns_iff date_fromisoformat float_of_str int_of_str
                     repr_float format_g depth clock payload strategy)
              (conj Hknown Hrest)) as [r Hr].
  exists r. split; [exact Hr |]. split; [| auto].
  destruct Hrest as (parsed & Hparsed & _).
  apply (scored_tasks_records date_fromisoformat float_of_str int_of_str repr_float
           format_g depth clock payload strategy r parsed Hr Hparsed).
Qed.

(** X21. In every state the service reaches from its start, whatever the
    requests, a suggestion is answered and never lets an exception of the
    engine through, provided [int] raises nothing but [ValueError] on a
    text: the answer is 404 exactly when no analysis has succeeded yet,
    and otherwise 200 when the strategy is one of the four names and the
    limit is absent or an integer, and 400 when not. *)
Theorem suggest_always_answers (reqs : list request) (clock now : Z)
    (limit_param strategy_param : option string) :
  (forall text e, int_of_str text = Raise e -> exists msg, e = ValueError msg) ->
  let st := run initial_state reqs in
  let name := match strategy_param with Some name => name | None => DEFAULT_STRATEGY end in
  exists r,
    get st clock now limit_param strategy_param = (st, Responds r)
    /\ (status_code r = 404 <-> latest_input st = None)
    /\ (status_code r = 200
        <-> latest_input st <> None /\ In name STRATEGY_CHOICES
            /\ (limit_param = None
                \/ exists text limit, limit_param = Some text
                                      /\ int_of_str text = Ok limit))
    /\ (status_code r = 200 \/ status_code r = 400 \/ status_code r = 404).
Proof.
  intros Hint st name.
  assert (cache_ok st) as Hok by (apply run_keeps_cache_ok; reflexivity).
  unfold get. destruct (latest_input st) as [payload |] eqn:Hinput.
  - fold name. destruct (known_strategy name) eqn:Hknown; cbn [negb].
    + apply known_strategy_In in Hknown.
      assert (forall limit,
                 exists r,
                   match score_tasks depth clock payload name with
                   | Ok analysis =>
                       (st, Responds
                              (SuggestResponse
                                 match latest_analysis st with
                                 | Some (generated_at, _) => generated_at
                                 | None => now
                                 end name (if limit <=? 0 then 1 else limit)
                                 (take (Z.to_nat (if limit <=? 0 then 1 else limit))
                                    (Analysis.tasks analysis))
                                 (Analysis.summary analysis)))
                   | Raise e => (st, Propagates e)
                   end = (st, Responds r) /\ status_code r = 200) as Hscored.
      { intros limit.
        destruct (cached_payload_is_scored st payload clock name Hok Hinput Hknown)
          as (analysis & -> & _). eexists. split; reflexivity. }
      destruct limit_param as [text |].
      * destruct (int_of_str text) as [limit | e] eqn:Hlimit.
        -- destruct (Hscored limit) as (r & -> & Hstatus). exists r.
           split; [reflexivity |]. rewrite Hstatus.
           split; [split; [discriminate | discriminate] |].
           split; [| auto].
           split; [intros _ | reflexivity].
           split; [discriminate |]. split; [exact Hknown |]. right. eauto.
        -- destruct (Hint text e Hlimit) as [msg ->]. eexists.
           split; [reflexivity |]. cbn [status_code].
           split; [split; [discriminate | discriminate] |].
           split; [| auto].
           split; [discriminate |].
           intros (_ & _ & [Habs | (text' & limit & [= <-] & Habs)]); congruence.
      * destruct (Hscored 3) as (r & -> & Hstatus). exists r.
        split; [reflexivity |]. rewrite Hstatus.
        split; [split; [discriminate | discriminate] |].
        split; [| auto].
        split; [intros _ | reflexivity].
        split; [discriminate |]. split; [exact Hknown |]. left. reflexivity.
    + eexists. split; [reflexivity |]. cbn [status_code].
      split; [split; [discriminate | discriminate] |].
      split; [| auto].
      split; [discriminate |]. intros (_ & Hin & _).
      apply known_strategy_In in Hin. congruence.
  - eexists. split; [reflexivity |]. cbn [status_code].
    split; [split; reflexivity |].
    split; [| auto].
    split; [discriminate | intros [Habs _]; congruence].
Qed.

(** X22. In every state the service reaches with an analysis cached, a
    suggestion under one of the four strategies and with the limit
    [limit] (3 when the request gives none) answers with the first
    [max(1, limit)] tasks of the cached payload, scored under that
    strategy on the day of the request: at least one task, at most as
    many as the payload has, with the summary of the whole batch and the
    time of the cached analysis. *)
Theorem suggestion_is_the_top_of_the_cached_batch (reqs : list request)
    (payload : list raw_task) (clock now limit : Z)
    (limit_param strategy_param : option string) :
  let st := run initial_state reqs in
  let name := match strategy_param with Some name => name | None => DEFAULT_STRATEGY end in
  latest_input st = Some payload ->
  In name STRATEGY_CHOICES ->
  match limit_param with Some text => int_of_str text | None => Ok 3 end = Ok limit ->
  exists generated_at cached analysis,
    latest_analysis st = Some (generated_at, cached)
    /\ score_tasks depth clock payload name = Ok analysis
    /\ get st clock now limit_param strategy_param
       = (st, Responds
                (SuggestResponse generated_at name (Z.max 1 limit)
                   (take (Z.to_nat (Z.max 1 limit)) (Analysis.tasks analysis))
                   (Analysis.summary analysis)))
    /\ length (take (Z.to_nat (Z.max 1 limit)) (Analysis.tasks analysis))
       = Nat.min (Z.to_nat (Z.max 1 limit)) (length payload)
    /\ (1 <= length (take (Z.to_nat (Z.max 1 limit)) (Analysis.tasks analysis)))%nat.
Proof.
  intros st name Hinput Hknown Hlimit.
  assert (cache_ok st) as Hok by (apply run_keeps_cache_ok; reflexivity).
  destruct (cached_payload_is_scored st payload clock name Hok Hinput Hknown)
    as (analysis & Hscore & Hlen & Hne & generated_at & cached & Hcached).
  exists generated_at, cached, analysis.
  split; [exact Hcached |]. split; [exact Hscore |].
  assert ((if limit <=? 0 then 1 else limit) = Z.max 1 limit) as Hclamp
    by (destruct (Z.leb_spec limit 0); lia).
  split.
  - unfold get. rewrite Hinput. fold name.
    rewrite (proj2 (known_strategy_In name) Hknown). cbn [negb].
    rewrite Hlimit, Hscore, Hcached, Hclamp. reflexivity.
  - rewrite length_take, Hlen. split; [reflexivity |].
    destruct payload; [contradiction |]. cbn [length]. lia.
Qed.

End Views.

(** ** The further properties on the examples *)

Lemma dep_score_never_divides_by_zero_witness :
  exists r parsed,
    example_score_tasks 100 three_tasks "smart_balance" = Ok r
    /\ example_parse_tasks three_tasks = Ok parsed
    /\ exists max_dep,
         (forall k, count_dependents parsed k <= max_dep)
         /\ forall e, In e (Analysis.tasks r) ->
              (0 <= dep_score (Scored.components e) <= 1)%Q.
Proof.
  eexists. eexists.
  split; [vm_compute; reflexivity |]. split; [vm_compute; reflexivity |].
  match goal with
  | |- exists max_dep, (forall k, count_dependents ?parsed k <= max_dep)
                       /\ forall e, In e (Analysis.tasks ?r) -> _ =>
      assert (example_score_tasks 100 three_tasks "smart_balance" = Ok r) as Hr
        by (vm_compute; reflexivity);
      assert (example_parse_tasks three_tasks = Ok parsed) as Hparsed
        by (vm_compute; reflexivity)
  end.
  destruct (proj2 (dep_score_never_divides_by_zero rejects_text rejects_text
                     rejects_text prints_nothing prints_nothing example_depth 100
                     three_tasks "smart_balance") _ _ Hr Hparsed)
    as (max_dep & Hbound & _ & Hall).
  exists max_dep. split; [exact Hbound |].
  intros e He. apply (Hall e He).
Defined.

Lemma compute_importance_clamped_witness :
  in_float_range 7 /\ 0 <= 7 <= 10
  /\ exists v, compute_importance 7 = Ok v /\ (v == inject_Z 7 / 10)%Q.
Proof.
  assert (in_float_range 7) as Hin by reflexivity.
  assert (0 <= 7 <= 10) as H by lia.
  split; [exact Hin |]. split; [exact H |].
  destruct (proj1 (compute_importance_clamped 7) Hin) as (v & Hv & _ & Htenth & _).
  exists v. split; [exact Hv | exact (Htenth H)].
Defined.

Lemma compute_quick_win_clamped_witness :
  (0 <= 2 <= 8)%Q /\ (compute_quick_win 2 == 1 - 2 / 8)%Q.
Proof.
  assert (0 <= 2 <= 8)%Q as H by (split; unfold Qle; simpl; lia).
  split; [exact H |].
  exact (proj1 (proj2 (proj2 (compute_quick_win_clamped 2))) H).
Defined.

Lemma later_deadline_is_never_more_urgent_witness :
  105 <= 110
  /\ exists u1 u2 left1 left2,
       compute_urgency 100 (Some (Date 105)) None = Ok (u1, left1)
       /\ compute_urgency 100 (Some (Date 110)) None = Ok (u2, left2)
       /\ (0 <= u2)%Q /\ (u2 <= u1)%Q /\ (u1 <= 1)%Q.
Proof.
  assert (105 <= 110) as H by lia.
  split; [exact H |].
  exact (later_deadline_is_never_more_urgent 100 None 105 110 H).
Defined.

Lemma strategy_scores_are_weighted_means_witness :
  strategy_function STRATEGY_FUNCTIONS "smart_balance" = Ok score_smart
  /\ forall c, unit_components c -> unit_interval (score_smart c).
Proof.
  assert (strategy_function STRATEGY_FUNCTIONS "smart_balance" = Ok score_smart) as H
      by reflexivity.
  split; [exact H |].
  exact (proj1 (proj2 (strategy_scores_are_weighted_means "smart_balance" score_smart H))).
Defined.

Lemma scores_are_percentages_witness :
  exists r,
    example_score_tasks 100 two_in_a_loop "smart_balance" = Ok r
    /\ forall e, In e (Analysis.tasks r) ->
         (0 <= Scored.score e <= 100)%Q
         /\ (Scored.cycle_issue e = true -> (Scored.score e <= 20)%Q).
Proof.
  eexists. split; [vm_compute; reflexivity |].
  match goal with
  | |- context [Analysis.tasks ?r] =>
      assert (example_score_tasks 100 two_in_a_loop "smart_balance" = Ok r) as Hr
        by (vm_compute; reflexivity)
  end.
  intros e He.
  exact (proj2 (scores_are_percentages rejects_text rejects_text rejects_text
                  prints_nothing prints_nothing example_depth 100 two_in_a_loop
                  "smart_balance" _ Hr e He)).
Defined.

Lemma cycle_penalty_never_raises_the_score_witness :
  (0 <= 1)%Q /\ (final_score 1 true <= final_score 1 false)%Q.
Proof.
  assert (0 <= 1)%Q as H by (unfold Qle; simpl; lia).
  split; [exact H |].
  exact (cycle_penalty_never_raises_the_score 1 H).
Defined.

Lemma find_cycles_flags_lead_to_cycles_witness :
  find_cycles 3 [(1, [2]); (2, [3]); (3, [2])] = Ok {[1; 2; 3]}
  /\ forall x, x ∈ ({[1; 2; 3]} : gset Z) ->
       leads_to_cycle [(1, [2]); (2, [3]); (3, [2])] x.
Proof.
  assert (find_cycles 3 [(1, [2]); (2, [3]); (3, [2])] = Ok {[1; 2; 3]}) as H
      by (vm_compute; reflexivity).
  split; [exact H |].
  exact (proj1 (find_cycles_flags_lead_to_cycles _ _ _ H)).
Defined.

Lemma find_cycles_flags_every_cycle_witness :
  find_cycles 3 [(1, [2; 3]); (2, [1]); (3, [2])] = Ok {[1; 2]}
  /\ forall x, on_cycle [(1, [2; 3]); (2, [1]); (3, [2])] x ->
       exists y, y ∈ ({[1; 2]} : gset Z)
                 /\ reaches [(1, [2; 3]); (2, [1]); (3, [2])] x y
                 /\ reaches [(1, [2; 3]); (2, [1]); (3, [2])] y x.
Proof.
  assert (find_cycles 3 [(1, [2; 3]); (2, [1]); (3, [2])] = Ok {[1; 2]}) as H
      by (vm_compute; reflexivity).
  split; [exact H |].
  exact (proj1 (find_cycles_flags_every_cycle _ _ _ H)).
Defined.

Lemma find_cycles_returns_within_depth_witness :
  (size (graph_nodes chain_of_three) <= 3)%nat
  /\ (exists cycles, find_cycles 3 chain_of_three = Ok cycles)
  /\ find_cycles 2 chain_of_three = Raise RecursionError.
Proof.
  assert (size (graph_nodes chain_of_three) <= 3)%nat as H by (vm_compute; lia).
  split; [exact H |]. split; [| vm_compute; reflexivity].
  exact (proj1 (find_cycles_returns_within_depth 3 chain_of_three) H).
Defined.

Lemma graph_reverses_dependencies_witness :
  depends_on chain_into_loop 2 1
  /\ edge (fst (build_dependency_graph chain_into_loop)) 1 2.
Proof.
  assert (depends_on chain_into_loop 2 1) as H.
  { exists (task_example 2 [1; 3]).
    split; [right; left; reflexivity | split; [reflexivity | left; reflexivity]]. }
  split; [exact H |].
  exact (proj2 (proj1 (graph_reverses_dependencies chain_into_loop 1 2)) H).
Defined.

Lemma graph_keys_witness :
  In (task_example 3 [2]) chain_into_loop
  /\ exists dependents count,
       dict_get (fst (build_dependency_graph chain_into_loop)) 3 = Some dependents
       /\ dict_get (snd (build_dependency_graph chain_into_loop)) 3 = Some count.
Proof.
  assert (In (task_example 3 [2]) chain_into_loop) as H
      by (right; right; left; reflexivity).
  split; [exact H |].
  exact (proj2 (proj2 (proj2 (graph_keys chain_into_loop))) _ H).
Defined.


Lemma score_tasks_returns_exactly_when_witness :
  (In "high_impact" STRATEGY_CHOICES
   /\ exists parsed,
        example_parse_tasks three_tasks = Ok parsed
        /\ Forall scorable parsed
        /\ exists cycles,
             find_cycles example_depth (fst (build_dependency_graph parsed)) = Ok cycles)
  /\ exists r, example_score_tasks 100 three_tasks "high_impact" = Ok r.
Proof.
  match goal with
  | |- ?conditions /\ _ => assert conditions as H
  end.
  { split; [right; left; reflexivity |].
    eexists. split; [vm_compute; reflexivity |]. split.
    - repeat (constructor; [split; [exact I | reflexivity] |]). constructor.
    - eexists. vm_compute. reflexivity. }
  split; [exact H |].
  exact (proj2 (proj1 (score_tasks_returns_exactly_when rejects_text rejects_text
                         rejects_text prints_nothing prints_nothing example_depth 100
                         three_tasks "high_impact")) H).
Defined.

Lemma score_tasks_raises_only_witness :
  In "smart_balance" STRATEGY_CHOICES
  /\ example_score_tasks 100 due_at_noon "smart_balance" = Raise TypeError
  /\ (example_parse_tasks due_at_noon = Raise TypeError
      \/ exists parsed,
           example_parse_tasks due_at_noon = Ok parsed
           /\ ((TypeError = RecursionError
                /\ find_cycles example_depth (fst (build_dependency_graph parsed))
                   = Raise RecursionError)
               \/ ((exists cycles,
                       find_cycles example_depth (fst (build_dependency_graph parsed))
                       = Ok cycles)
                   /\ exists pre task post,
                        parsed = pre ++ task :: post
                        /\ Forall scorable pre
                        /\ ((TypeError = TypeError /\ ~ plain_due task)
                            \/ (TypeError = OverflowError /\ plain_due task
                                /\ ~ in_float_range (importance task)))))).
Proof.
  assert (In "smart_balance" STRATEGY_CHOICES) as Hknown
      by (right; right; right; left; reflexivity).
  assert (example_score_tasks 100 due_at_noon "smart_balance" = Raise TypeError) as Hraise
      by (vm_compute; reflexivity).
  split; [exact Hknown |]. split; [exact Hraise |].
  exact (score_tasks_raises_only rejects_text rejects_text rejects_text prints_nothing
           prints_nothing example_depth 100 due_at_noon "smart_balance" TypeError
           Hknown Hraise).
Defined.

Lemma parse_tasks_keeps_order_witness :
  exists parsed,
    example_parse_tasks three_tasks = Ok parsed
    /\ Forall (fun raw => raw_id raw = None) three_tasks
    /\ length parsed = 3%nat
    /\ map id parsed = [1; 2; 3].
Proof.
  eexists. split; [vm_compute; reflexivity |].
  match goal with
  | |- _ /\ length ?parsed = _ /\ _ =>
      assert (example_parse_tasks three_tasks = Ok parsed) as Hparsed
        by (vm_compute; reflexivity)
  end.
  assert (Forall (fun raw => raw_id raw = None) three_tasks) as Hids
      by (repeat (constructor; [reflexivity |]); constructor).
  split; [exact Hids |].
  destruct (parse_tasks_keeps_order rejects_text rejects_text rejects_text prints_nothing
              three_tasks _ Hparsed) as (Hlen & _ & Hseq).
  split; [exact Hlen | exact (Hseq Hids)].
Defined.

Lemma explanation_clauses_witness :
  due_date (task_example 1 []) = None
  /\ forall c,
       String.prefix "No deadline (low urgency)"
         (build_explanation prints_nothing (task_example 1 []) c false) = true.
Proof.
  assert (due_date (task_example 1 []) = None) as H by reflexivity.
  split; [exact H |]. intros c.
  exact (proj2 (proj2 (explanation_clauses prints_nothing (task_example 1 []) c) false) H).
Defined.

Lemma request_validation_witness :
  AnalyzeRequestSerializer.validate None (map TaskSerializer.validate two_attrs)
  = Valid ("smart_balance", two_validated)
  /\ AnalyzeRequestSerializer.validate None [] = Invalid "tasks" "Provide at least one task.".
Proof.
  split.
  - apply (proj2 (proj1 (request_validation None (map TaskSerializer.validate two_attrs))
                    "smart_balance" two_validated)).
    split; [discriminate |]. split; [reflexivity |]. split; [reflexivity |].
    unfold two_attrs. cbn [map enumerate].
    constructor; [constructor |].
    constructor; [| constructor].
    constructor; [| constructor].
    split; [split; apply Z.leb_le; reflexivity |].
    intros Hself. vm_compute in Hself. discriminate Hself.
  - exact (proj2 (request_validation None []) eq_refl).
Defined.


Lemma validated_request_is_scored_witness :
  AnalyzeRequestSerializer.validate (Some "high_impact")
    (map TaskSerializer.validate two_attrs)
  = Valid ("high_impact", two_validated)
  /\ (length two_attrs <= example_depth)%nat
  /\ exists r,
       example_score_tasks 100 two_validated "high_impact" = Ok r
       /\ length (Analysis.tasks r) = 2%nat.
Proof.
  assert (AnalyzeRequestSerializer.validate (Some "high_impact")
            (map TaskSerializer.validate two_attrs)
          = Valid ("high_impact", two_validated)) as Hvalid by (vm_compute; reflexivity).
  assert (length two_attrs <= example_depth)%nat as Hdepth
      by (unfold example_depth; cbn [two_attrs length]; lia).
  split; [exact Hvalid |]. split; [exact Hdepth |].
  assert (forall given, Some "high_impact" = Some given ->
                        given = "" \/ In given STRATEGY_CHOICES) as Hknown
      by (intros given [= <-]; right; right; left; reflexivity).
  assert (Forall (fun attrs =>
                    forall value, TaskAttrs.importance attrs = Some value ->
                                  in_float_range value) two_attrs) as Hrange
      by (repeat (constructor;
                  [intros value Hvalue;
                   first [discriminate Hvalue | injection Hvalue as <-; reflexivity] |]);
          constructor).
  destruct (validated_request_is_scored rejects_text rejects_text rejects_text
              prints_nothing prints_nothing example_depth 100 (Some "high_impact")
              two_attrs "high_impact" two_validated Hvalid Hknown Hrange Hdepth)
    as (r & Hr & Hlen & _).
  exists r. split; [exact Hr | exact Hlen].
Defined.

Lemma suggest_always_answers_witness :
  (forall text e, rejects_text (A := Z) text = Raise e -> exists msg, e = ValueError msg)
  /\ exists r,
       example_get (example_run one_analysis) 101 6000 None None
       = (example_run one_analysis, Responds r)
       /\ status_code r = 200.
Proof.
  assert (forall text e, rejects_text (A := Z) text = Raise e ->
                         exists msg, e = ValueError msg) as Hint
      by (unfold rejects_text; intros text e [= <-]; eexists; reflexivity).
  split; [exact Hint |].
  destruct (suggest_always_answers rejects_text rejects_text rejects_text prints_nothing
              prints_nothing example_depth one_analysis 101 6000 None None Hint)
    as (r & Hget & _ & Hok & _).
  exists r. split; [exact Hget |].
  apply (proj2 Hok).
  split; [intros Hnone; vm_compute in Hnone; discriminate Hnone |].
  split; [right; right; right; left; reflexivity | left; reflexivity].
Defined.

Lemma suggestion_is_the_top_of_the_cached_batch_witness :
  latest_input (example_run one_analysis) = Some two_validated
  /\ In "deadline_driven" STRATEGY_CHOICES
  /\ exists generated_at analysis,
       example_score_tasks 101 two_validated "deadline_driven" = Ok analysis
       /\ example_get (example_run one_analysis) 101 6000 None (Some "deadline_driven")
          = (example_run one_analysis,
             Responds (SuggestResponse generated_at "deadline_driven" 3
                         (take 3 (Analysis.tasks analysis))
                         (Analysis.summary analysis)))
       /\ length (take 3 (Analysis.tasks analysis)) = 2%nat.
Proof.
  assert (latest_input (example_run one_analysis) = Some two_validated) as Hinput
      by (vm_compute; reflexivity).
  assert (In "deadline_driven" STRATEGY_CHOICES) as Hknown
      by (right; right; left; reflexivity).
  split; [exact Hinput |]. split; [exact Hknown |].
  destruct (suggestion_is_the_top_of_the_cached_batch rejects_text rejects_text
              rejects_text prints_nothing prints_nothing example_depth one_analysis
              two_validated 101 6000 3 None (Some "deadline_driven") Hinput Hknown
              eq_refl)
    as (generated_at & cached & analysis & _ & Hscore & Hget & Hlen & _).
  exists generated_at, analysis.
  split; [exact Hscore |]. split; [exact Hget | exact Hlen].
Defined.
